(** * Token-aware chunker and dependency-aware task scheduler

    A shallow embedding of [backend/services/chunker.py],
    [backend/services/task_scheduler.py] and [agents/coordinator.py],
    followed by the properties of the specification that concern them.

    Conventions.
    - Python [int] is [Z]; [len(...)] is [Z.of_nat (length ...)].
    - Python [str] is [string]; a character of the model stands for one
      code point.
    - A raised exception is carried by its message (what [str(e)] gives). *)

From Stdlib Require Import ZArith List String Ascii Bool Lia Arith.
From Stdlib Require Import DecimalString.
Import ListNotations.

Local Open Scope string_scope.
Local Open Scope Z_scope.
Local Open Scope list_scope.

(** ** Python helpers used by the embedded code *)

Module Py.

Definition nl : string := String (ascii_of_nat 10) EmptyString.

(** [str(n)] for an integer. *)
Definition str_int (n : Z) : string := NilZero.string_of_int (Z.to_int n).

(** [sep.join(parts)]. *)
Definition join (sep : string) (parts : list string) : string :=
  String.concat sep parts.

(** [needle in haystack] for strings. *)
Definition contains (needle haystack : string) : bool :=
  match needle with
  | EmptyString => true
  | _ => match index 0 needle haystack with Some _ => true | None => false end
  end.

(** [s.split('\n')]: never empty, the separator only is the line feed. *)
Fixpoint split_nl_aux (s cur : string) : list string :=
  match s with
  | EmptyString => [cur]
  | String c rest =>
      if Ascii.eqb c (ascii_of_nat 10)
      then cur :: split_nl_aux rest EmptyString
      else split_nl_aux rest (cur ++ String c EmptyString)%string
  end.
Definition split_nl (s : string) : list string := split_nl_aux s EmptyString.

(** The line boundaries of [str.splitlines] that fit in one byte:
    LF, VT, FF, CR, FS, GS, RS and NEL. *)
Definition is_linebreak (c : ascii) : bool :=
  let n := nat_of_ascii c in
  ((10 <=? n) && (n <=? 13))%nat || ((28 <=? n) && (n <=? 30))%nat || (n =? 133)%nat.

(** [s.splitlines()]: CR LF is one boundary, and a final boundary opens
    no further line. *)
Fixpoint splitlines_aux (s cur : string) : list string :=
  match s with
  | EmptyString => match cur with EmptyString => [] | _ => [cur] end
  | String c rest =>
      if is_linebreak c then
        match rest with
        | String c' rest' =>
            if Ascii.eqb c (ascii_of_nat 13) && Ascii.eqb c' (ascii_of_nat 10)
            then cur :: splitlines_aux rest' EmptyString
            else cur :: splitlines_aux rest EmptyString
        | EmptyString => cur :: splitlines_aux rest EmptyString
        end
      else splitlines_aux rest (cur ++ String c EmptyString)%string
  end.
Definition splitlines (s : string) : list string := splitlines_aux s EmptyString.

(** Exceptions: a computation returns a value or raises a message. *)
Inductive Exc (A : Type) : Type :=
| Return (a : A)
| Raise (msg : string).
Arguments Return {A} a.
Arguments Raise {A} msg.

Definition bind {A B} (m : Exc A) (k : A -> Exc B) : Exc B :=
  match m with
  | Return a => k a
  | Raise msg => Raise msg
  end.

(** [try: body except Exception as e: handler(str(e))]. *)
Definition try_except {A} (body : Exc A) (handler : string -> A) : A :=
  match body with
  | Return a => a
  | Raise msg => handler msg
  end.

End Py.

Notation "x <- m ;; k" := (Py.bind m (fun x => k))
  (at level 61, m at next level, right associativity).

(** ** backend/services/chunker.py *)

Module Chunker.
Import Py.

(** [pathlib.Path], through the three views the code takes of it:
    [str(filepath)], [filepath.name] and [filepath.suffix]. *)
Record Path : Type := {
  path_str : string;
  path_name : string;
  path_suffix : string
}.

(** The dictionary [extract_metadata] returns when it succeeds. *)
Record FileInfo : Type := {
  path : string;
  name : string;
  extension : string;
  size : Z;
  tokens : Z;
  lines : Z;
  functions : list string;
  classes : list string;
  preview : string;
  full_content : option string
}.

(** The two shapes of a metadata dictionary: the full one, and the one
    with the ['error'] key. *)
Inductive FileMeta : Type :=
| Meta (info : FileInfo)
| MetaError (err_path err_name error : string).

(** ['error' in file_meta] *)
Definition has_error (file_meta : FileMeta) : bool :=
  match file_meta with
  | Meta _ => false
  | MetaError _ _ _ => true
  end.

(** [SmartChunker.__init__]: the budget read from the settings and the
    tokenizer. The tokenizer is an external collaborator: it maps a text
    to its tokens, and is taken to answer on every text, as its contract
    says. *)
Record SmartChunker : Type := {
  max_tokens : Z;
  encoder : string -> list Z
}.

(** [settings.MAX_CHUNK_TOKENS], as [backend/config.py] defaults it. *)
Definition MAX_CHUNK_TOKENS : Z := 6000.

Definition SmartChunker_init (encoding_for_model : string -> list Z) : SmartChunker :=
  {| max_tokens := MAX_CHUNK_TOKENS; encoder := encoding_for_model |}.

Definition count_tokens (self : SmartChunker) (text : string) : Z :=
  Z.of_nat (List.length (encoder self text)).

(** Three double quotes, the docstring delimiter. *)
Definition triple_dq : string :=
  let q := ascii_of_nat 34 in String q (String q (String q EmptyString)).

Definition priority_keywords : list string :=
  ["def "; "class "; triple_dq; "'''"; "//"; "/*"; "#"; "function "; "const "; "interface "].

(** The loop of [_create_smart_preview] over [enumerate(lines[:100])]:
    [todo] counts the lines of the slice still to visit and [rest] is
    [lines[i:]], so that [lines[i:min(i+3, len(lines))]] is
    [firstn 3 rest]. *)
Fixpoint preview_loop (max_lines : nat) (todo : nat) (rest important_lines : list string)
  : list string :=
  match todo, rest with
  | S todo', line :: rest' =>
      if existsb (fun keyword => contains keyword line) priority_keywords then
        let important_lines' := important_lines ++ firstn 3 rest in
        if (max_lines <=? List.length important_lines')%nat
        then important_lines'
        else preview_loop max_lines todo' rest' important_lines'
      else preview_loop max_lines todo' rest' important_lines
  | _, _ => important_lines
  end.

Definition _create_smart_preview (content extension : string) (max_lines : nat) : string :=
  let lines := split_nl content in
  let important_lines := preview_loop max_lines 100 lines [] in
  let preview := join nl (firstn max_lines important_lines) in
  if (max_lines <? List.length lines)%nat
  then (preview ++ nl ++ "... ("
          ++ str_int (Z.of_nat (List.length lines) - Z.of_nat max_lines)
          ++ " more lines)")%string
  else preview.

Section ExtractMetadata.

(** The file system as [open(filepath, 'r', encoding='utf-8',
    errors='ignore').read()] sees it: the decoded content, or the
    exception the call raises. *)
Variable read_text : Path -> Exc string.

(** The tokenizer as the library behaves inside the [try]:
    [self.encoder.encode(content)] raises on some texts (tiktoken
    refuses a text that spells one of its special tokens).
    [refused content] is the message of that exception; where it is
    [None] the call returns, and the count is [count_tokens self
    content]. *)
Variable refused : string -> option string.

(** [ast.parse] followed by the two walks: the names of the
    [FunctionDef] and of the [ClassDef] nodes, or [None] when the parse
    raises. *)
Variable ast_names : string -> option (list string * list string).

(** [tokens = self.count_tokens(content)] where the library can raise. *)
Definition count_tokens_in_try (self : SmartChunker) (content : string) : Exc Z :=
  match refused content with
  | Some e => Raise e
  | None => Return (count_tokens self content)
  end.

Definition extract_metadata (self : SmartChunker) (filepath : Path) : FileMeta :=
  try_except
    (content <- read_text filepath ;;
     tokens <- count_tokens_in_try self content ;;
     let lines := Z.of_nat (List.length (splitlines content)) in
     let '(functions, classes) :=
       if String.eqb (path_suffix filepath) ".py" then
         match ast_names content with
         | Some names => names
         | None => ([], [])
         end
       else ([], []) in
     let preview := _create_smart_preview content (path_suffix filepath) 30 in
     Return (Meta {|
       path := path_str filepath;
       name := path_name filepath;
       extension := path_suffix filepath;
       size := Z.of_nat (String.length content);
       tokens := tokens;
       lines := lines;
       functions := functions;
       classes := classes;
       preview := preview;
       full_content := if tokens <? 1500 then Some content else None
     |}))
    (fun e => MetaError (path_str filepath) (path_name filepath) e).

End ExtractMetadata.

(** [_create_file_summary]: [file_meta.get(k)] is falsy for an empty list
    and for an empty string. *)
Definition _create_file_summary (file_meta : FileInfo) : string :=
  let summary := ("## " ++ name file_meta ++ nl ++ nl)%string in
  let summary := (summary ++ "- Path: " ++ path file_meta ++ nl)%string in
  let summary := (summary ++ "- Lines: " ++ str_int (lines file_meta) ++ nl)%string in
  let summary :=
    (summary ++ "- Size: " ++ str_int (size file_meta) ++ " bytes" ++ nl ++ nl)%string in
  let summary :=
    match functions file_meta with
    | [] => summary
    | _ => (summary ++ "**Functions**: " ++ join ", " (firstn 15 (functions file_meta))
              ++ nl ++ nl)%string
    end in
  let summary :=
    match classes file_meta with
    | [] => summary
    | _ => (summary ++ "**Classes**: " ++ join ", " (firstn 10 (classes file_meta))
              ++ nl ++ nl)%string
    end in
  let summary :=
    match preview file_meta with
    | EmptyString => summary
    | _ => (summary ++ "**Code Preview**:" ++ nl ++ "``````" ++ nl ++ nl)%string
    end in
  summary.

(** The [for] loop of [create_chunks], on the three variables it
    updates. *)
Fixpoint create_chunks_loop (self : SmartChunker) (files_metadata : list FileMeta)
    (chunks : list (list FileMeta)) (current_chunk : list FileMeta) (current_tokens : Z)
  : list (list FileMeta) * list FileMeta * Z :=
  match files_metadata with
  | [] => (chunks, current_chunk, current_tokens)
  | file_meta :: rest =>
      match file_meta with
      | MetaError _ _ _ =>
          create_chunks_loop self rest chunks current_chunk current_tokens
      | Meta info =>
          let summary_tokens := count_tokens self (_create_file_summary info) in
          if max_tokens self <? current_tokens + summary_tokens then
            let chunks :=
              match current_chunk with
              | [] => chunks
              | _ => chunks ++ [current_chunk]
              end in
            create_chunks_loop self rest chunks [file_meta] summary_tokens
          else
            create_chunks_loop self rest chunks (current_chunk ++ [file_meta])
              (current_tokens + summary_tokens)
      end
  end.

Definition create_chunks (self : SmartChunker) (files_metadata : list FileMeta)
  : list (list FileMeta) :=
  let '(chunks, current_chunk, _) := create_chunks_loop self files_metadata [] [] 0 in
  match current_chunk with
  | [] => chunks
  | _ => chunks ++ [current_chunk]
  end.

(** [create_chunks] where the library can raise: the loop counts the
    tokens of the summary of every file without an error, in order, and
    the first summary the tokenizer refuses ends the call with its
    exception. Where none is refused the call returns what
    [create_chunks] computes. *)
Fixpoint first_refused (refused : string -> option string) (files_metadata : list FileMeta)
  : option string :=
  match files_metadata with
  | [] => None
  | MetaError _ _ _ :: rest => first_refused refused rest
  | Meta info :: rest =>
      match refused (_create_file_summary info) with
      | Some e => Some e
      | None => first_refused refused rest
      end
  end.

Definition create_chunks_raising (refused : string -> option string) (self : SmartChunker)
    (files_metadata : list FileMeta) : Exc (list (list FileMeta)) :=
  match first_refused refused files_metadata with
  | Some e => Raise e
  | None => Return (create_chunks self files_metadata)
  end.

(** The two lines of the generation job that chain them:
    [files_metadata = [chunker.extract_metadata(Path(f[path])) for f in files]]
    and [chunks = chunker.create_chunks(files_metadata)]. *)
Definition session_chunks (read_text : Path -> Exc string) (refused : string -> option string)
    (ast_names : string -> option (list string * list string))
    (self : SmartChunker) (paths : list Path) : Exc (list (list FileMeta)) :=
  create_chunks_raising refused self
    (map (extract_metadata read_text refused ast_names self) paths).

(** *** Vocabulary of the specification *)

(** The prompt cost of a summary: the token count of its rendered form. *)
Definition prompt_cost (self : SmartChunker) (file_meta : FileMeta) : Z :=
  match file_meta with
  | Meta info => count_tokens self (_create_file_summary info)
  | MetaError _ _ _ => 0
  end.

Definition batch_cost (self : SmartChunker) (batch : list FileMeta) : Z :=
  fold_right (fun file_meta acc => prompt_cost self file_meta + acc) 0 batch.

Definition without_errors (files_metadata : list FileMeta) : list FileMeta :=
  filter (fun file_meta => negb (has_error file_meta)) files_metadata.

(** What the loop maintains about a batch: it holds no error-flagged
    summary, and with two summaries or more it is within the budget. *)
Definition batch_ok (self : SmartChunker) (batch : list FileMeta) : Prop :=
  Forall (fun file_meta => has_error file_meta = false) batch /\
  ((2 <= List.length batch)%nat -> batch_cost self batch <= max_tokens self).

End Chunker.

(** ** backend/services/task_scheduler.py *)

Module Scheduler.
Import Py.

(** [class AgentStage(Enum)] *)
Inductive AgentStage : Type :=
| ANALYSIS
| API_DOCS
| README
| ARCHITECTURE.

(** [stage.value] *)
Definition stage_value (stage : AgentStage) : string :=
  match stage with
  | ANALYSIS => "analysis"
  | API_DOCS => "api_documentation"
  | README => "readme_creation"
  | ARCHITECTURE => "architecture_docs"
  end.

Definition AgentStage_eq_dec (a b : AgentStage) : {a = b} + {a <> b}.
Proof. decide equality. Defined.

(** A Python [set] of stages: [dep in s] and [s.add(stage)]. *)
Definition StageSet : Type := list AgentStage.

Definition stage_in (stage : AgentStage) (s : StageSet) : bool :=
  if in_dec AgentStage_eq_dec stage s then true else false.

Definition stage_add (stage : AgentStage) (s : StageSet) : StageSet :=
  if stage_in stage s then s else s ++ [stage].

(** The event loop's clock, in milliseconds. [asyncio.sleep(0.1)] is
    [POLL] and the [timeout = 300] seconds of the wait is [TIMEOUT]. *)
Definition time : Type := Z.
Definition POLL : Z := 100.
Definition TIMEOUT : Z := 300000.

(** What a task can raise: the exception of its agent function, or one
    of the two exceptions of [_wait_for_dependencies]. *)
Inductive Failure : Type :=
| OperationFailure (msg : string)
| DependencyFailed (failed_deps : list AgentStage)
| TimeoutFailed (missing : list AgentStage).

(** [str([d.value for d in deps])]: the [repr] of a list of strings. *)
Definition repr_values (deps : list AgentStage) : string :=
  ("[" ++ join ", " (map (fun d => "'" ++ stage_value d ++ "'") deps) ++ "]")%string.

(** [str(e)] *)
Definition failure_str (e : Failure) : string :=
  match e with
  | OperationFailure msg => msg
  | DependencyFailed failed_deps =>
      ("Dependencies failed: " ++ repr_values failed_deps)%string
  | TimeoutFailed missing =>
      ("Timeout (300s) waiting for dependencies: " ++ repr_values missing)%string
  end.

Section WithData.

(** [input_data] and the result of an agent, both dictionaries the
    scheduler only passes around. *)
Context {Payload Result : Type}.

(** The dictionary [self.results], in insertion order. *)
Definition Results : Type := list (AgentStage * Result).

Fixpoint dict_set (d : Results) (stage : AgentStage) (result : Result) : Results :=
  match d with
  | [] => [(stage, result)]
  | (k, v) :: d' =>
      if AgentStage_eq_dec k stage then (k, result) :: d'
      else (k, v) :: dict_set d' stage result
  end.

Fixpoint dict_get (d : Results) (stage : AgentStage) : option Result :=
  match d with
  | [] => None
  | (k, v) :: d' => if AgentStage_eq_dec k stage then Some v else dict_get d' stage
  end.

(** An awaited agent function, seen from the scheduler: after some
    latency it returns a result or raises. Both are functions of the
    arguments of the call. *)
Record Settled : Type := {
  latency : N;
  outcome : Exc Result
}.

(** [@dataclass class AgentTask] *)
Record AgentTask : Type := {
  stage : AgentStage;
  agent_func : Payload -> Results -> Settled;
  dependencies : list AgentStage;
  input_data : Payload;
  priority : Z
}.

(** [asyncio.Semaphore]: the counter and the queue of the tasks
    suspended in [acquire], named by their position in the launch
    order. *)
Record Semaphore : Type := {
  sem_value : nat;
  sem_waiters : list nat
}.

(** [class TaskScheduler] *)
Record TaskScheduler : Type := {
  max_parallel : nat;
  completed_stages : StageSet;
  failed_stages : StageSet;
  results : Results;
  semaphore : Semaphore
}.

(** [TaskScheduler.__init__] *)
Definition TaskScheduler_init (max_parallel : nat) : TaskScheduler :=
  {| max_parallel := max_parallel;
     completed_stages := [];
     failed_stages := [];
     results := [];
     semaphore := {| sem_value := max_parallel; sem_waiters := [] |} |}.

(** *** [_wait_for_dependencies] *)

(** One turn of the [while] loop, from its condition to its [sleep]. *)
Inductive Poll : Type :=
| Satisfied
| Sleep
| Raised (e : Failure).

Definition wait_poll (self : TaskScheduler) (dependencies : list AgentStage)
    (start_time now : time) : Poll :=
  if forallb (fun dep => stage_in dep (completed_stages self)) dependencies
  then Satisfied
  else
    let failed_deps :=
      filter (fun dep => stage_in dep (failed_stages self)) dependencies in
    match failed_deps with
    | _ :: _ => Raised (DependencyFailed failed_deps)
    | [] =>
        let elapsed := now - start_time in
        if TIMEOUT <? elapsed then
          let missing :=
            filter (fun dep => negb (stage_in dep (completed_stages self)))
              dependencies in
          Raised (TimeoutFailed missing)
        else Sleep
    end.

(** The coroutine on its own, against the scheduler as the other tasks
    make it evolve: [view k] is the scheduler at the [k]-th evaluation
    of the loop condition, which happens [k] sleeps after the entry.
    The answer is the number of sleeps and the exception raised, if
    any; [None] when [fuel] turns of the loop do not end the wait. *)
Fixpoint wait_loop (fuel : nat) (view : nat -> TaskScheduler)
    (dependencies : list AgentStage) (start_time : time) (k : nat)
  : option (nat * option Failure) :=
  match fuel with
  | O => None
  | S fuel' =>
      match wait_poll (view k) dependencies start_time
              (start_time + Z.of_nat k * POLL) with
      | Satisfied => Some (k, None)
      | Raised e => Some (k, Some e)
      | Sleep => wait_loop fuel' view dependencies start_time (S k)
      end
  end.

Definition _wait_for_dependencies (fuel : nat) (view : nat -> TaskScheduler)
    (dependencies : list AgentStage) (start_time : time)
  : option (nat * option Failure) :=
  match dependencies with
  | [] => Some (O, None)
  | _ => wait_loop fuel view dependencies start_time O
  end.

(** *** The tasks on the event loop *)

(** Where the coroutine [execute_task] of a task stands. Between two
    of its suspension points a coroutine runs alone, so these are the
    only places where the other tasks can see it. *)
Inductive TaskState : Type :=
| Pending                              (* created by [gather], not started *)
| AtGate                               (* suspended in [semaphore.acquire()] *)
| Granted                             (* handed a slot by [release()], not resumed yet *)
| Waiting (start_time wake : time)     (* in [asyncio.sleep(0.1)] until [wake] *)
| Running (finish : time) (settled : Exc Result)   (* inside [agent_func] *)
| Completed (result : Result)
| Failed (e : Failure).

(** The scheduler object with the event loop around it: the state of
    each task in launch order, the queue of the tasks ready to be
    resumed, and the clock. *)
Record Run : Type := {
  sched : TaskScheduler;
  states : list TaskState;
  ready : list nat;
  now : time
}.

Fixpoint set_nth {A} (i : nat) (x : A) (l : list A) : list A :=
  match l, i with
  | [], _ => []
  | _ :: l', O => x :: l'
  | y :: l', S i' => y :: set_nth i' x l'
  end.

Definition set_state (i : nat) (st : TaskState) (r : Run) : Run :=
  {| sched := sched r; states := set_nth i st (states r);
     ready := ready r; now := now r |}.

Definition set_sched (s : TaskScheduler) (r : Run) : Run :=
  {| sched := s; states := states r; ready := ready r; now := now r |}.

Definition set_semaphore (sem : Semaphore) (s : TaskScheduler) : TaskScheduler :=
  {| max_parallel := max_parallel s;
     completed_stages := completed_stages s;
     failed_stages := failed_stages s;
     results := results s;
     semaphore := sem |}.

(** [semaphore.release()], as of Python 3.11: the slot goes to the
    first waiter, which is scheduled on the loop, and to the counter
    when nobody waits. *)
Definition release (r : Run) : Run :=
  let sem := semaphore (sched r) in
  match sem_waiters sem with
  | w :: ws =>
      {| sched := set_semaphore {| sem_value := sem_value sem; sem_waiters := ws |} (sched r);
         states := set_nth w Granted (states r);
         ready := ready r ++ [w];
         now := now r |}
  | [] =>
      set_sched
        (set_semaphore {| sem_value := S (sem_value sem); sem_waiters := [] |} (sched r)) r
  end.

(** [except Exception as e: self.failed_stages.add(task.stage); raise],
    and the exit of [async with]. *)
Definition fail_task (i : nat) (task : AgentTask) (e : Failure) (r : Run) : Run :=
  let s := sched r in
  release
    (set_state i (Failed e)
       (set_sched
          {| max_parallel := max_parallel s;
             completed_stages := completed_stages s;
             failed_stages := stage_add (stage task) (failed_stages s);
             results := results s;
             semaphore := semaphore s |} r)).

(** [result = await task.agent_func(task.input_data, self.results)],
    up to the suspension inside the agent. The call passes the
    dictionary [self.results] itself, not a copy. The operation is given
    here the dictionary as it is at the call: this is what an operation
    sees that reads its context before its first suspension, as the
    agents of this repository do ([context.get(AgentStage.ANALYSIS, {})]
    at the start of [execute]; the analyst does not read it). An
    operation that reads its context again after a suspension sees
    what the other tasks stored in between; [agent_func] has no value
    for such an operation, and the theorems that depend on what an
    operation returns say on which contexts they assume it. *)
Definition invoke (i : nat) (task : AgentTask) (r : Run) : Run :=
  let settled := agent_func task (input_data task) (results (sched r)) in
  set_state i (Running (now r + Z.of_N (latency settled)) (outcome settled)) r.

(** The agent has settled: store the result and mark the stage, or take
    the [except] branch; either way leave [async with]. *)
Definition settle (i : nat) (task : AgentTask) (settled : Exc Result) (r : Run) : Run :=
  match settled with
  | Return result =>
      let s := sched r in
      release
        (set_state i (Completed result)
           (set_sched
              {| max_parallel := max_parallel s;
                 completed_stages := stage_add (stage task) (completed_stages s);
                 failed_stages := failed_stages s;
                 results := dict_set (results s) (stage task) result;
                 semaphore := semaphore s |} r))
  | Raise msg => fail_task i task (OperationFailure msg) r
  end.

(** One turn of the loop of [_wait_for_dependencies] inside the task. *)
Definition check_dependencies (i : nat) (task : AgentTask) (start_time : time) (r : Run)
  : Run :=
  match wait_poll (sched r) (dependencies task) start_time (now r) with
  | Satisfied => invoke i task r
  | Raised e => fail_task i task e r
  | Sleep => set_state i (Waiting start_time (now r + POLL)) r
  end.

(** [await self._wait_for_dependencies(task.dependencies)], entered
    with the slot in hand. *)
Definition enter_wait (i : nat) (task : AgentTask) (r : Run) : Run :=
  match dependencies task with
  | [] => invoke i task r
  | _ => check_dependencies i task (now r) r
  end.

(** [async with self.semaphore]: take a slot if one is free and nobody
    queues, suspend in the queue otherwise. *)
Definition acquire (i : nat) (task : AgentTask) (r : Run) : Run :=
  let sem := semaphore (sched r) in
  match sem_value sem, sem_waiters sem with
  | S v, [] =>
      enter_wait i task
        (set_sched (set_semaphore {| sem_value := v; sem_waiters := [] |} (sched r)) r)
  | _, _ =>
      set_state i AtGate
        (set_sched
           (set_semaphore
              {| sem_value := sem_value sem; sem_waiters := sem_waiters sem ++ [i] |}
              (sched r)) r)
  end.

(** Run task [i] from where it is suspended to its next suspension. *)
Definition resume (tasks : list AgentTask) (i : nat) (r : Run) : Run :=
  match nth_error tasks i, nth_error (states r) i with
  | Some task, Some st =>
      match st with
      | Pending => acquire i task r
      | Granted => enter_wait i task r
      | Waiting start_time _ => check_dependencies i task start_time r
      | Running _ settled => settle i task settled r
      | AtGate | Completed _ | Failed _ => r
      end
  | _, _ => r
  end.

Definition timer_of (st : TaskState) : option time :=
  match st with
  | Waiting _ wake => Some wake
  | Running finish _ => Some finish
  | _ => None
  end.

(** The earliest timer among the states from position [i] on, with the
    tasks due at it, in launch order. *)
Fixpoint earliest (i : nat) (sts : list TaskState) : option (time * list nat) :=
  match sts with
  | [] => None
  | st :: sts' =>
      let later := earliest (S i) sts' in
      match timer_of st, later with
      | None, _ => later
      | Some t, None => Some (t, [i])
      | Some t, Some (t', due) =>
          match t ?= t' with
          | Lt => Some (t, [i])
          | Eq => Some (t, i :: due)
          | Gt => Some (t', due)
          end
      end
  end.

(** One turn of the event loop: resume the first ready task; with no
    ready task, move the clock to the earliest timer and make the
    tasks due at it ready. [None] when nothing is left to wake. *)
Definition step (tasks : list AgentTask) (r : Run) : option Run :=
  match ready r with
  | i :: rest =>
      Some (resume tasks i
              {| sched := sched r; states := states r; ready := rest; now := now r |})
  | [] =>
      match earliest O (states r) with
      | Some (t, due) =>
          Some {| sched := sched r; states := states r; ready := due; now := t |}
      | None => None
      end
  end.

Definition is_done (st : TaskState) : bool :=
  match st with
  | Completed _ | Failed _ => true
  | _ => false
  end.

(** [await asyncio.gather] with [return_exceptions=True]: turn
    the loop until every task is done. *)
Fixpoint run_until_complete (tasks : list AgentTask) (fuel : nat) (r : Run) : option Run :=
  if forallb is_done (states r) then Some r
  else
    match fuel with
    | O => None
    | S fuel' =>
        match step tasks r with
        | Some r' => run_until_complete tasks fuel' r'
        | None => None
        end
    end.

(** The state after [k] turns of the loop. *)
Fixpoint turns (tasks : list AgentTask) (k : nat) (r : Run) : option Run :=
  match k with
  | O => Some r
  | S k' =>
      match step tasks r with
      | Some r' => turns tasks k' r'
      | None => None
      end
  end.

(** [sorted(tasks, key=lambda t: (len(t.dependencies), -t.priority))]:
    a stable sort on the pairs, compared lexicographically. *)
Definition key_le (a b : AgentTask) : bool :=
  let la := List.length (dependencies a) in
  let lb := List.length (dependencies b) in
  (la <? lb)%nat || ((la =? lb)%nat && (- priority a <=? - priority b)).

Fixpoint insert_task (task : AgentTask) (sorted_tasks : list AgentTask) : list AgentTask :=
  match sorted_tasks with
  | [] => [task]
  | t :: rest =>
      if key_le task t then task :: sorted_tasks
      else t :: insert_task task rest
  end.

Definition sorted (tasks : list AgentTask) : list AgentTask :=
  fold_right insert_task [] tasks.

(** The loop as [gather] leaves it: one coroutine per task, all
    scheduled, in the sorted order. *)
Definition launch (self : TaskScheduler) (sorted_tasks : list AgentTask) (start : time)
  : Run :=
  {| sched := self;
     states := map (fun _ => Pending) sorted_tasks;
     ready := seq 0 (List.length sorted_tasks);
     now := start |}.

(** [failures = [r for r in results if isinstance(r, Exception)]] *)
Definition failures_of (sts : list TaskState) : list Failure :=
  flat_map (fun st => match st with Failed e => [e] | _ => [] end) sts.

(** [schedule_and_execute]: the value returned or the exception
    raised, and the sched object as the call leaves it. [None]
    when [fuel] turns of the loop do not complete the tasks. *)
Definition schedule_and_execute (self : TaskScheduler) (tasks : list AgentTask)
    (start : time) (fuel : nat) : option (Exc Results * TaskScheduler) :=
  let sorted_tasks := sorted tasks in
  match run_until_complete sorted_tasks fuel (launch self sorted_tasks start) with
  | None => None
  | Some r =>
      match failures_of (states r) with
      | e :: _ =>
          Some (Raise ("Task execution failed: " ++ failure_str e)%string, sched r)
      | [] => Some (Return (results (sched r)), sched r)
      end
  end.

(** *** Vocabulary of the specification *)

(** The task is inside its operation. *)
Definition is_running (st : TaskState) : bool :=
  match st with
  | Running _ _ => true
  | _ => false
  end.

(** The task is between the acquisition of a slot and its release. *)
Definition holds_slot (st : TaskState) : bool :=
  match st with
  | Granted | Waiting _ _ | Running _ _ => true
  | _ => false
  end.

(** The operation of the task has been called. *)
Definition invoked (st : TaskState) : bool :=
  match st with
  | Running _ _ | Completed _ | Failed (OperationFailure _) => true
  | _ => false
  end.

Definition count_if (p : TaskState -> bool) (sts : list TaskState) : nat :=
  List.length (filter p sts).

Definition running_count (r : Run) : nat := count_if is_running (states r).

Definition slot_holders (r : Run) : nat := count_if holds_slot (states r).

(** The queue of the semaphore holds, once each, tasks that are
    suspended at the gate. *)
Definition waiters_ok (r : Run) : Prop :=
  NoDup (sem_waiters (semaphore (sched r))) /\
  forall w, In w (sem_waiters (semaphore (sched r))) ->
            nth_error (states r) w = Some AtGate.

(** The free slots of the semaphore plus the slots held. *)
Definition slots (r : Run) : nat :=
  (sem_value (semaphore (sched r)) + slot_holders r)%nat.

(** The accounting of the semaphore: the free slots and the slots held
    add up to the capacity, and the queue is sound. *)
Definition gate_inv (capacity : nat) (r : Run) : Prop :=
  slots r = capacity /\ waiters_ok r.

(** Task [i] is about to run from the state [st], and [c] slots are
    free or held by the other tasks. *)
Definition at_task (r : Run) (i : nat) (st : TaskState) (c : nat) : Prop :=
  waiters_ok r /\ nth_error (states r) i = Some st /\ st <> AtGate /\
  slots r = (c + Nat.b2n (holds_slot st))%nat.

(** The launched tasks resumed in an arbitrary order, one suspension
    point to the next each time: every interleaving the event loop can
    produce is one such order. *)
Definition resume_all (tasks : list AgentTask) (order : list nat) (r : Run) : Run :=
  fold_left (fun r i => resume tasks i r) order r.

(** Every task whose operation has been called has all its
    prerequisites in [completed_stages]. *)
Definition deps_inv (tasks : list AgentTask) (r : Run) : Prop :=
  forall i task st,
    nth_error tasks i = Some task ->
    nth_error (states r) i = Some st ->
    invoked st = true ->
    forall dep, In dep (dependencies task) ->
                stage_in dep (completed_stages (sched r)) = true.

(** A running operation settles the way the agent function said when
    it was called, and a stage is in [completed_stages] only if it was
    there when the run started or it is the stage of a task whose
    operation can return. *)
Definition origin_inv (self0 : TaskScheduler) (tasks : list AgentTask) (r : Run) : Prop :=
  (forall i task finish settled,
      nth_error tasks i = Some task ->
      nth_error (states r) i = Some (Running finish settled) ->
      exists context, settled = outcome (agent_func task (input_data task) context)) /\
  (forall stg,
      stage_in stg (completed_stages (sched r)) = true ->
      stage_in stg (completed_stages self0) = true \/
      exists i task context result,
        nth_error tasks i = Some task /\ stage task = stg /\
        outcome (agent_func task (input_data task) context) = Return result).

(** The shared state of [s] is still in [s']. *)
Definition state_kept (s s' : TaskScheduler) : Prop :=
  (forall stage, stage_in stage (completed_stages s) = true ->
                 stage_in stage (completed_stages s') = true) /\
  (forall stage, stage_in stage (failed_stages s) = true ->
                 stage_in stage (failed_stages s') = true) /\
  (forall stage, dict_get (results s) stage <> None ->
                 dict_get (results s') stage <> None).

End WithData.

Arguments Results : clear implicits.
Arguments Settled : clear implicits.
Arguments AgentTask : clear implicits.
Arguments TaskScheduler : clear implicits.
Arguments TaskState : clear implicits.
Arguments Run : clear implicits.

End Scheduler.

(** ** agents/coordinator.py *)

Module Coordinator.
Import Py Scheduler.

Section WithData.

Context {Payload Result : Type}.

(** The [execute] method of an agent. *)
Definition Agent : Type := Payload -> Results Result -> Settled Result.

Record AgentCoordinator : Type := {
  analyst : Agent;
  api_documenter : Agent;
  readme_creator : Agent;
  scheduler : TaskScheduler Result
}.

(** [AgentCoordinator.__init__], given the three agents it builds. *)
Definition AgentCoordinator_init (analyst api_documenter readme_creator : Agent)
  : AgentCoordinator :=
  {| analyst := analyst;
     api_documenter := api_documenter;
     readme_creator := readme_creator;
     scheduler := TaskScheduler_init 3 |}.

Definition _wrap_agent (agent : Agent) : Agent :=
  fun input_data context => agent input_data context.

(** The list [tasks] of [coordinate]. *)
Definition coordinate_tasks (analyst api_documenter readme_creator : Agent)
    (input_data : Payload) : list (AgentTask Payload Result) :=
  [ {| stage := ANALYSIS;
       agent_func := _wrap_agent analyst;
       dependencies := [];
       input_data := input_data;
       priority := 10 |};
    {| stage := API_DOCS;
       agent_func := _wrap_agent api_documenter;
       dependencies := [ANALYSIS];
       input_data := input_data;
       priority := 5 |};
    {| stage := README;
       agent_func := _wrap_agent readme_creator;
       dependencies := [ANALYSIS];
       input_data := input_data;
       priority := 5 |} ].

Definition coordinate (self : AgentCoordinator) (input_data : Payload)
    (start : time) (fuel : nat) : option (Exc (Results Result) * TaskScheduler Result) :=
  schedule_and_execute (scheduler self)
    (coordinate_tasks (analyst self) (api_documenter self) (readme_creator self) input_data)
    start fuel.

(** *** Vocabulary of the specification *)

(** The scheduler in a run where no stage has completed or failed yet. *)
Definition blank (capacity free : nat) (waiters : list nat) : TaskScheduler Result :=
  {| max_parallel := capacity;
     completed_stages := [];
     failed_stages := [];
     results := [];
     semaphore := {| sem_value := free; sem_waiters := waiters |} |}.

(** The fixed graph while the analysis runs until [finish] and both
    dependents, admitted at [start], sleep until [wake]. *)
Definition both_polling (capacity free : nat) (finish : time) (settled : Exc Result)
    (start wake t : time) : Run Result :=
  {| sched := blank capacity free [];
     states := [Running finish settled; Waiting start wake; Waiting start wake];
     ready := [];
     now := t |}.

(** The same at capacity 2: API_DOCS sleeps and README queues at the
    gate. *)
Definition one_polling (finish : time) (settled : Exc Result) (start wake t : time)
  : Run Result :=
  {| sched := blank 2 0 [2%nat];
     states := [Running finish settled; Waiting start wake; AtGate];
     ready := [];
     now := t |}.

(** How a run on the fixed graph ends when the analysis raised [msg] and
    both dependents saw it in [failed_stages]. *)
Definition analysis_failed (msg : string) (r : Run Result) : Prop :=
  states r = [Failed (OperationFailure msg);
              Failed (DependencyFailed [ANALYSIS]);
              Failed (DependencyFailed [ANALYSIS])] /\
  completed_stages (sched r) = [] /\
  stage_in ANALYSIS (failed_stages (sched r)) = true /\
  stage_in API_DOCS (failed_stages (sched r)) = true /\
  stage_in README (failed_stages (sched r)) = true.

End WithData.

Arguments Agent : clear implicits.
Arguments AgentCoordinator : clear implicits.

End Coordinator.

(** ** Concrete inputs *)

Module ChunkerExamples.
Import Py Chunker.

(** A tokenizer for which every character is a token. *)
Definition char_encoder (text : string) : list Z :=
  map (fun c => Z.of_nat (nat_of_ascii c)) (list_ascii_of_string text).

Definition char_chunker : SmartChunker := SmartChunker_init char_encoder.

Fixpoint letters (n : nat) : string :=
  match n with
  | O => EmptyString
  | S n' => String "a"%char (letters n')
  end.

(** A summary with no declarations and no preview whose name has [n]
    letters: under [char_encoder] its prompt cost is [n + 44] when
    [ident] has two characters. *)
Definition doc (ident : string) (n : Z) : FileMeta :=
  Meta {| path := ident; name := letters (Z.to_nat n); extension := ".py";
          size := 0; tokens := 0; lines := 0;
          functions := []; classes := [];
          preview := EmptyString; full_content := None |}.

Definition s1 : FileMeta := doc "s1" 3956.
Definition s2 : FileMeta := doc "s2" 2956.
Definition s3 : FileMeta := doc "s3" 2456.
Definition s_big : FileMeta := doc "s1" 8956.
Definition s_err : FileMeta := MetaError "uploads/x.bin" "x.bin" "cannot read".

Definition files_mixed : list FileMeta := [s1; s_big; s_err; s2; s3].
Definition files_distinct : list FileMeta := [s1; s_err; s2; s3].

(** A metadata dictionary as [extract_metadata] builds it for a small
    Python file. *)
Definition a_py : FileInfo :=
  {| path := "src/a.py"; name := "a.py"; extension := ".py";
     size := 120; tokens := 30; lines := 7;
     functions := ["f"; "g"]; classes := [];
     preview := "def f(): pass"; full_content := None |}.

Definition a_path : Path :=
  {| path_str := "src/a.py"; path_name := "a.py"; path_suffix := ".py" |}.

Definition gone_path : Path :=
  {| path_str := "src/gone.py"; path_name := "gone.py"; path_suffix := ".py" |}.

Definition eot_path : Path :=
  {| path_str := "src/eot.txt"; path_name := "eot.txt"; path_suffix := ".txt" |}.

(** A file system with the file [src/a.py] and the file [src/eot.txt],
    whose content spells a special token, and a parser that finds the
    function [f] in the first. *)
Definition one_file (filepath : Path) : Exc string :=
  if String.eqb (path_str filepath) "src/a.py"
  then Return "def f(): pass"
  else if String.eqb (path_str filepath) "src/eot.txt"
  then Return "<|endoftext|>"
  else Raise "[Errno 2] No such file or directory".

(** A tokenizer that refuses the texts in which the end-of-text token
    is spelled. *)
Definition special_tokens (content : string) : option string :=
  if contains "<|endoftext|>" content
  then Some "Encountered text corresponding to disallowed special token '<|endoftext|>'."
  else None.

Definition names_of_a_py (content : string) : option (list string * list string) :=
  Some (["f"], []).

End ChunkerExamples.

Module SchedulerExamples.
Import Py Scheduler Coordinator.

(** Agents whose payloads and results are texts: one that answers
    [text] after [ms] milliseconds, one that raises [msg] after [ms]
    milliseconds. *)
Definition agent_ok (ms : N) (text : string) : Agent string string :=
  fun _ _ => {| latency := ms; outcome := Return text |}.

Definition agent_fail (ms : N) (msg : string) : Agent string string :=
  fun _ _ => {| latency := ms; outcome := Raise msg |}.

(** The three tasks of the coordinator with agents that all succeed,
    after 2 s, 1 s and 1.5 s. *)
Definition tasks_ok : list (AgentTask string string) :=
  coordinate_tasks (agent_ok 2000 "overview") (agent_ok 1000 "api")
    (agent_ok 1500 "readme") "project".

(** The same with an analysis that raises after 2 s. *)
Definition tasks_analysis_fails : list (AgentTask string string) :=
  coordinate_tasks (agent_fail 2000 "boom") (agent_ok 1000 "api")
    (agent_ok 1500 "readme") "project".

(** The same with an analysis that raises after 400 s. *)
Definition tasks_analysis_fails_late : list (AgentTask string string) :=
  coordinate_tasks (agent_fail 400000 "boom") (agent_ok 1000 "api")
    (agent_ok 1500 "readme") "project".

(** A scheduler as a task waiting for ANALYSIS and API_DOCS sees it when
    ANALYSIS never settles and API_DOCS fails between the check made
    300.0 s after the entry and the one made 300.1 s after it. *)
Definition view_late_failure (k : nat) : TaskScheduler string :=
  {| max_parallel := 3;
     completed_stages := [];
     failed_stages := if (k <=? 3000)%nat then [] else [API_DOCS];
     results := [];
     semaphore := {| sem_value := 0; sem_waiters := [] |} |}.

(** The scheduler a first run leaves behind when the analysis raised. *)
Definition scheduler_after_failure : TaskScheduler string :=
  {| max_parallel := 3;
     completed_stages := [];
     failed_stages := [ANALYSIS; API_DOCS; README];
     results := [];
     semaphore := {| sem_value := 3; sem_waiters := [] |} |}.

End SchedulerExamples.

(** ** Further vocabulary *)

From Stdlib Require Import Sorted Permutation.

Module ChunkerVocabulary.
Import Py Chunker.

(** [R] holds between every element of a list and the next one. *)
Fixpoint chain {A} (R : A -> A -> Prop) (l : list A) : Prop :=
  match l with
  | a :: (b :: _) as rest => R a b /\ chain R rest
  | _ => True
  end.

(** The batch [batch] could not take the first summary of [next]. *)
Definition closes_before (self : SmartChunker) (batch next : list FileMeta) : Prop :=
  match next with
  | [] => True
  | file_meta :: _ => max_tokens self < batch_cost self batch + prompt_cost self file_meta
  end.


End ChunkerVocabulary.

Module SchedulerVocabulary.
Import Py Scheduler.

Section WithData.

Context {Payload Result : Type}.

(** The order in which [schedule_and_execute] launches two tasks with
    different keys: fewer prerequisites first, then higher priority. *)
Definition launches_before (a b : AgentTask Payload Result) : Prop :=
  (List.length (dependencies a) < List.length (dependencies b))%nat \/
  (List.length (dependencies a) = List.length (dependencies b) /\
   priority b <= priority a).

(** The two tasks have the same sort key. *)
Definition same_key (a b : AgentTask Payload Result) : bool :=
  (List.length (dependencies a) =? List.length (dependencies b))%nat
  && (priority a =? priority b).

(** The semaphore has no free slot and no task is past the gate. *)
Definition all_at_gate (r : Run Result) : Prop :=
  sem_value (semaphore (sched r)) = O /\
  Forall (fun st => st = Pending \/ st = AtGate) (states r).

(** What a task that is done left to [gather]: the value returned or
    the exception raised. *)
Definition final (st : TaskState Result) : option (Result + Failure) :=
  match st with
  | Completed result => Some (inl result)
  | Failed e => Some (inr e)
  | _ => None
  end.

Definition finals (r : Run Result) : list (option (Result + Failure)) :=
  map final (states r).

(** What [execute_task] writes when task [i] ends with [o]: the two
    assignments after the call of the operation, or the one of the
    [except] branch. *)
Definition recorded (task : AgentTask Payload Result) (o : Result + Failure)
    (s s' : TaskScheduler Result) : Prop :=
  match o with
  | inl result =>
      completed_stages s' = stage_add (stage task) (completed_stages s) /\
      results s' = dict_set (results s) (stage task) result /\
      failed_stages s' = failed_stages s
  | inr _ =>
      completed_stages s' = completed_stages s /\
      results s' = results s /\
      failed_stages s' = stage_add (stage task) (failed_stages s)
  end.

(** The trace one atomic section leaves in the shared state: nothing,
    or the end of one task that was not done. *)
Inductive effect (tasks : list (AgentTask Payload Result)) (r r' : Run Result) : Prop :=
| effect_none :
    completed_stages (sched r') = completed_stages (sched r) ->
    results (sched r') = results (sched r) ->
    failed_stages (sched r') = failed_stages (sched r) ->
    finals r' = finals r ->
    effect tasks r r'
| effect_done (i : nat) (task : AgentTask Payload Result) (o : Result + Failure) :
    nth_error tasks i = Some task ->
    nth_error (finals r) i = Some None ->
    finals r' = set_nth i (Some o) (finals r) ->
    recorded task o (sched r) (sched r') ->
    effect tasks r r'.

(** The keys of [results] are the stages of [completed_stages]. *)
Definition agree (s : TaskScheduler Result) : Prop :=
  forall stg, dict_get (results s) stg <> None <->
              stage_in stg (completed_stages s) = true.

(** The shared state accounts for the tasks that are done, and for
    nothing else beyond what [self0] held when the run started. *)
Definition ledger (self0 : TaskScheduler Result) (tasks : list (AgentTask Payload Result))
    (r : Run Result) : Prop :=
  List.length (finals r) = List.length tasks /\
  (forall i task result,
      nth_error tasks i = Some task ->
      nth_error (finals r) i = Some (Some (inl result)) ->
      stage_in (stage task) (completed_stages (sched r)) = true /\
      dict_get (results (sched r)) (stage task) <> None) /\
  (forall i task e,
      nth_error tasks i = Some task ->
      nth_error (finals r) i = Some (Some (inr e)) ->
      stage_in (stage task) (failed_stages (sched r)) = true) /\
  (forall stg,
      stage_in stg (completed_stages (sched r)) = true ->
      stage_in stg (completed_stages self0) = true \/
      exists i task result,
        nth_error tasks i = Some task /\ stage task = stg /\
        nth_error (finals r) i = Some (Some (inl result))) /\
  (forall stg,
      stage_in stg (failed_stages (sched r)) = true ->
      stage_in stg (failed_stages self0) = true \/
      exists i task e,
        nth_error tasks i = Some task /\ stage task = stg /\
        nth_error (finals r) i = Some (Some (inr e))).

(** With one task per stage, [results] holds for each completed task
    the value its operation returned. *)
Definition values_kept (tasks : list (AgentTask Payload Result)) (r : Run Result) : Prop :=
  forall i task result,
    nth_error tasks i = Some task ->
    nth_error (finals r) i = Some (Some (inl result)) ->
    dict_get (results (sched r)) (stage task) = Some result.

(** Every entry of [results] is the one [self0] held when the run
    started, or the value returned by a task of the run with that
    stage. *)
Definition results_from (self0 : TaskScheduler Result)
    (tasks : list (AgentTask Payload Result)) (r : Run Result) : Prop :=
  forall stg,
    dict_get (results (sched r)) stg = dict_get (results self0) stg \/
    exists i task result,
      nth_error tasks i = Some task /\ stage task = stg /\
      nth_error (finals r) i = Some (Some (inl result)) /\
      dict_get (results (sched r)) stg = Some result.

(** Nothing has completed and no operation has been called. *)
Definition nothing_started (r : Run Result) : Prop :=
  completed_stages (sched r) = [] /\
  results (sched r) = [] /\
  Forall (fun st => invoked st = false) (states r).

(** A run of one task that holds a slot and sleeps until [wake] in its
    wait, on a scheduler where nothing has completed or failed. *)
Definition lone_polling (capacity free : nat) (start wake t : time) : Run Result :=
  {| sched := Coordinator.blank capacity free [];
     states := [Waiting start wake];
     ready := [];
     now := t |}.

(** The task can be resumed at time [t]: it has not started, it has
    been handed a slot, or its timer is due. *)
Definition runnable (t : time) (st : TaskState Result) : Prop :=
  match st with
  | Pending | Granted => True
  | Waiting _ wake => wake = t
  | Running finish _ => finish = t
  | AtGate | Completed _ | Failed _ => False
  end.

(** The task waits for the loop to resume it, with no timer and no
    place in the queue of the semaphore. *)
Definition unstarted (st : TaskState Result) : bool :=
  match st with
  | Pending | Granted => true
  | _ => false
  end.

(** The loop is well formed: every task has a state; the tasks ready,
    with those in [cur] that are being resumed, are distinct and can
    be resumed now; a task that is neither in a timer nor in the queue
    of the semaphore nor done is among them; a task suspended at the
    semaphore is in its queue; and tasks queue only when no slot is
    free. *)
Definition live (tasks : list (AgentTask Payload Result)) (cur : list nat)
    (r : Run Result) : Prop :=
  List.length (states r) = List.length tasks /\
  NoDup (cur ++ ready r) /\
  (forall i, In i (cur ++ ready r) ->
             exists st, nth_error (states r) i = Some st /\ runnable (now r) st) /\
  (forall i st, nth_error (states r) i = Some st -> unstarted st = true ->
                In i (cur ++ ready r)) /\
  (forall i, nth_error (states r) i = Some AtGate ->
             In i (sem_waiters (semaphore (sched r)))) /\
  (sem_waiters (semaphore (sched r)) <> [] -> sem_value (semaphore (sched r)) = O).

(** A bound on the times the task can still be resumed: the checks left
    to a task in its wait, before the one that times out, count for one
    each. *)
Definition weight (st : TaskState Result) : nat :=
  match st with
  | Pending => 3005
  | AtGate => 3004
  | Granted => 3003
  | Waiting start_time wake => 2 + Z.to_nat ((start_time + TIMEOUT + POLL - wake) / POLL)
  | Running _ _ => 1
  | Completed _ | Failed _ => 0
  end.

Definition total_weight (r : Run Result) : nat :=
  fold_right (fun st acc => (weight st + acc)%nat) O (states r).

(** A bound on the turns of the loop left: two per resumption, one to
    move the clock and one to resume. *)
Definition turns_left (r : Run Result) : nat :=
  (2 * total_weight r + match ready r with [] => 1 | _ => 0 end)%nat.

(** A task given by its fields. *)
Definition lone_task (stg : AgentStage)
    (operation : Payload -> Results Result -> Settled Result)
    (deps : list AgentStage) (payload : Payload) (rank : Z) : AgentTask Payload Result :=
  {| stage := stg; agent_func := operation; dependencies := deps;
     input_data := payload; priority := rank |}.

(** A scheduler between two runs: every slot is free and nobody queues. *)
Definition at_rest (capacity : nat) (completed failed : StageSet)
    (stored : Results Result) : TaskScheduler Result :=
  {| max_parallel := capacity;
     completed_stages := completed;
     failed_stages := failed;
     results := stored;
     semaphore := {| sem_value := capacity; sem_waiters := [] |} |}.

(** The loop has completed, leaving the scheduler [s] and the tasks in
    the states [sts]. *)
Definition ends_with (s : TaskScheduler Result) (sts : list (TaskState Result))
    (o : option (Run Result)) : Prop :=
  match o with
  | Some r => sched r = s /\ states r = sts
  | None => False
  end.

(** The two dependents of the coordinator's graph in the order in which
    they end when their operations, called together, take [lb] and
    [lc]. *)
Definition dependents (lb lc : N) : list AgentStage :=
  if (lb <=? lc)%N then [API_DOCS; README] else [README; API_DOCS].

Definition dependents_results (lb lc : N) (rb rc : Result) : Results Result :=
  if (lb <=? lc)%N then [(API_DOCS, rb); (README, rc)]
  else [(README, rc); (API_DOCS, rb)].

End WithData.

End SchedulerVocabulary.

Module MoreExamples.
Import Py Scheduler Coordinator SchedulerVocabulary SchedulerExamples.

(** Two tasks that wait for each other. *)
Definition tasks_cycle : list (AgentTask string string) :=
  [ lone_task API_DOCS (agent_ok 1000 "api") [README] "project" 5;
    lone_task README (agent_ok 1500 "readme") [API_DOCS] "project" 5 ].

(** The fixed graph with an analysis that returns and two dependents
    that raise, README before API_DOCS. *)
Definition tasks_dependents_fail : list (AgentTask string string) :=
  coordinate_tasks (agent_ok 2000 "overview") (agent_fail 3000 "api down")
    (agent_fail 1000 "readme down") "project".

(** A scheduler that has been used: it holds an analysis and a result
    for ARCHITECTURE from earlier runs. *)
Definition scheduler_reused : TaskScheduler string :=
  at_rest 3 [ANALYSIS; ARCHITECTURE] []
    [(ANALYSIS, "old overview"); (ARCHITECTURE, "diagram")].

(** An agent that reads the analysis in its context when it is called,
    as [APIDocumenterAgent.execute] and [READMECreatorAgent.execute] do,
    and returns a text made from it after [ms] milliseconds. *)
Definition agent_reading (ms : N) (title : string) (payload : string)
    (context : Results string) : Settled string :=
  {| latency := ms;
     outcome := Return (title ++ match dict_get context ANALYSIS with
                                 | Some analysis => analysis
                                 | None => EmptyString
                                 end)%string |}.

End MoreExamples.

(** ** backend/utils/llm_client.py and agents/base_agent.py *)

Module LLMClient.
Import Py.

(** [SystemMessage(content=...)] and [HumanMessage(content=...)] *)
Inductive Message : Type :=
| SystemMessage (content : string)
| HumanMessage (content : string).

(** What a call of the client does to the world around it, in the
    order in which it happens: [asyncio.sleep] for a number of
    milliseconds, and [self.llm.invoke(messages)]. *)
Inductive Event : Type :=
| Slept (ms : Z)
| Invoked (messages : list Message).

(** [class GroqClient], times in milliseconds. *)
Record GroqClient : Type := {
  last_request_time : Z;
  min_request_interval : Z
}.

(** [GroqClient.__init__] *)
Definition GroqClient_init : GroqClient :=
  {| last_request_time := 0; min_request_interval := 100 |}.

(** The client with the clock [time.time()] reads and the events so
    far, the latest last. A call is followed on its own, from its start
    to its end: what other coroutines do while it is suspended is not
    part of the model, a sleep lasts what was asked for, and the clock
    moves only while the call sleeps or waits for the model. *)
Record World : Type := {
  client : GroqClient;
  clock : Z;
  trace : list Event
}.

(** [[m for Invoked m in trace]] and [[d for Slept d in trace]] *)
Definition invocations (tr : list Event) : list (list Message) :=
  flat_map (fun ev => match ev with Invoked messages => [messages] | Slept _ => [] end) tr.

Definition sleeps (tr : list Event) : list Z :=
  flat_map (fun ev => match ev with Slept ms => [ms] | Invoked _ => [] end) tr.

(** [range(n)] *)
Definition range (n : Z) : list Z := map Z.of_nat (seq 0 (Z.to_nat n)).

Section WithModel.

(** The model behind [self.llm]: what its [k]-th invocation answers on
    [messages], the content of the response or the text of the
    exception, and how long that invocation takes. *)
Variable respond : nat -> list Message -> Exc string.
Variable took : nat -> Z.

(** [await asyncio.sleep(delay)], which returns at once when the delay
    is not positive. *)
Definition sleep (ms : Z) (w : World) : World :=
  {| client := client w;
     clock := clock w + Z.max 0 ms;
     trace := trace w ++ [Slept ms] |}.

(** [await asyncio.to_thread(self.llm.invoke, messages)] *)
Definition invoke (messages : list Message) (w : World) : World * Exc string :=
  let k := List.length (invocations (trace w)) in
  ({| client := client w;
      clock := clock w + took k;
      trace := trace w ++ [Invoked messages] |},
   respond k messages).

(** [GroqClient._rate_limit] *)
Definition _rate_limit (w : World) : World :=
  let current_time := clock w in
  let time_since_last := current_time - last_request_time (client w) in
  let w :=
    if time_since_last <? min_request_interval (client w)
    then sleep (min_request_interval (client w) - time_since_last) w
    else w in
  {| client := {| last_request_time := clock w;
                  min_request_interval := min_request_interval (client w) |};
     clock := clock w;
     trace := trace w |}.

(** The [for] loop of [generate] over the attempts left, with the
    [raise] after it. *)
Fixpoint attempts (todo : list Z) (max_retries : Z) (messages : list Message) (w : World)
  : World * Exc string :=
  match todo with
  | [] => (w, Raise "LLM generation failed")
  | attempt :: todo' =>
      let (w, response) := invoke messages w in
      match response with
      | Return content => (w, Return content)
      | Raise e =>
          if attempt =? max_retries - 1
          then (w, Raise ("LLM call failed after " ++ str_int max_retries
                          ++ " attempts: " ++ e)%string)
          else attempts todo' max_retries messages (sleep (1000 * 2 ^ attempt) w)
      end
  end.

(** The list [messages] of [generate]: [if system_message] is false for
    [None] and for the empty string. *)
Definition build_messages (prompt : string) (system_message : option string)
  : list Message :=
  match system_message with
  | None | Some EmptyString => [HumanMessage prompt]
  | Some content => [SystemMessage content; HumanMessage prompt]
  end.

(** [GroqClient.generate] *)
Definition generate (prompt : string) (system_message : option string)
    (max_retries : Z) (w : World) : World * Exc string :=
  let w := _rate_limit w in
  let messages := build_messages prompt system_message in
  attempts (range max_retries) max_retries messages w.

(** [class BaseAgent] *)
Record BaseAgent : Type := {
  role : string;
  goal : string;
  backstory : string
}.

(** [BaseAgent._create_system_message] *)
Definition _create_system_message (self : BaseAgent) : string :=
  ("You are a " ++ role self ++ "." ++ nl ++ nl
   ++ "Goal: " ++ goal self ++ nl ++ nl
   ++ "Background: " ++ backstory self ++ nl ++ nl
   ++ "Provide clear, professional, and comprehensive responses.")%string.

(** [BaseAgent._generate], with the default [max_retries=3]. *)
Definition _generate (self : BaseAgent) (prompt : string) (w : World)
  : World * Exc string :=
  let system_msg := _create_system_message self in
  generate prompt (Some system_msg) 3 w.

(** [BaseAgent.llm_call] *)
Definition llm_call (self : BaseAgent) (prompt : string) (w : World)
  : World * Exc string :=
  _generate self prompt w.

(** *** Vocabulary *)

(** The invocations [first], [first + 1], ... up to [first + n - 1]
    all raise on [messages]. *)
Definition all_raise (messages : list Message) (first n : nat) : Prop :=
  forall j, (j < n)%nat -> exists e, respond (first + j) messages = Raise e.

(** The events of attempts that raise and are tried again: each is an
    invocation followed by the sleep of 2 to the power of its number,
    in seconds. *)
Definition backoff (messages : list Message) (failed : list Z) : list Event :=
  flat_map (fun attempt => [Invoked messages; Slept (1000 * 2 ^ attempt)]) failed.

End WithModel.

End LLMClient.

(** ** agents/code_analyst.py *)

Module CodeAnalyst.
Import Py Chunker LLMClient.

(** A double quote. *)
Definition dq : string := String (ascii_of_nat 34) EmptyString.

(** [line.startswith(prefix)] *)
Definition startswith (prefix line : string) : bool := String.prefix prefix line.

(** The keys of a metadata dictionary the agent reads, on its two
    shapes: [file_meta['name']], [file_meta['path']],
    [file_meta.get('lines', 0)], [file_meta.get('functions')],
    [file_meta.get('classes')] and [file_meta.get('preview')]. *)
Definition meta_name (file_meta : FileMeta) : string :=
  match file_meta with Meta info => name info | MetaError _ err_name _ => err_name end.

Definition meta_path (file_meta : FileMeta) : string :=
  match file_meta with Meta info => path info | MetaError err_path _ _ => err_path end.

Definition meta_lines (file_meta : FileMeta) : Z :=
  match file_meta with Meta info => lines info | MetaError _ _ _ => 0 end.

Definition meta_functions (file_meta : FileMeta) : list string :=
  match file_meta with Meta info => functions info | MetaError _ _ _ => [] end.

Definition meta_classes (file_meta : FileMeta) : list string :=
  match file_meta with Meta info => classes info | MetaError _ _ _ => [] end.

Definition meta_preview (file_meta : FileMeta) : string :=
  match file_meta with Meta info => preview info | MetaError _ _ _ => EmptyString end.

(** The body of the [for] loop of [_analyze_chunk]. *)
Definition add_file (summary : string) (file_meta : FileMeta) : string :=
  let summary := (summary ++ "### " ++ meta_name file_meta ++ nl)%string in
  let summary := (summary ++ "- Path: " ++ meta_path file_meta ++ nl)%string in
  let summary := (summary ++ "- Lines: " ++ str_int (meta_lines file_meta) ++ nl)%string in
  let summary :=
    match meta_functions file_meta with
    | [] => summary
    | _ => (summary ++ "- Functions: "
              ++ join ", " (firstn 10 (meta_functions file_meta)) ++ nl)%string
    end in
  let summary :=
    match meta_classes file_meta with
    | [] => summary
    | _ => (summary ++ "- Classes: "
              ++ join ", " (firstn 10 (meta_classes file_meta)) ++ nl)%string
    end in
  match meta_preview file_meta with
  | EmptyString => summary
  | _ => (summary ++ nl ++ "**Code Preview:**" ++ nl ++ "``````" ++ nl ++ nl)%string
  end.

(** The [summary] and the [prompt] of [_analyze_chunk]. *)
Definition chunk_summary (chunk : list FileMeta) (chunk_idx : Z) : string :=
  fold_left add_file chunk ("## Chunk " ++ str_int (chunk_idx + 1) ++ nl ++ nl)%string.

Definition chunk_prompt (chunk : list FileMeta) (chunk_idx : Z) : string :=
  ("Analyze this code chunk and provide:" ++ nl
   ++ nl
   ++ chunk_summary chunk chunk_idx ++ nl
   ++ nl
   ++ "Provide a concise analysis including:" ++ nl
   ++ "1. Purpose of these files" ++ nl
   ++ "2. Key components and their responsibilities" ++ nl
   ++ "3. Technologies/frameworks used" ++ nl
   ++ "4. Notable patterns or structures" ++ nl
   ++ nl
   ++ "Keep response under 500 words.")%string.

(** [[f"## Analysis Part {i+1}\n{analysis}" for i, analysis in
    enumerate(chunk_analyses)]], from index [i] on. *)
Fixpoint analysis_parts (i : Z) (chunk_analyses : list string) : list string :=
  match chunk_analyses with
  | [] => []
  | analysis :: rest =>
      ("## Analysis Part " ++ str_int (i + 1) ++ nl ++ analysis)%string
      :: analysis_parts (i + 1) rest
  end.

(** The [prompt] of [_synthesize_architecture]. *)
Definition synthesis_prompt (chunk_analyses : list string) (project_name : string)
  : string :=
  let combined_analysis := join (nl ++ nl) (analysis_parts 0 chunk_analyses) in
  ("Based on these code analyses for " ++ dq ++ project_name ++ dq ++ ":" ++ nl
   ++ nl
   ++ combined_analysis ++ nl
   ++ nl
   ++ "Create a comprehensive architecture document with:" ++ nl
   ++ nl
   ++ "## 1. ARCHITECTURE OVERVIEW" ++ nl
   ++ "High-level description of the system architecture, main components, and how they interact."
   ++ nl
   ++ nl
   ++ "## 2. COMPONENT BREAKDOWN" ++ nl
   ++ "Detailed breakdown of each major component/module, its purpose, and key responsibilities."
   ++ nl
   ++ nl
   ++ "## 3. TECHNOLOGY STACK" ++ nl
   ++ "List of technologies, frameworks, and libraries used with their purposes." ++ nl
   ++ nl
   ++ "## 4. DEPENDENCIES & INTERACTIONS" ++ nl
   ++ "How components interact, data flows, and external dependencies." ++ nl
   ++ nl
   ++ "## 5. DESIGN PATTERNS" ++ nl
   ++ "Architectural and design patterns identified in the codebase." ++ nl
   ++ nl
   ++ "## 6. FILE STRUCTURE" ++ nl
   ++ "Logical organization of files and folders." ++ nl
   ++ nl
   ++ "Format in clear Markdown with proper headers.")%string.

(** The dictionary [_synthesize_architecture] returns, and the one
    [execute] returns. *)
Record Architecture : Type := {
  overview : string;
  components : string;
  arch_tech_stack : string;
  arch_dependencies : string;
  patterns : string;
  structure : string
}.

Record Analysis : Type := {
  architecture_overview : string;
  component_analysis : string;
  dependencies : string;
  tech_stack : string;
  key_patterns : string;
  file_structure : string
}.

(** [input_data], with the two keys the agent reads. *)
Record Input : Type := {
  chunks : list (list FileMeta);
  project_name : string
}.

(** A coroutine that uses the client: it changes the world and returns
    or raises. *)
Definition Coroutine (A : Type) : Type := World -> World * Exc A.

(** [a = await m; ... k a ...], an exception of [m] ending the whole. *)
Definition and_then {A B} (m : Coroutine A) (k : A -> Coroutine B) : Coroutine B :=
  fun w =>
    let (w, r) := m w in
    match r with
    | Return a => k a w
    | Raise msg => (w, Raise msg)
    end.

Definition returning {A} (a : A) : Coroutine A := fun w => (w, Return a).

Section WithModel.

Variable respond : nat -> list Message -> Exc string.
Variable took : nat -> Z.

(** [str.upper] and [str.strip], the library's. *)
Variable upper : string -> string.
Variable strip : string -> string.

(** The [for] loop of [_extract_section], on the two variables it
    updates. *)
Fixpoint extract_loop (header : string) (lines : list string) (capture : bool)
    (section_lines : list string) : list string :=
  match lines with
  | [] => section_lines
  | line :: rest =>
      if contains (upper header) (upper line) then
        extract_loop header rest true section_lines
      else if capture && startswith "##" line then section_lines
      else if capture then extract_loop header rest capture (section_lines ++ [line])
      else extract_loop header rest capture section_lines
  end.

(** [CodeAnalystAgent._extract_section] *)
Definition _extract_section (text header : string) : string :=
  let lines := split_nl text in
  strip (join nl (extract_loop header lines false [])).

(** [CodeAnalystAgent._analyze_chunk] *)
Definition _analyze_chunk (self : BaseAgent) (chunk : list FileMeta) (chunk_idx : Z)
  : Coroutine string :=
  _generate respond took self (chunk_prompt chunk chunk_idx).

(** [CodeAnalystAgent._synthesize_architecture] *)
Definition _synthesize_architecture (self : BaseAgent) (chunk_analyses : list string)
    (project_name : string) : Coroutine Architecture :=
  and_then (_generate respond took self (synthesis_prompt chunk_analyses project_name))
    (fun architecture_doc =>
       returning
         {| overview := _extract_section architecture_doc "ARCHITECTURE OVERVIEW";
            components := _extract_section architecture_doc "COMPONENT BREAKDOWN";
            arch_tech_stack := _extract_section architecture_doc "TECHNOLOGY STACK";
            arch_dependencies := _extract_section architecture_doc "DEPENDENCIES";
            patterns := _extract_section architecture_doc "DESIGN PATTERNS";
            structure := _extract_section architecture_doc "FILE STRUCTURE" |}).

(** The first [for] loop of [execute], from chunk [i] on. *)
Fixpoint analyze_chunks (self : BaseAgent) (todo : list (list FileMeta)) (i : Z)
    (chunk_analyses : list string) : Coroutine (list string) :=
  match todo with
  | [] => returning chunk_analyses
  | chunk :: rest =>
      and_then (_analyze_chunk self chunk i)
        (fun analysis => analyze_chunks self rest (i + 1) (chunk_analyses ++ [analysis]))
  end.

(** [CodeAnalystAgent.execute]; the agent does not read its context. *)
Definition execute {Context : Type} (self : BaseAgent) (input_data : Input)
    (context : Context) : Coroutine Analysis :=
  and_then (analyze_chunks self (chunks input_data) 0 [])
    (fun chunk_analyses =>
       and_then (_synthesize_architecture self chunk_analyses (project_name input_data))
         (fun architecture =>
            returning
              {| architecture_overview := overview architecture;
                 component_analysis := components architecture;
                 dependencies := arch_dependencies architecture;
                 tech_stack := arch_tech_stack architecture;
                 key_patterns := patterns architecture;
                 file_structure := structure architecture |})).

(** *** Vocabulary *)

(** The line names the header, whatever the case. *)
Definition names_header (header line : string) : bool :=
  contains (upper header) (upper line).

(** What the agent shows of a file: everything but its texts. *)
Definition shown (file_meta : FileMeta)
  : string * string * Z * list string * list string * bool :=
  (meta_name file_meta, meta_path file_meta, meta_lines file_meta,
   firstn 10 (meta_functions file_meta), firstn 10 (meta_classes file_meta),
   match meta_preview file_meta with EmptyString => false | _ => true end).

(** The prompts for the chunks [todo], numbered from [i]. *)
Fixpoint chunk_prompts (todo : list (list FileMeta)) (i : Z) : list string :=
  match todo with
  | [] => []
  | chunk :: rest => chunk_prompt chunk i :: chunk_prompts rest (i + 1)
  end.

(** The messages an agent sends for a prompt. *)
Definition agent_messages (self : BaseAgent) (prompt : string) : list Message :=
  [SystemMessage (_create_system_message self); HumanMessage prompt].

(** The model never raises. *)
Definition reliable : Prop :=
  forall k messages, exists content, respond k messages = Return content.

(** What the model answers on the chunks [todo], numbered from [i],
    when it is asked once about each, from its invocation [k] on. *)
Fixpoint answers (self : BaseAgent) (todo : list (list FileMeta)) (i : Z) (k : nat)
  : list string :=
  match todo with
  | [] => []
  | chunk :: rest =>
      match respond k (agent_messages self (chunk_prompt chunk i)) with
      | Return analysis => analysis :: answers self rest (i + 1) (S k)
      | Raise _ => []
      end
  end.

End WithModel.

End CodeAnalyst.

(** ** Concrete models and agents *)

Module LLMExamples.
Import Py Chunker LLMClient CodeAnalyst.

(** A model that raises on its first two invocations and answers from
    the third on, one that always raises, and one that always answers
    with a short architecture document. *)
Definition busy_twice (k : nat) (messages : list Message) : Exc string :=
  if (k <? 2)%nat then Raise "busy" else Return "done".

Definition down (k : nat) (messages : list Message) : Exc string := Raise "down".

Definition architecture_doc : string :=
  ("## 1. ARCHITECTURE OVERVIEW" ++ nl ++ "A web service." ++ nl
   ++ "## 2. COMPONENT BREAKDOWN" ++ nl ++ "Routes and agents.")%string.

(** A document whose section on dependencies names its own header in
    one of its lines. *)
Definition dependencies_doc : string :=
  ("# Notes" ++ nl ++ "## 4. DEPENDENCIES" ++ nl ++ "fastapi" ++ nl
   ++ "External DEPENDENCIES: groq, tiktoken." ++ nl
   ++ "## 5. DESIGN PATTERNS" ++ nl ++ "None.")%string.

Definition steady_model (k : nat) (messages : list Message) : Exc string :=
  Return architecture_doc.

(** Every invocation takes half a second. *)
Definition half_second (k : nat) : Z := 500.

(** A new client at time 0, with nothing done yet. *)
Definition new_world : World :=
  {| client := GroqClient_init; clock := 0; trace := [] |}.

Definition tester : BaseAgent :=
  {| role := "Tester"; goal := "Test the code"; backstory := "Ten years of tests" |}.

(** Two metadata dictionaries for the same file, with different texts. *)
Definition a_py_other_text : FileInfo :=
  {| path := "src/a.py"; name := "a.py"; extension := ".txt";
     size := 9000; tokens := 2000; lines := 7;
     functions := ["f"; "g"]; classes := [];
     preview := "import os"; full_content := Some "import os" |}.

Definition one_chunk : Input :=
  {| chunks := [[Meta ChunkerExamples.a_py]]; project_name := "demo" |}.

(** A library that leaves texts as they are, in place of [upper] and
    [strip], for texts in upper case without spaces around. *)
Definition unchanged (s : string) : string := s.

End LLMExamples.

(** * Properties *)

(** ** The batch partitioner *)

Module ChunkerProofs.
Import Py Chunker.

Lemma count_tokens_nonneg self text : 0 <= count_tokens self text.
Proof. unfold count_tokens. apply Nat2Z.is_nonneg. Qed.

Lemma prompt_cost_nonneg self file_meta : 0 <= prompt_cost self file_meta.
Proof.
  destruct file_meta; simpl; [apply count_tokens_nonneg | reflexivity].
Qed.

Lemma batch_cost_nonneg self batch : 0 <= batch_cost self batch.
Proof.
  induction batch as [|f batch IH]; simpl; [reflexivity|].
  pose proof (prompt_cost_nonneg self f). lia.
Qed.

Lemma batch_cost_app self b1 b2 :
  batch_cost self (b1 ++ b2) = batch_cost self b1 + batch_cost self b2.
Proof.
  induction b1 as [|f b1 IH]; simpl; [reflexivity|]. rewrite IH. lia.
Qed.

Lemma prompt_cost_le_batch self batch file_meta :
  In file_meta batch -> prompt_cost self file_meta <= batch_cost self batch.
Proof.
  induction batch as [|f batch IH]; simpl; [contradiction|].
  intros [->|Hin].
  - pose proof (batch_cost_nonneg self batch). lia.
  - specialize (IH Hin). pose proof (prompt_cost_nonneg self f). lia.
Qed.

Lemma batch_ok_single self info : batch_ok self [Meta info].
Proof.
  split; [repeat constructor | simpl; lia].
Qed.

Lemma batch_ok_snoc self batch info :
  batch_ok self batch ->
  batch_cost self batch + prompt_cost self (Meta info) <= max_tokens self ->
  batch_ok self (batch ++ [Meta info]).
Proof.
  intros [Herr _] Hfit. split.
  - apply Forall_app. split; [assumption | repeat constructor].
  - intros _. rewrite batch_cost_app. simpl in *. lia.
Qed.

(** The invariant of the [for] loop, with what it has consumed so far:
    the closed batches followed by the open one are the summaries read,
    in order, the error-flagged ones left out. *)
Lemma create_chunks_loop_inv self files :
  forall chunks current_chunk current_tokens,
    current_tokens = batch_cost self current_chunk ->
    Forall (fun batch => batch <> [] /\ batch_ok self batch) chunks ->
    batch_ok self current_chunk ->
    forall chunks' current_chunk' current_tokens',
      create_chunks_loop self files chunks current_chunk current_tokens
      = (chunks', current_chunk', current_tokens') ->
      current_tokens' = batch_cost self current_chunk' /\
      Forall (fun batch => batch <> [] /\ batch_ok self batch) chunks' /\
      batch_ok self current_chunk' /\
      List.concat chunks' ++ current_chunk'
      = List.concat chunks ++ current_chunk ++ without_errors files.
Proof.
  induction files as [|file_meta rest IH];
    intros chunks cur tok Htok Hchunks Hcur chunks' cur' tok' Hrun.
  - simpl in Hrun. inversion Hrun; subst. simpl. rewrite app_nil_r. auto.
  - simpl in Hrun. destruct file_meta as [info|p n e].
    + simpl without_errors.
      destruct (max_tokens self <? tok + count_tokens self (_create_file_summary info))
        eqn:Hover.
      * apply IH in Hrun.
        -- destruct Hrun as (H1 & H2 & H3 & H4). do 3 (split; [assumption|]).
           rewrite H4. destruct cur as [|f cur].
           ++ reflexivity.
           ++ rewrite concat_app. simpl. rewrite app_nil_r, <- !app_assoc. reflexivity.
        -- simpl. lia.
        -- destruct cur as [|f cur]; [assumption|].
           apply Forall_app. split; [assumption|].
           constructor; [|constructor]. split; [discriminate | assumption].
        -- apply batch_ok_single.
      * apply Z.ltb_ge in Hover. apply IH in Hrun.
        -- destruct Hrun as (H1 & H2 & H3 & H4). do 3 (split; [assumption|]).
           rewrite H4, <- !app_assoc. reflexivity.
        -- rewrite batch_cost_app. simpl. lia.
        -- assumption.
        -- apply batch_ok_snoc; [assumption|]. simpl. lia.
    + simpl without_errors. apply IH in Hrun; assumption.
Qed.

(** The same facts for the value [create_chunks] returns. *)
Lemma create_chunks_inv self files :
  Forall (fun batch => batch <> [] /\ batch_ok self batch) (create_chunks self files) /\
  List.concat (create_chunks self files) = without_errors files.
Proof.
  unfold create_chunks.
  destruct (create_chunks_loop self files [] [] 0) as [[chunks cur] tok] eqn:Hrun.
  apply create_chunks_loop_inv in Hrun.
  - destruct Hrun as (_ & Hchunks & Hcur & Hcat). simpl in Hcat.
    destruct cur as [|f cur].
    + rewrite app_nil_r in Hcat. auto.
    + split.
      * apply Forall_app. split; [assumption|].
        constructor; [|constructor]. split; [discriminate | assumption].
      * rewrite concat_app. simpl. rewrite app_nil_r. assumption.
  - reflexivity.
  - constructor.
  - split; [constructor | simpl; lia].
Qed.

(** Error-flagged summaries take no part in the loop. *)
Lemma create_chunks_loop_skips_errors self files :
  forall chunks current_chunk current_tokens,
    create_chunks_loop self (without_errors files) chunks current_chunk current_tokens
    = create_chunks_loop self files chunks current_chunk current_tokens.
Proof.
  induction files as [|file_meta rest IH]; intros chunks cur tok; [reflexivity|].
  destruct file_meta as [info|p n e]; simpl.
  - destruct (max_tokens self <? tok + count_tokens self (_create_file_summary info));
      apply IH.
  - apply IH.
Qed.

Lemma NoDup_concat_nth {A} (batches : list (list A)) :
  NoDup (List.concat batches) ->
  forall x i j,
    In x (nth i batches []) -> In x (nth j batches []) -> i = j.
Proof.
  induction batches as [|b batches IH]; intros Hnd x i j Hi Hj.
  - destruct i; contradiction.
  - simpl in Hnd.
    assert (Hsplit : forall k, In x (nth (S k) (b :: batches) []) -> In x (List.concat batches)).
    { intros k Hk. simpl in Hk.
      destruct (Nat.lt_ge_cases k (List.length batches)) as [Hlt|Hge].
      - apply in_concat. exists (nth k batches []). split; [apply nth_In|]; assumption.
      - rewrite nth_overflow in Hk by assumption. contradiction. }
    assert (Hdisj : In x b -> In x (List.concat batches) -> False).
    { clear -Hnd. induction b as [|y b IHb]; simpl in *; [contradiction|].
      inversion Hnd as [|? ? Hnotin Hnd']; subst.
      intros [->|Hb] Hc.
      - apply Hnotin, in_or_app. right. assumption.
      - apply (IHb Hnd' Hb Hc). }
    destruct i as [|i], j as [|j].
    + reflexivity.
    + exfalso. apply Hdisj; [exact Hi | apply (Hsplit j Hj)].
    + exfalso. apply Hdisj; [exact Hj | apply (Hsplit i Hi)].
    + f_equal. apply (IH (NoDup_app_remove_l _ _ Hnd) x); assumption.
Qed.

Lemma batch_ok_oversized self batch file_meta :
  batch_ok self batch -> In file_meta batch ->
  max_tokens self < prompt_cost self file_meta ->
  batch = [file_meta].
Proof.
  intros [_ Hfit] Hin Hbig.
  pose proof (prompt_cost_le_batch self batch file_meta Hin) as Hle.
  destruct batch as [|f [|g batch]].
  - contradiction.
  - destruct Hin as [->|[]]. reflexivity.
  - exfalso. assert (batch_cost self (f :: g :: batch) <= max_tokens self).
    { apply Hfit. simpl. lia. }
    lia.
Qed.

Lemma in_without_errors files file_meta :
  In file_meta (without_errors files) <->
  In file_meta files /\ has_error file_meta = false.
Proof.
  unfold without_errors. rewrite filter_In.
  destruct (has_error file_meta); simpl; intuition congruence.
Qed.

(** C3. For every sequence of summaries and every positive budget, an
    output batch with two summaries or more has a total prompt cost of
    at most the budget; a summary whose own prompt cost exceeds the
    budget is in the output, as a batch of its own, and in no other
    kind of batch; so a batch over the budget is a singleton. *)
Theorem C3_budget_except_singletons (self : SmartChunker) (files : list FileMeta) :
  0 < max_tokens self ->
  let batches := create_chunks self files in
  (forall batch, In batch batches -> (2 <= List.length batch)%nat ->
                 batch_cost self batch <= max_tokens self) /\
  (forall file_meta, In file_meta files -> has_error file_meta = false ->
                     max_tokens self < prompt_cost self file_meta ->
                     In [file_meta] batches /\
                     forall batch, In batch batches -> In file_meta batch ->
                                   batch = [file_meta]) /\
  (forall batch, In batch batches -> max_tokens self < batch_cost self batch ->
                 exists file_meta, batch = [file_meta]).
Proof.
  intros Hbudget batches.
  destruct (create_chunks_inv self files) as [Hok Hcat]. fold batches in Hok, Hcat.
  rewrite Forall_forall in Hok.
  split; [|split].
  - intros batch Hin. apply (Hok batch Hin).
  - intros file_meta Hin Herr Hbig.
    assert (Hall : forall batch, In batch batches -> In file_meta batch ->
                                 batch = [file_meta]).
    { intros batch Hb Hf. apply (batch_ok_oversized self); [apply (Hok batch Hb) | |];
        assumption. }
    split; [|exact Hall].
    assert (Hc : In file_meta (List.concat batches)).
    { rewrite Hcat. apply in_without_errors. auto. }
    apply in_concat in Hc. destruct Hc as (batch & Hb & Hf).
    rewrite <- (Hall batch Hb Hf). assumption.
  - intros batch Hin Hbig. destruct (Hok batch Hin) as [Hne [_ Hfit]].
    destruct batch as [|f [|g batch]].
    + congruence.
    + exists f. reflexivity.
    + exfalso. assert (batch_cost self (f :: g :: batch) <= max_tokens self).
      { apply Hfit. simpl. lia. }
      lia.
Qed.

Lemma C3_budget_except_singletons_witness :
  0 < max_tokens ChunkerExamples.char_chunker /\
  let files := ChunkerExamples.files_mixed in
  let batches := create_chunks ChunkerExamples.char_chunker files in
  (forall batch, In batch batches -> (2 <= List.length batch)%nat ->
                 batch_cost ChunkerExamples.char_chunker batch
                 <= max_tokens ChunkerExamples.char_chunker) /\
  (forall file_meta, In file_meta files -> has_error file_meta = false ->
                     max_tokens ChunkerExamples.char_chunker
                     < prompt_cost ChunkerExamples.char_chunker file_meta ->
                     In [file_meta] batches /\
                     forall batch, In batch batches -> In file_meta batch ->
                                   batch = [file_meta]) /\
  (forall batch, In batch batches ->
                 max_tokens ChunkerExamples.char_chunker
                 < batch_cost ChunkerExamples.char_chunker batch ->
                 exists file_meta, batch = [file_meta]).
Proof.
  split; [reflexivity|].
  apply (C3_budget_except_singletons ChunkerExamples.char_chunker).
  reflexivity.
Defined.

(** C4. For every non-empty sequence of summaries and budget of at least
    1: the output batches, concatenated, are the input with the
    error-flagged summaries removed, so batches follow the input order;
    no batch is empty; an error-flagged summary is in no batch, and the
    output is the one obtained without it in the input; and where the
    input has no repeated summary, a summary without error is in exactly
    one batch. *)
Theorem C4_batches_partition_input (self : SmartChunker) (files : list FileMeta) :
  files <> [] -> 1 <= max_tokens self ->
  let batches := create_chunks self files in
  List.concat batches = without_errors files /\
  (forall batch, In batch batches -> batch <> []) /\
  (forall file_meta, has_error file_meta = true ->
                     forall batch, In batch batches -> ~ In file_meta batch) /\
  create_chunks self (without_errors files) = batches /\
  (NoDup files ->
   forall file_meta, In file_meta files -> has_error file_meta = false ->
     exists i, (i < List.length batches)%nat /\ In file_meta (nth i batches []) /\
               forall j, In file_meta (nth j batches []) -> j = i).
Proof.
  intros _ _ batches.
  destruct (create_chunks_inv self files) as [Hok Hcat]. fold batches in Hok, Hcat.
  rewrite Forall_forall in Hok.
  split; [exact Hcat|]. split; [|split; [|split]].
  - intros batch Hin. apply (Hok batch Hin).
  - intros file_meta Herr batch Hin Hf.
    destruct (Hok batch Hin) as [_ [Hnoerr _]]. rewrite Forall_forall in Hnoerr.
    specialize (Hnoerr file_meta Hf). congruence.
  - unfold batches, create_chunks. rewrite create_chunks_loop_skips_errors. reflexivity.
  - intros Hnd file_meta Hin Herr.
    assert (Hc : In file_meta (List.concat batches)).
    { rewrite Hcat. apply in_without_errors. auto. }
    apply in_concat in Hc. destruct Hc as (batch & Hb & Hf).
    destruct (In_nth _ _ [] Hb) as (i & Hi & Hnth).
    exists i. split; [exact Hi|]. split; [rewrite Hnth; exact Hf|].
    intros j Hj. apply (NoDup_concat_nth batches) with (x := file_meta).
    + rewrite Hcat. unfold without_errors. apply NoDup_filter. exact Hnd.
    + exact Hj.
    + rewrite Hnth. exact Hf.
Qed.

Lemma C4_batches_partition_input_witness :
  let files := ChunkerExamples.files_distinct in
  let self := ChunkerExamples.char_chunker in
  files <> [] /\ 1 <= max_tokens self /\
  let batches := create_chunks self files in
  List.concat batches = without_errors files /\
  (forall batch, In batch batches -> batch <> []) /\
  (forall file_meta, has_error file_meta = true ->
                     forall batch, In batch batches -> ~ In file_meta batch) /\
  create_chunks self (without_errors files) = batches /\
  (NoDup files ->
   forall file_meta, In file_meta files -> has_error file_meta = false ->
     exists i, (i < List.length batches)%nat /\ In file_meta (nth i batches []) /\
               forall j, In file_meta (nth j batches []) -> j = i).
Proof.
  intros files self.
  split; [discriminate|]. split; [discriminate|].
  apply (C4_batches_partition_input self files); discriminate.
Defined.

(** The run of [create_chunks] on three summaries of which the first two
    do not fit together and the last two do. *)
Lemma create_chunks_split_after_first self i1 i2 i3 :
  prompt_cost self (Meta i1) <= max_tokens self ->
  max_tokens self < prompt_cost self (Meta i1) + prompt_cost self (Meta i2) ->
  prompt_cost self (Meta i2) + prompt_cost self (Meta i3) <= max_tokens self ->
  create_chunks self [Meta i1; Meta i2; Meta i3] = [[Meta i1]; [Meta i2; Meta i3]].
Proof.
  simpl prompt_cost. intros H1 H12 H23.
  unfold create_chunks. simpl.
  repeat match goal with
         | |- context [?a <? ?b] => destruct (Z.ltb_spec a b); try lia
         end.
  reflexivity.
Qed.

Lemma create_chunks_single self i1 : create_chunks self [Meta i1] = [[Meta i1]].
Proof.
  unfold create_chunks. simpl.
  destruct (max_tokens self <? count_tokens self (_create_file_summary i1));
    reflexivity.
Qed.

(** C5, as amended. With a budget of 6000, three summaries of prompt
    costs 4000, 3000 and 2500 are batched as [[s1], [s2, s3]]: the second
    does not fit after the first (7000 > 6000) and the third fits after
    the second (5500 <= 6000). A single summary of prompt cost 9000 is
    returned as the one batch [[s1]]. *)
Theorem C5_concrete_scenarios (self : SmartChunker) (i1 i2 i3 i_big : FileInfo) :
  max_tokens self = 6000 ->
  prompt_cost self (Meta i1) = 4000 ->
  prompt_cost self (Meta i2) = 3000 ->
  prompt_cost self (Meta i3) = 2500 ->
  prompt_cost self (Meta i_big) = 9000 ->
  create_chunks self [Meta i1; Meta i2; Meta i3] = [[Meta i1]; [Meta i2; Meta i3]] /\
  create_chunks self [Meta i_big] = [[Meta i_big]].
Proof.
  intros Hmax H1 H2 H3 _. split.
  - apply create_chunks_split_after_first; lia.
  - apply create_chunks_single.
Qed.

Lemma example_costs :
  max_tokens ChunkerExamples.char_chunker = 6000 /\
  prompt_cost ChunkerExamples.char_chunker ChunkerExamples.s1 = 4000 /\
  prompt_cost ChunkerExamples.char_chunker ChunkerExamples.s2 = 3000 /\
  prompt_cost ChunkerExamples.char_chunker ChunkerExamples.s3 = 2500 /\
  prompt_cost ChunkerExamples.char_chunker ChunkerExamples.s_big = 9000.
Proof. repeat split; vm_compute; reflexivity. Qed.

Lemma C5_concrete_scenarios_witness :
  let self := ChunkerExamples.char_chunker in
  max_tokens self = 6000 /\
  prompt_cost self ChunkerExamples.s1 = 4000 /\
  prompt_cost self ChunkerExamples.s2 = 3000 /\
  prompt_cost self ChunkerExamples.s3 = 2500 /\
  prompt_cost self ChunkerExamples.s_big = 9000 /\
  create_chunks self [ChunkerExamples.s1; ChunkerExamples.s2; ChunkerExamples.s3]
  = [[ChunkerExamples.s1]; [ChunkerExamples.s2; ChunkerExamples.s3]] /\
  create_chunks self [ChunkerExamples.s_big] = [[ChunkerExamples.s_big]].
Proof.
  intros self.
  assert (Hmax : max_tokens self = 6000) by reflexivity.
  assert (H1 : prompt_cost self ChunkerExamples.s1 = 4000) by (vm_compute; reflexivity).
  assert (H2 : prompt_cost self ChunkerExamples.s2 = 3000) by (vm_compute; reflexivity).
  assert (H3 : prompt_cost self ChunkerExamples.s3 = 2500) by (vm_compute; reflexivity).
  assert (H4 : prompt_cost self ChunkerExamples.s_big = 9000) by (vm_compute; reflexivity).
  do 5 (split; [assumption|]).
  exact (C5_concrete_scenarios self _ _ _ _ Hmax H1 H2 H3 H4).
Defined.

(** C5 as the specification states it fails: on summaries of prompt
    costs 4000, 3000 and 2500 and the budget 6000 the result is not
    [[s1, s2], [s3]]. *)
Lemma C5_counterexample :
  let self := ChunkerExamples.char_chunker in
  max_tokens self = 6000 /\
  prompt_cost self ChunkerExamples.s1 = 4000 /\
  prompt_cost self ChunkerExamples.s2 = 3000 /\
  prompt_cost self ChunkerExamples.s3 = 2500 /\
  create_chunks self [ChunkerExamples.s1; ChunkerExamples.s2; ChunkerExamples.s3]
  <> [[ChunkerExamples.s1; ChunkerExamples.s2]; [ChunkerExamples.s3]].
Proof.
  intros self. subst self. set (self := ChunkerExamples.char_chunker).
  destruct example_costs as (Hmax & H1 & H2 & H3 & _). fold self in Hmax, H1, H2, H3.
  do 4 (split; [assumption|]).
  unfold ChunkerExamples.s1, ChunkerExamples.s2, ChunkerExamples.s3, ChunkerExamples.doc.
  rewrite create_chunks_split_after_first.
  - intros Heq. inversion Heq.
  - change (prompt_cost self ChunkerExamples.s1 <= max_tokens self).
    rewrite H1, Hmax. discriminate.
  - change (max_tokens self
            < prompt_cost self ChunkerExamples.s1 + prompt_cost self ChunkerExamples.s2).
    rewrite H1, H2, Hmax. reflexivity.
  - change (prompt_cost self ChunkerExamples.s2 + prompt_cost self ChunkerExamples.s3
            <= max_tokens self).
    rewrite H2, H3, Hmax. discriminate.
Qed.

(** The rendered form does not depend on what the preview says, only on
    whether there is one. *)
Lemma create_file_summary_ignores_preview_text (file_meta : FileInfo) (other : string) :
  preview file_meta <> EmptyString -> other <> EmptyString ->
  _create_file_summary
    {| path := path file_meta; name := name file_meta;
       extension := extension file_meta; size := size file_meta;
       tokens := tokens file_meta; lines := lines file_meta;
       functions := functions file_meta; classes := classes file_meta;
       preview := other; full_content := full_content file_meta |}
  = _create_file_summary file_meta.
Proof.
  intros Hp Ho. unfold _create_file_summary. simpl.
  destruct (preview file_meta); [congruence|].
  destruct other; [congruence|]. reflexivity.
Qed.

(** The declaration lists of the rendered form are cut at 15 functions
    and 10 classes: longer lists render as their prefixes do. *)
Lemma create_file_summary_truncates_lists (file_meta : FileInfo) :
  _create_file_summary
    {| path := path file_meta; name := name file_meta;
       extension := extension file_meta; size := size file_meta;
       tokens := tokens file_meta; lines := lines file_meta;
       functions := firstn 15 (functions file_meta);
       classes := firstn 10 (classes file_meta);
       preview := preview file_meta; full_content := full_content file_meta |}
  = _create_file_summary file_meta.
Proof.
  unfold _create_file_summary. cbn [path name lines size functions classes preview].
  rewrite !firstn_firstn.
  change (Nat.min 15 15) with 15%nat. change (Nat.min 10 10) with 10%nat.
  destruct (functions file_meta), (classes file_meta); reflexivity.
Qed.

(** C8, on the code. The cost [create_chunks] batches by is the token
    count of the rendered form, and that form carries the labels and the
    truncated declaration lists; of the preview it carries the label and
    an empty code fence only. For the metadata of [src/a.py], whose
    preview is [def f(): pass], the rendered form is the text below: the
    preview text is not in it. *)
Theorem C8_summary_at_failing_input :
  preview ChunkerExamples.a_py = "def f(): pass" /\
  _create_file_summary ChunkerExamples.a_py =
    ("## a.py" ++ nl ++ nl
     ++ "- Path: src/a.py" ++ nl
     ++ "- Lines: 7" ++ nl
     ++ "- Size: 120 bytes" ++ nl ++ nl
     ++ "**Functions**: f, g" ++ nl ++ nl
     ++ "**Code Preview**:" ++ nl ++ "``````" ++ nl ++ nl)%string /\
  contains (preview ChunkerExamples.a_py) (_create_file_summary ChunkerExamples.a_py)
  = false /\
  prompt_cost ChunkerExamples.char_chunker (Meta ChunkerExamples.a_py)
  = count_tokens ChunkerExamples.char_chunker
      (_create_file_summary ChunkerExamples.a_py).
Proof. repeat split. Qed.

(** C10. Whatever the file system and the tokenizer answer,
    [extract_metadata] returns a dictionary. When the read raises, and
    when the read returns but the tokenizer raises on the content, it
    is the dictionary with the keys path, name and error, the last
    being the message of the exception. Otherwise it has no error key,
    its tokens, lines and size fields are non-negative, and its
    full_content field is the content when the token count is below
    1500 and None when it is not. *)
Theorem C10_extract_metadata_total
    (read_text : Path -> Exc string)
    (refused : string -> option string)
    (ast_names : string -> option (list string * list string))
    (self : SmartChunker) (filepath : Path) :
  match read_text filepath with
  | Raise e =>
      extract_metadata read_text refused ast_names self filepath
      = MetaError (path_str filepath) (path_name filepath) e
  | Return content =>
      match refused content with
      | Some e =>
          extract_metadata read_text refused ast_names self filepath
          = MetaError (path_str filepath) (path_name filepath) e
      | None =>
          exists info,
            extract_metadata read_text refused ast_names self filepath = Meta info /\
            has_error (Meta info) = false /\
            path info = path_str filepath /\ name info = path_name filepath /\
            tokens info = count_tokens self content /\
            0 <= tokens info /\ 0 <= lines info /\ 0 <= size info /\
            (tokens info < 1500 -> full_content info = Some content) /\
            (1500 <= tokens info -> full_content info = None)
      end
  end.
Proof.
  unfold extract_metadata, count_tokens_in_try.
  destruct (read_text filepath) as [content|e]; simpl; [|reflexivity].
  destruct (refused content) as [e|]; simpl; [reflexivity|].
  destruct (if (path_suffix filepath =? ".py")%string
            then match ast_names content with Some names => names | None => ([], []) end
            else ([], [])) as [functions classes].
  simpl. eexists. split; [reflexivity|]. simpl.
  pose proof (count_tokens_nonneg self content) as Htok.
  repeat split; try lia; try apply Nat2Z.is_nonneg.
  - intros Hlt. apply Z.ltb_lt in Hlt. rewrite Hlt. reflexivity.
  - intros Hge. apply Z.ltb_ge in Hge. rewrite Hge. reflexivity.
Qed.

(** The three branches on a file system with two files, one of which
    spells a special token of the tokenizer. *)
Example extract_metadata_one_file :
  extract_metadata ChunkerExamples.one_file ChunkerExamples.special_tokens
    ChunkerExamples.names_of_a_py ChunkerExamples.char_chunker ChunkerExamples.a_path
  = Meta {| path := "src/a.py"; name := "a.py"; extension := ".py";
            size := 13; tokens := 13; lines := 1;
            functions := ["f"]; classes := [];
            preview := "def f(): pass"; full_content := Some "def f(): pass" |} /\
  extract_metadata ChunkerExamples.one_file ChunkerExamples.special_tokens
    ChunkerExamples.names_of_a_py ChunkerExamples.char_chunker ChunkerExamples.gone_path
  = MetaError "src/gone.py" "gone.py" "[Errno 2] No such file or directory" /\
  extract_metadata ChunkerExamples.one_file ChunkerExamples.special_tokens
    ChunkerExamples.names_of_a_py ChunkerExamples.char_chunker ChunkerExamples.eot_path
  = MetaError "src/eot.txt" "eot.txt"
      "Encountered text corresponding to disallowed special token '<|endoftext|>'.".
Proof. repeat split; reflexivity. Qed.

End ChunkerProofs.

(** ** The scheduler *)

Module SchedulerProofs.
Import Py Scheduler Coordinator.

(** *** Lists updated in place *)

Lemma nth_error_set_nth_eq {A} i (x y : A) l :
  nth_error l i = Some y -> nth_error (set_nth i x l) i = Some x.
Proof.
  revert i. induction l as [|z l IH]; intros [|i]; simpl; try discriminate; auto.
Qed.

Lemma nth_error_set_nth_neq {A} i j (x : A) l :
  i <> j -> nth_error (set_nth i x l) j = nth_error l j.
Proof.
  revert i j. induction l as [|z l IH]; intros [|i] [|j] Hij; simpl; auto.
  congruence.
Qed.

Section WithData.

Context {Payload Result : Type}.

Implicit Types (r : Run Result) (st : TaskState Result).
Implicit Types (task : AgentTask Payload Result) (tasks : list (AgentTask Payload Result)).

Lemma count_if_set_nth (p : TaskState Result -> bool) i x y l :
  nth_error l i = Some y ->
  (count_if p (set_nth i x l) + Nat.b2n (p y) = count_if p l + Nat.b2n (p x))%nat.
Proof.
  unfold count_if. revert i.
  induction l as [|z l IH]; intros [|i] Hi; simpl in *; try discriminate.
  - inversion Hi; subst. destruct (p x), (p y); simpl; lia.
  - specialize (IH i Hi). destruct (p z); simpl; lia.
Qed.

Lemma running_le_holders r : (running_count r <= slot_holders r)%nat.
Proof.
  unfold running_count, slot_holders, count_if.
  induction (states r) as [|st sts IH]; simpl; [lia|].
  destruct st; simpl; lia.
Qed.

(** *** The accounting of the semaphore *)

Lemma release_gate r :
  waiters_ok r -> gate_inv (S (slots r)) (release r).
Proof.
  intros [Hnd Hw]. unfold release, gate_inv, slots, slot_holders, waiters_ok.
  destruct (sem_waiters (semaphore (sched r))) as [|w ws] eqn:Hq; simpl.
  - split; [lia|]. split; [constructor | intros w []].
  - inversion Hnd as [|? ? Hnotin Hnd']; subst.
    assert (Hstate : nth_error (states r) w = Some AtGate) by (apply Hw; left; reflexivity).
    pose proof (count_if_set_nth holds_slot w Granted AtGate (states r) Hstate) as Hc.
    simpl in Hc. split; [lia|]. split; [assumption|].
    intros w' Hin. rewrite nth_error_set_nth_neq.
    + apply Hw. right. assumption.
    + intros ->. contradiction.
Qed.

Lemma set_state_at_task r i st c st' :
  at_task r i st c ->
  waiters_ok (set_state i st' r) /\
  slots (set_state i st' r) = (c + Nat.b2n (holds_slot st'))%nat.
Proof.
  intros ([Hnd Hw] & Hst & Hne & Hslots). unfold waiters_ok, slots, slot_holders in *.
  simpl. split; [split; [assumption|]|].
  - intros w Hin. rewrite nth_error_set_nth_neq; [apply Hw; assumption|].
    intros ->. apply Hw in Hin. congruence.
  - pose proof (count_if_set_nth holds_slot i st' st (states r) Hst). lia.
Qed.

Lemma invoke_gate r i task st c :
  at_task r i st c -> gate_inv (S c) (invoke i task r).
Proof.
  intros H. unfold invoke.
  destruct (set_state_at_task r i st c
              (Running (now r + Z.of_N (latency (agent_func task (input_data task)
                                                   (results (sched r)))))
                 (outcome (agent_func task (input_data task) (results (sched r))))) H)
    as [Hw Hs].
  split; [|assumption]. rewrite Hs. simpl. lia.
Qed.

Lemma fail_task_gate r i task e st c :
  at_task r i st c -> gate_inv (S c) (fail_task i task e r).
Proof.
  intros H. unfold fail_task.
  match goal with |- gate_inv _ (release (set_state _ _ ?r1)) =>
    assert (H1 : at_task r1 i st c) by exact H
  end.
  destruct (set_state_at_task _ i st c (Failed e) H1) as [Hw Hs].
  simpl in Hs. rewrite Nat.add_0_r in Hs. rewrite <- Hs at 1.
  apply release_gate. assumption.
Qed.

Lemma settle_gate r i task settled st c :
  at_task r i st c -> gate_inv (S c) (settle i task settled r).
Proof.
  intros H. destruct settled as [result|msg]; simpl.
  - match goal with |- gate_inv _ (release (set_state _ _ ?r1)) =>
      assert (H1 : at_task r1 i st c) by exact H
    end.
    destruct (set_state_at_task _ i st c (Completed result) H1) as [Hw Hs].
    simpl in Hs. rewrite Nat.add_0_r in Hs. rewrite <- Hs at 1.
    apply release_gate. assumption.
  - apply (fail_task_gate r i task _ st c H).
Qed.

Lemma check_dependencies_gate r i task start_time st c :
  at_task r i st c -> gate_inv (S c) (check_dependencies i task start_time r).
Proof.
  intros H. unfold check_dependencies.
  destruct (wait_poll (sched r) (dependencies task) start_time (now r)).
  - apply (invoke_gate r i task st c H).
  - destruct (set_state_at_task r i st c (Waiting start_time (now r + POLL)) H)
      as [Hw Hs].
    split; [|assumption]. rewrite Hs. simpl. lia.
  - apply (fail_task_gate r i task _ st c H).
Qed.

Lemma enter_wait_gate r i task st c :
  at_task r i st c -> gate_inv (S c) (enter_wait i task r).
Proof.
  intros H. unfold enter_wait. destruct (dependencies task).
  - apply (invoke_gate r i task st c H).
  - apply (check_dependencies_gate r i task _ st c H).
Qed.

Lemma enqueue_gate r i capacity :
  gate_inv capacity r -> nth_error (states r) i = Some Pending ->
  gate_inv capacity
    (set_state i AtGate
       (set_sched
          (set_semaphore
             {| sem_value := sem_value (semaphore (sched r));
                sem_waiters := sem_waiters (semaphore (sched r)) ++ [i] |}
             (sched r)) r)).
Proof.
  intros [Hslots [Hnd Hw]] Hst.
  unfold gate_inv, waiters_ok, slots, slot_holders in *. simpl.
  pose proof (count_if_set_nth holds_slot i AtGate Pending (states r) Hst) as Hc.
  simpl in Hc. split; [lia|]. split.
  - apply NoDup_app; [assumption | repeat constructor; intros [] |].
    intros w Hin [<-|[]]. apply Hw in Hin. congruence.
  - intros w Hin. destruct (Nat.eq_dec i w) as [<-|Hne].
    + apply nth_error_set_nth_eq with (y := Pending). assumption.
    + rewrite nth_error_set_nth_neq by assumption.
      apply in_app_or in Hin. destruct Hin as [Hin|[Heq|[]]]; [|congruence].
      apply Hw. assumption.
Qed.

Lemma acquire_gate r i task capacity :
  gate_inv capacity r -> nth_error (states r) i = Some Pending ->
  gate_inv capacity (acquire i task r).
Proof.
  intros Hinv Hst. unfold acquire.
  destruct (sem_value (semaphore (sched r))) as [|v] eqn:Hv.
  - rewrite <- Hv. apply enqueue_gate; assumption.
  - destruct (sem_waiters (semaphore (sched r))) as [|w ws] eqn:Hq.
    + destruct Hinv as [Hslots Hw].
      destruct capacity as [|c].
      { unfold slots in Hslots. rewrite Hv in Hslots. discriminate. }
      apply enter_wait_gate with (st := Pending).
      unfold at_task, waiters_ok, slots, slot_holders in *. simpl.
      rewrite Hq in Hw. rewrite Hv in Hslots.
      split; [exact Hw|]. split; [exact Hst|]. split; [discriminate|]. lia.
    + rewrite <- Hv, <- Hq. apply enqueue_gate; assumption.
Qed.

Lemma resume_gate tasks r i capacity :
  gate_inv capacity r -> gate_inv capacity (resume tasks i r).
Proof.
  intros Hinv. unfold resume.
  destruct (nth_error tasks i) as [task|]; [|assumption].
  destruct (nth_error (states r) i) as [st|] eqn:Hst; [|assumption].
  destruct Hinv as [Hslots Hw].
  assert (Hheld : holds_slot st = true -> exists c, capacity = S c /\ at_task r i st c).
  { intros Hh. destruct capacity as [|c].
    - exfalso. unfold slots, slot_holders in Hslots.
      pose proof (count_if_set_nth holds_slot i st st (states r) Hst) as _.
      assert (0 < count_if holds_slot (states r))%nat; [|lia].
      clear -Hst Hh. unfold count_if. revert i Hst.
      induction (states r) as [|z l IH]; intros [|i] Hi; simpl in *; try discriminate.
      + inversion Hi; subst. rewrite Hh. simpl. lia.
      + specialize (IH i Hi). destruct (holds_slot z); simpl; lia.
    - exists c. split; [reflexivity|]. unfold at_task.
      split; [exact Hw|]. split; [exact Hst|]. split.
      + intros ->. discriminate.
      + rewrite Hh. simpl. lia. }
  destruct st; try (split; assumption).
  - apply acquire_gate; [split; assumption | assumption].
  - destruct (Hheld eq_refl) as (c & -> & Hat). apply (enter_wait_gate r i task _ c Hat).
  - destruct (Hheld eq_refl) as (c & -> & Hat).
    apply (check_dependencies_gate r i task _ _ c Hat).
  - destruct (Hheld eq_refl) as (c & -> & Hat). apply (settle_gate r i task _ _ c Hat).
Qed.

Lemma step_gate tasks r r' capacity :
  gate_inv capacity r -> step tasks r = Some r' -> gate_inv capacity r'.
Proof.
  intros Hinv Hstep. unfold step in Hstep.
  destruct (ready r) as [|i rest].
  - destruct (earliest 0 (states r)) as [[t due]|]; [|discriminate].
    inversion Hstep; subst. exact Hinv.
  - inversion Hstep; subst. apply resume_gate. exact Hinv.
Qed.

Lemma turns_gate tasks k : forall r r' capacity,
  gate_inv capacity r -> turns tasks k r = Some r' -> gate_inv capacity r'.
Proof.
  induction k as [|k IH]; intros r r' capacity Hinv Hturns; simpl in Hturns.
  - inversion Hturns; subst. exact Hinv.
  - destruct (step tasks r) as [r1|] eqn:Hstep; [|discriminate].
    apply (IH r1 r' capacity); [|exact Hturns].
    apply (step_gate tasks r r1 capacity Hinv Hstep).
Qed.

Lemma count_if_all_pending (p : TaskState Result -> bool) (tasks : list (AgentTask Payload Result)) :
  p Pending = false -> count_if p (map (fun _ => Pending) tasks) = O.
Proof.
  intros Hp. unfold count_if. induction tasks as [|t tasks IH]; simpl; [reflexivity|].
  rewrite Hp. exact IH.
Qed.

Lemma launch_gate (self : TaskScheduler Result) tasks start :
  sem_waiters (semaphore self) = [] ->
  gate_inv (sem_value (semaphore self)) (launch self tasks start).
Proof.
  intros Hq. unfold gate_inv, waiters_ok, slots, slot_holders, launch. simpl.
  rewrite count_if_all_pending by reflexivity. rewrite Hq.
  split; [lia|]. split; [constructor | intros w []].
Qed.

Lemma resume_all_gate tasks order : forall r capacity,
  gate_inv capacity r -> gate_inv capacity (resume_all tasks order r).
Proof.
  induction order as [|i order IH]; intros r capacity Hinv; simpl; [exact Hinv|].
  apply IH. apply resume_gate. exact Hinv.
Qed.

Lemma gate_inv_bound r capacity :
  gate_inv capacity r -> (running_count r <= capacity)%nat.
Proof.
  intros [Hslots _]. pose proof (running_le_holders r). unfold slots in Hslots. lia.
Qed.

(** C6. A scheduler built with capacity N never has more than N tasks
    inside their operation: this holds after any number of turns of
    the event loop of a run, and more generally in whatever order the
    launched tasks are resumed. The slot is taken before the wait for
    the prerequisites, so the bound covers the waiting tasks too. *)
Theorem C6_concurrency_bound (capacity : nat) tasks (start : time) :
  (forall k r,
      turns tasks k (launch (TaskScheduler_init capacity) tasks start) = Some r ->
      (running_count r <= capacity)%nat /\ (slot_holders r <= capacity)%nat) /\
  (forall order,
      let r := resume_all tasks order (launch (TaskScheduler_init capacity) tasks start) in
      (running_count r <= capacity)%nat /\ (slot_holders r <= capacity)%nat).
Proof.
  assert (Hinit : gate_inv capacity (launch (TaskScheduler_init capacity) tasks start)).
  { apply (launch_gate (TaskScheduler_init capacity)). reflexivity. }
  split.
  - intros k r Hturns.
    pose proof (turns_gate tasks k _ _ _ Hinit Hturns) as Hinv.
    split; [apply gate_inv_bound; exact Hinv|].
    destruct Hinv as [Hslots _]. unfold slots in Hslots. lia.
  - intros order r.
    pose proof (resume_all_gate tasks order _ _ Hinit) as Hinv. fold r in Hinv.
    split; [apply gate_inv_bound; exact Hinv|].
    destruct Hinv as [Hslots _]. unfold slots in Hslots. lia.
Qed.

(** *** The shared sets only grow *)

Ltac same_sets := solve [repeat split; simpl; auto].

Lemma stage_in_iff stage (s : StageSet) : stage_in stage s = true <-> In stage s.
Proof.
  unfold stage_in. destruct (in_dec AgentStage_eq_dec stage s); split; auto; discriminate.
Qed.

Lemma stage_in_add stage x (s : StageSet) :
  stage_in stage (stage_add x s) = true <-> stage = x \/ stage_in stage s = true.
Proof.
  unfold stage_add. destruct (stage_in x s) eqn:Hx.
  - split; [auto|]. intros [->|H]; assumption.
  - rewrite !stage_in_iff, in_app_iff. simpl. intuition congruence.
Qed.

Lemma dict_get_set (d : Results Result) k v stage :
  dict_get (dict_set d k v) stage
  = if AgentStage_eq_dec k stage then Some v else dict_get d stage.
Proof.
  induction d as [|[k' v'] d IH]; simpl.
  - reflexivity.
  - destruct (AgentStage_eq_dec k' k) as [->|Hne]; simpl.
    + destruct (AgentStage_eq_dec k stage); reflexivity.
    + destruct (AgentStage_eq_dec k' stage) as [->|Hne'].
      * destruct (AgentStage_eq_dec k stage); [congruence | reflexivity].
      * exact IH.
Qed.

Lemma state_kept_refl (s : TaskScheduler Result) : state_kept s s.
Proof. repeat split; auto. Qed.

Lemma state_kept_trans (s1 s2 s3 : TaskScheduler Result) :
  state_kept s1 s2 -> state_kept s2 s3 -> state_kept s1 s3.
Proof.
  intros (A1 & B1 & C1) (A2 & B2 & C2). repeat split; auto.
Qed.

Lemma release_kept r : state_kept (sched r) (sched (release r)).
Proof.
  unfold release. destruct (sem_waiters (semaphore (sched r))); same_sets.
Qed.

Lemma fail_task_kept r i task e : state_kept (sched r) (sched (fail_task i task e r)).
Proof.
  unfold fail_task. eapply state_kept_trans; [|apply release_kept]. simpl.
  repeat split; simpl; auto. intros stage H. apply stage_in_add. auto.
Qed.

Lemma settle_kept r i task settled : state_kept (sched r) (sched (settle i task settled r)).
Proof.
  destruct settled as [result|msg]; simpl; [|apply fail_task_kept].
  eapply state_kept_trans; [|apply release_kept]. simpl.
  repeat split; simpl; auto.
  - intros stg H. apply stage_in_add. auto.
  - intros stg H. rewrite dict_get_set.
    destruct (AgentStage_eq_dec (stage task) stg); [discriminate | exact H].
Qed.

Lemma check_dependencies_kept r i task start_time :
  state_kept (sched r) (sched (check_dependencies i task start_time r)).
Proof.
  unfold check_dependencies.
  destruct (wait_poll (sched r) (dependencies task) start_time (now r));
    [same_sets | same_sets | apply fail_task_kept].
Qed.

Lemma enter_wait_kept r i task : state_kept (sched r) (sched (enter_wait i task r)).
Proof.
  unfold enter_wait. destruct (dependencies task);
    [same_sets | apply check_dependencies_kept].
Qed.

Lemma acquire_kept r i task : state_kept (sched r) (sched (acquire i task r)).
Proof.
  unfold acquire.
  destruct (sem_value (semaphore (sched r))); [same_sets|].
  destruct (sem_waiters (semaphore (sched r))); [|same_sets].
  eapply state_kept_trans; [|apply enter_wait_kept]. same_sets.
Qed.

Lemma resume_kept tasks r i : state_kept (sched r) (sched (resume tasks i r)).
Proof.
  unfold resume.
  destruct (nth_error tasks i) as [task|]; [|same_sets].
  destruct (nth_error (states r) i) as [[]|]; try same_sets.
  - apply acquire_kept.
  - apply enter_wait_kept.
  - apply check_dependencies_kept.
  - apply settle_kept.
Qed.

Lemma step_kept tasks r r' : step tasks r = Some r' -> state_kept (sched r) (sched r').
Proof.
  unfold step. destruct (ready r) as [|i rest].
  - destruct (earliest 0 (states r)) as [[t due]|]; [|discriminate].
    intros H. inversion H; subst. apply state_kept_refl.
  - intros H. inversion H; subst.
    apply (resume_kept tasks
             {| sched := sched r; states := states r; ready := rest; now := now r |} i).
Qed.

Lemma turns_kept tasks k : forall r r',
  turns tasks k r = Some r' -> state_kept (sched r) (sched r').
Proof.
  induction k as [|k IH]; intros r r' H; simpl in H.
  - inversion H; subst. apply state_kept_refl.
  - destruct (step tasks r) as [r1|] eqn:Hstep; [|discriminate].
    eapply state_kept_trans; [apply (step_kept _ _ _ Hstep) | apply (IH _ _ H)].
Qed.

Lemma run_until_complete_turns tasks fuel : forall r r',
  run_until_complete tasks fuel r = Some r' ->
  exists k, turns tasks k r = Some r' /\ forallb is_done (states r') = true.
Proof.
  induction fuel as [|fuel IH]; intros r r' H; simpl in H.
  - destruct (forallb is_done (states r)) eqn:Hd; [|discriminate].
    inversion H; subst. exists O. split; [reflexivity | exact Hd].
  - destruct (forallb is_done (states r)) eqn:Hd.
    + inversion H; subst. exists O. split; [reflexivity | exact Hd].
    + destruct (step tasks r) as [r1|] eqn:Hstep; [|discriminate].
      destruct (IH _ _ H) as (k & Hk & Hdone).
      exists (S k). simpl. rewrite Hstep. split; assumption.
Qed.

(** *** Operations start after their prerequisites *)

Lemma nth_error_set_nth_same {A} i (x y : A) l :
  nth_error (set_nth i x l) i = Some y -> y = x.
Proof.
  revert i. induction l as [|z l IH]; intros [|i]; simpl; try discriminate.
  - congruence.
  - apply IH.
Qed.

Lemma deps_inv_step tasks r r' i st' :
  deps_inv tasks r ->
  states r' = set_nth i st' (states r) ->
  (forall dep, stage_in dep (completed_stages (sched r)) = true ->
               stage_in dep (completed_stages (sched r')) = true) ->
  (invoked st' = true ->
   forall task, nth_error tasks i = Some task ->
                forall dep, In dep (dependencies task) ->
                            stage_in dep (completed_stages (sched r')) = true) ->
  deps_inv tasks r'.
Proof.
  intros Hinv Hstates Hmono Hnew j task st Htask Hst Hinvoked dep Hdep.
  rewrite Hstates in Hst. destruct (Nat.eq_dec i j) as [->|Hne].
  - apply nth_error_set_nth_same in Hst. subst st.
    apply (Hnew Hinvoked task Htask dep Hdep).
  - rewrite nth_error_set_nth_neq in Hst by assumption.
    apply Hmono. apply (Hinv j task st Htask Hst Hinvoked dep Hdep).
Qed.

Lemma release_deps tasks r : deps_inv tasks r -> deps_inv tasks (release r).
Proof.
  intros Hinv. unfold release.
  destruct (sem_waiters (semaphore (sched r))) as [|w ws].
  - exact Hinv.
  - apply (deps_inv_step tasks r _ w Granted Hinv); simpl; auto. discriminate.
Qed.

Lemma invoke_deps tasks r i task :
  deps_inv tasks r -> nth_error tasks i = Some task ->
  (forall dep, In dep (dependencies task) ->
               stage_in dep (completed_stages (sched r)) = true) ->
  deps_inv tasks (invoke i task r).
Proof.
  intros Hinv Htask Hok. unfold invoke.
  eapply (deps_inv_step tasks r _ i); [exact Hinv | reflexivity | auto |].
  simpl. intros _ task' Htask'. rewrite Htask in Htask'. inversion Htask'; subst. exact Hok.
Qed.

Lemma fail_task_deps tasks r i task e :
  deps_inv tasks r -> nth_error tasks i = Some task ->
  (invoked (@Failed Result e) = true ->
   forall dep, In dep (dependencies task) ->
               stage_in dep (completed_stages (sched r)) = true) ->
  deps_inv tasks (fail_task i task e r).
Proof.
  intros Hinv Htask Hok. unfold fail_task. apply release_deps.
  eapply (deps_inv_step tasks r _ i); [exact Hinv | reflexivity | auto |].
  simpl. intros He task' Htask'. rewrite Htask in Htask'. inversion Htask'; subst.
  apply Hok. exact He.
Qed.

Lemma settle_deps tasks r i task settled :
  deps_inv tasks r -> nth_error tasks i = Some task ->
  (forall dep, In dep (dependencies task) ->
               stage_in dep (completed_stages (sched r)) = true) ->
  deps_inv tasks (settle i task settled r).
Proof.
  intros Hinv Htask Hok. destruct settled as [result|msg]; simpl.
  - apply release_deps.
    eapply (deps_inv_step tasks r _ i); [exact Hinv | reflexivity | |].
    + simpl. intros dep H. apply stage_in_add. auto.
    + simpl. intros _ task' Htask' dep Hdep.
      rewrite Htask in Htask'. inversion Htask'; subst.
      apply stage_in_add. right. apply Hok. exact Hdep.
  - apply fail_task_deps; auto.
Qed.

Lemma wait_poll_satisfied (s : TaskScheduler Result) deps start_time t :
  wait_poll s deps start_time t = Satisfied ->
  forall dep, In dep deps -> stage_in dep (completed_stages s) = true.
Proof.
  unfold wait_poll.
  destruct (forallb (fun dep => stage_in dep (completed_stages s)) deps) eqn:Hall.
  - intros _. rewrite forallb_forall in Hall. exact Hall.
  - destruct (filter _ deps); [|discriminate].
    destruct (TIMEOUT <? t - start_time); discriminate.
Qed.

Lemma wait_poll_raised (s : TaskScheduler Result) deps start_time t e :
  wait_poll s deps start_time t = Raised e -> invoked (@Failed Result e) = false.
Proof.
  unfold wait_poll.
  destruct (forallb (fun dep => stage_in dep (completed_stages s)) deps);
    [discriminate|].
  destruct (filter _ deps).
  - destruct (TIMEOUT <? t - start_time); [|discriminate].
    intros H. inversion H. reflexivity.
  - intros H. inversion H. reflexivity.
Qed.

Lemma check_dependencies_deps tasks r i task start_time :
  deps_inv tasks r -> nth_error tasks i = Some task ->
  deps_inv tasks (check_dependencies i task start_time r).
Proof.
  intros Hinv Htask. unfold check_dependencies.
  destruct (wait_poll (sched r) (dependencies task) start_time (now r)) eqn:Hpoll.
  - apply invoke_deps; auto. apply (wait_poll_satisfied _ _ _ _ Hpoll).
  - eapply (deps_inv_step tasks r _ i); [exact Hinv | reflexivity | auto |].
    discriminate.
  - apply fail_task_deps; auto.
    rewrite (wait_poll_raised _ _ _ _ _ Hpoll). discriminate.
Qed.

Lemma enter_wait_deps tasks r i task :
  deps_inv tasks r -> nth_error tasks i = Some task ->
  deps_inv tasks (enter_wait i task r).
Proof.
  intros Hinv Htask. unfold enter_wait.
  destruct (dependencies task) as [|d ds] eqn:Hdeps.
  - apply invoke_deps; auto. rewrite Hdeps. intros dep [].
  - apply check_dependencies_deps; auto.
Qed.

Lemma acquire_deps tasks r i task :
  deps_inv tasks r -> nth_error tasks i = Some task ->
  deps_inv tasks (acquire i task r).
Proof.
  intros Hinv Htask. unfold acquire.
  assert (Hqueue : forall sem,
             deps_inv tasks (set_state i AtGate (set_sched (set_semaphore sem (sched r)) r))).
  { intros sem. eapply (deps_inv_step tasks r _ i); [exact Hinv | reflexivity | auto |].
    discriminate. }
  destruct (sem_value (semaphore (sched r))); [apply Hqueue|].
  destruct (sem_waiters (semaphore (sched r))); [|apply Hqueue].
  apply enter_wait_deps; auto.
Qed.

Lemma resume_deps tasks r i : deps_inv tasks r -> deps_inv tasks (resume tasks i r).
Proof.
  intros Hinv. unfold resume.
  destruct (nth_error tasks i) as [task|] eqn:Htask; [|exact Hinv].
  destruct (nth_error (states r) i) as [st|] eqn:Hst; [|exact Hinv].
  destruct st; try exact Hinv.
  - apply acquire_deps; auto.
  - apply enter_wait_deps; auto.
  - apply check_dependencies_deps; auto.
  - apply settle_deps; auto.
    intros dep Hdep. apply (Hinv i task _ Htask Hst eq_refl dep Hdep).
Qed.

Lemma step_deps tasks r r' : deps_inv tasks r -> step tasks r = Some r' -> deps_inv tasks r'.
Proof.
  intros Hinv. unfold step. destruct (ready r) as [|i rest].
  - destruct (earliest 0 (states r)) as [[t due]|]; [|discriminate].
    intros H. inversion H; subst. exact Hinv.
  - intros H. inversion H; subst. apply resume_deps. exact Hinv.
Qed.

Lemma turns_deps tasks k : forall r r',
  deps_inv tasks r -> turns tasks k r = Some r' -> deps_inv tasks r'.
Proof.
  induction k as [|k IH]; intros r r' Hinv H; simpl in H.
  - inversion H; subst. exact Hinv.
  - destruct (step tasks r) as [r1|] eqn:Hstep; [|discriminate].
    apply (IH r1 r'); [|exact H]. apply (step_deps _ _ _ Hinv Hstep).
Qed.

Lemma launch_deps (self : TaskScheduler Result) tasks start :
  deps_inv tasks (launch self tasks start).
Proof.
  intros i task st _ Hst Hinvoked. exfalso. simpl in Hst.
  apply nth_error_In in Hst. apply in_map_iff in Hst.
  destruct Hst as (t & <- & _). discriminate.
Qed.

(** *** Where completed stages come from *)

Lemma origin_inv_step self0 tasks r r' i st' :
  origin_inv self0 tasks r ->
  states r' = set_nth i st' (states r) ->
  (forall stg, stage_in stg (completed_stages (sched r')) = true ->
               stage_in stg (completed_stages (sched r)) = true \/
               exists task context result,
                 nth_error tasks i = Some task /\ stage task = stg /\
                 outcome (agent_func task (input_data task) context) = Return result) ->
  (forall finish settled task,
      st' = Running finish settled -> nth_error tasks i = Some task ->
      exists context, settled = outcome (agent_func task (input_data task) context)) ->
  origin_inv self0 tasks r'.
Proof.
  intros [Hrun Hdone] Hstates Hnewdone Hnewrun. split.
  - intros j task finish settled Htask Hst. rewrite Hstates in Hst.
    destruct (Nat.eq_dec i j) as [->|Hne].
    + apply nth_error_set_nth_same in Hst. symmetry in Hst.
      apply (Hnewrun finish settled task Hst Htask).
    + rewrite nth_error_set_nth_neq in Hst by assumption.
      apply (Hrun j task finish settled Htask Hst).
  - intros stg Hin. destruct (Hnewdone stg Hin) as [Hold|(task & ctx & res & H)].
    + apply Hdone. exact Hold.
    + right. exists i, task, ctx, res. exact H.
Qed.

Lemma release_origin self0 tasks r :
  origin_inv self0 tasks r -> origin_inv self0 tasks (release r).
Proof.
  intros Hinv. unfold release.
  destruct (sem_waiters (semaphore (sched r))) as [|w ws].
  - exact Hinv.
  - apply (origin_inv_step self0 tasks r _ w Granted Hinv); simpl; auto. discriminate.
Qed.

Lemma invoke_origin self0 tasks r i task :
  origin_inv self0 tasks r -> nth_error tasks i = Some task ->
  origin_inv self0 tasks (invoke i task r).
Proof.
  intros Hinv Htask. unfold invoke.
  eapply (origin_inv_step self0 tasks r _ i); [exact Hinv | reflexivity | auto |].
  intros finish settled task' Heq Htask'. inversion Heq; subst.
  rewrite Htask in Htask'. inversion Htask'; subst. eexists. reflexivity.
Qed.

Lemma fail_task_origin self0 tasks r i task e :
  origin_inv self0 tasks r -> origin_inv self0 tasks (fail_task i task e r).
Proof.
  intros Hinv. unfold fail_task. apply release_origin.
  eapply (origin_inv_step self0 tasks r _ i); [exact Hinv | reflexivity | auto |].
  discriminate.
Qed.

Lemma settle_origin self0 tasks r i task finish settled :
  origin_inv self0 tasks r -> nth_error tasks i = Some task ->
  nth_error (states r) i = Some (Running finish settled) ->
  origin_inv self0 tasks (settle i task settled r).
Proof.
  intros Hinv Htask Hst. destruct settled as [result|msg]; simpl.
  - apply release_origin.
    eapply (origin_inv_step self0 tasks r _ i); [exact Hinv | reflexivity | |].
    + simpl. intros stg Hin. apply stage_in_add in Hin. destruct Hin as [->|Hin]; [|auto].
      right. destruct Hinv as [Hrun _].
      destruct (Hrun i task finish (Return result) Htask Hst) as [ctx Hctx].
      exists task, ctx, result. auto.
    + discriminate.
  - apply fail_task_origin. exact Hinv.
Qed.

Lemma check_dependencies_origin self0 tasks r i task start_time :
  origin_inv self0 tasks r -> nth_error tasks i = Some task ->
  origin_inv self0 tasks (check_dependencies i task start_time r).
Proof.
  intros Hinv Htask. unfold check_dependencies.
  destruct (wait_poll (sched r) (dependencies task) start_time (now r)).
  - apply invoke_origin; assumption.
  - eapply (origin_inv_step self0 tasks r _ i); [exact Hinv | reflexivity | auto |].
    discriminate.
  - apply fail_task_origin. exact Hinv.
Qed.

Lemma enter_wait_origin self0 tasks r i task :
  origin_inv self0 tasks r -> nth_error tasks i = Some task ->
  origin_inv self0 tasks (enter_wait i task r).
Proof.
  intros Hinv Htask. unfold enter_wait. destruct (dependencies task).
  - apply invoke_origin; assumption.
  - apply check_dependencies_origin; assumption.
Qed.

Lemma acquire_origin self0 tasks r i task :
  origin_inv self0 tasks r -> nth_error tasks i = Some task ->
  origin_inv self0 tasks (acquire i task r).
Proof.
  intros Hinv Htask. unfold acquire.
  assert (Hqueue : forall sem,
             origin_inv self0 tasks
               (set_state i AtGate (set_sched (set_semaphore sem (sched r)) r))).
  { intros sem. eapply (origin_inv_step self0 tasks r _ i);
      [exact Hinv | reflexivity | auto | discriminate]. }
  destruct (sem_value (semaphore (sched r))); [apply Hqueue|].
  destruct (sem_waiters (semaphore (sched r))); [|apply Hqueue].
  apply enter_wait_origin; [|assumption]. exact Hinv.
Qed.

Lemma resume_origin self0 tasks r i :
  origin_inv self0 tasks r -> origin_inv self0 tasks (resume tasks i r).
Proof.
  intros Hinv. unfold resume.
  destruct (nth_error tasks i) as [task|] eqn:Htask; [|exact Hinv].
  destruct (nth_error (states r) i) as [st|] eqn:Hst; [|exact Hinv].
  destruct st; try exact Hinv.
  - apply acquire_origin; assumption.
  - apply enter_wait_origin; assumption.
  - apply check_dependencies_origin; assumption.
  - apply (settle_origin self0 tasks r i task finish settled); assumption.
Qed.

Lemma step_origin self0 tasks r r' :
  origin_inv self0 tasks r -> step tasks r = Some r' -> origin_inv self0 tasks r'.
Proof.
  intros Hinv. unfold step. destruct (ready r) as [|i rest].
  - destruct (earliest 0 (states r)) as [[t due]|]; [|discriminate].
    intros H. inversion H; subst. exact Hinv.
  - intros H. inversion H; subst. apply resume_origin. exact Hinv.
Qed.

Lemma turns_origin self0 tasks k : forall r r',
  origin_inv self0 tasks r -> turns tasks k r = Some r' -> origin_inv self0 tasks r'.
Proof.
  induction k as [|k IH]; intros r r' Hinv H; simpl in H.
  - inversion H; subst. exact Hinv.
  - destruct (step tasks r) as [r1|] eqn:Hstep; [|discriminate].
    apply (IH r1 r'); [|exact H]. apply (step_origin _ _ _ _ Hinv Hstep).
Qed.

Lemma launch_origin (self : TaskScheduler Result) tasks start :
  origin_inv self tasks (launch self tasks start).
Proof.
  split.
  - intros i task finish settled _ Hst. exfalso. simpl in Hst.
    apply nth_error_In in Hst. apply in_map_iff in Hst.
    destruct Hst as (t & Habs & _). discriminate.
  - intros stg Hin. left. exact Hin.
Qed.

(** *** The fixed graph of the coordinator *)

(** C1. On the graph of the coordinator, where API_DOCS and README
    each wait for ANALYSIS only, a scheduler of capacity 1 whose three
    operations succeed completes the run: the results returned have an
    entry for each of the three stages, all three are in
    [completed_stages] and none has failed. And at every turn of the
    event loop, a task for API_DOCS or README whose operation has been
    called finds ANALYSIS in [completed_stages]. *)
Theorem C1_fixed_graph_at_capacity_one
    (analyst api_documenter readme_creator : Agent Payload Result)
    (input_data : Payload) (start : time) :
  (forall context, exists result,
        outcome (analyst input_data context) = Return result) ->
  (forall context, exists result,
        outcome (api_documenter input_data context) = Return result) ->
  (forall context, exists result,
        outcome (readme_creator input_data context) = Return result) ->
  let tasks := coordinate_tasks analyst api_documenter readme_creator input_data in
  (exists ra rb rc self',
      schedule_and_execute (TaskScheduler_init 1) tasks start 12
      = Some (Return [(ANALYSIS, ra); (API_DOCS, rb); (README, rc)], self') /\
      results self' = [(ANALYSIS, ra); (API_DOCS, rb); (README, rc)] /\
      completed_stages self' = [ANALYSIS; API_DOCS; README] /\
      failed_stages self' = []) /\
  (forall k r i task st,
      turns (sorted tasks) k (launch (TaskScheduler_init 1) (sorted tasks) start) = Some r ->
      nth_error (sorted tasks) i = Some task ->
      stage task = API_DOCS \/ stage task = README ->
      nth_error (states r) i = Some st ->
      invoked st = true ->
      stage_in ANALYSIS (completed_stages (sched r)) = true).
Proof.
  intros HA HB HC tasks. split.
  - destruct (HA []) as [ra Hra].
    destruct (HB [(ANALYSIS, ra)]) as [rb Hrb].
    destruct (HC [(ANALYSIS, ra); (API_DOCS, rb)]) as [rc Hrc].
    exists ra, rb, rc. eexists.
    unfold tasks, schedule_and_execute, coordinate_tasks, _wrap_agent.
    cbn. rewrite Hra. cbn. rewrite Hrb. cbn. rewrite Hrc. cbn.
    repeat split.
  - intros k r i task st Hturns Htask Hstage Hst Hinvoked.
    pose proof (turns_deps (sorted tasks) k _ _
                  (launch_deps (TaskScheduler_init 1) (sorted tasks) start) Hturns)
      as Hdeps.
    apply (Hdeps i task st Htask Hst Hinvoked).
    unfold tasks, coordinate_tasks in Htask. cbn in Htask.
    destruct i as [|[|[|i]]]; cbn in Htask; inversion Htask; subst; cbn in *.
    + destruct Hstage; discriminate.
    + left. reflexivity.
    + left. reflexivity.
    + destruct i; discriminate.
Qed.

(** *** The wait for the prerequisites *)

Lemma wait_loop_deadline (view : nat -> TaskScheduler Result) deps start_time dep :
  In dep deps ->
  (forall k, stage_in dep (completed_stages (view k)) = false) ->
  forall fuel k,
    (k <= 3001)%nat -> (3001 < k + fuel)%nat ->
    exists k' e,
      wait_loop fuel view deps start_time k = Some (k', Some e) /\
      (k <= k' <= 3001)%nat /\
      (forall j, (k <= j < k')%nat ->
                 filter (fun d => stage_in d (failed_stages (view j))) deps = []) /\
      ((filter (fun d => stage_in d (failed_stages (view k'))) deps <> [] /\
        e = DependencyFailed
              (filter (fun d => stage_in d (failed_stages (view k'))) deps)) \/
       (filter (fun d => stage_in d (failed_stages (view k'))) deps = [] /\
        k' = 3001%nat /\
        e = TimeoutFailed
              (filter (fun d => negb (stage_in d (completed_stages (view k')))) deps))).
Proof.
  intros Hin Hnever. induction fuel as [|fuel IH]; intros k Hk Hfuel; [lia|].
  simpl. unfold wait_poll.
  assert (Hall : forallb (fun d => stage_in d (completed_stages (view k))) deps = false).
  { destruct (forallb _ deps) eqn:Hall; [|reflexivity].
    rewrite forallb_forall in Hall. specialize (Hall dep Hin).
    rewrite Hnever in Hall. discriminate. }
  rewrite Hall.
  destruct (filter (fun d => stage_in d (failed_stages (view k))) deps) as [|d ds] eqn:Hf.
  - replace (start_time + Z.of_nat k * POLL - start_time) with (Z.of_nat k * POLL) by lia.
    destruct (TIMEOUT <? Z.of_nat k * POLL) eqn:Hlate.
    + apply Z.ltb_lt in Hlate. unfold TIMEOUT, POLL in Hlate.
      assert (k = 3001%nat) by lia. subst k.
      eexists. eexists. split; [reflexivity|]. split; [lia|]. split; [intros j Hj; lia|].
      right. auto.
    + apply Z.ltb_ge in Hlate. unfold TIMEOUT, POLL in Hlate.
      destruct (IH (S k)) as (k' & e & Hloop & Hrange & Hquiet & Hcause); [lia | lia |].
      exists k', e. split; [exact Hloop|]. split; [lia|]. split; [|exact Hcause].
      intros j Hj. destruct (Nat.eq_dec j k) as [->|Hne]; [exact Hf|].
      apply Hquiet. lia.
  - eexists. eexists. split; [reflexivity|]. split; [lia|]. split; [intros j Hj; lia|].
    left. rewrite Hf. split; [discriminate | reflexivity].
Qed.

(** C7, as amended. A task with prerequisites, one of which never
    enters [completed_stages], stops waiting with an exception no
    later than the check made 3001 sleeps of 0.1 s after the entry,
    the first one for which the elapsed time exceeds the 300 s: within
    one polling interval of the deadline. If no prerequisite is in
    [failed_stages] at any check up to then, the exception is the
    timeout, raised at that check and naming every prerequisite still
    missing from [completed_stages]; otherwise it is the dependency
    failure, raised at the first check that finds a failed
    prerequisite and naming the failed ones. *)
Theorem C7_wait_ends_by_the_deadline
    (view : nat -> TaskScheduler Result) (deps : list AgentStage)
    (start_time : time) (dep : AgentStage) :
  In dep deps ->
  (forall k, stage_in dep (completed_stages (view k)) = false) ->
  exists k e,
    _wait_for_dependencies 3002 view deps start_time = Some (k, Some e) /\
    Z.of_nat k * POLL <= TIMEOUT + POLL /\
    (forall j, (j < k)%nat ->
               forall d, In d deps -> stage_in d (failed_stages (view j)) = false) /\
    (((exists d, In d deps /\ stage_in d (failed_stages (view k)) = true) /\
      e = DependencyFailed
            (filter (fun d => stage_in d (failed_stages (view k))) deps)) \/
     ((forall d, In d deps -> stage_in d (failed_stages (view k)) = false) /\
      TIMEOUT < Z.of_nat k * POLL /\
      In dep (filter (fun d => negb (stage_in d (completed_stages (view k)))) deps) /\
      e = TimeoutFailed
            (filter (fun d => negb (stage_in d (completed_stages (view k)))) deps))).
Proof.
  intros Hin Hnever.
  destruct (wait_loop_deadline view deps start_time dep Hin Hnever 3002 0)
    as (k & e & Hloop & Hrange & Hquiet & Hcause); [lia | lia |].
  exists k, e. split; [|split; [|split]].
  - unfold _wait_for_dependencies. destruct deps; [contradiction | exact Hloop].
  - unfold POLL, TIMEOUT. lia.
  - intros j Hj d Hd. specialize (Hquiet j (conj (Nat.le_0_l j) Hj)).
    destruct (stage_in d (failed_stages (view j))) eqn:Hfd; [|reflexivity].
    assert (Hmem : In d (filter (fun d => stage_in d (failed_stages (view j))) deps)).
    { apply filter_In. auto. }
    rewrite Hquiet in Hmem. contradiction.
  - destruct Hcause as [[Hne ->]|(Hnone & -> & ->)].
    + left. split; [|reflexivity].
      destruct (filter (fun d => stage_in d (failed_stages (view k))) deps)
        as [|d ds] eqn:Hf; [congruence|].
      assert (Hmem : In d (filter (fun d => stage_in d (failed_stages (view k))) deps)).
      { rewrite Hf. left. reflexivity. }
      apply filter_In in Hmem. exists d. exact Hmem.
    + right. split; [|split; [|split]].
      * intros d Hd.
        destruct (stage_in d (failed_stages (view 3001%nat))) eqn:Hfd; [|reflexivity].
        assert (Hmem : In d (filter (fun d => stage_in d (failed_stages (view 3001%nat)))
                               deps)).
        { apply filter_In. auto. }
        rewrite Hnone in Hmem. contradiction.
      * unfold POLL, TIMEOUT. lia.
      * apply filter_In. split; [exact Hin|]. rewrite Hnever. reflexivity.
      * reflexivity.
Qed.

(** With an analysis that raises, no task for another stage of the
    fixed graph ever has its operation called, at any capacity. *)
Lemma dependents_never_invoked
    (analyst api_documenter readme_creator : Agent Payload Result)
    (input_data : Payload) (start : time) (msg : string) (capacity : nat) :
  (forall context, outcome (analyst input_data context) = Raise msg) ->
  let tasks := coordinate_tasks analyst api_documenter readme_creator input_data in
  forall k r i task st,
    turns (sorted tasks) k (launch (TaskScheduler_init capacity) (sorted tasks) start)
    = Some r ->
    nth_error (sorted tasks) i = Some task ->
    stage task = API_DOCS \/ stage task = README ->
    nth_error (states r) i = Some st ->
    invoked st = false.
Proof.
  intros Hfail tasks k r i task st Hturns Htask Hstage Hst.
  destruct (invoked st) eqn:Hinvoked; [exfalso|reflexivity].
  pose proof (turns_deps (sorted tasks) k _ _
                (launch_deps (TaskScheduler_init capacity) (sorted tasks) start) Hturns)
    as Hdeps.
  pose proof (turns_origin _ (sorted tasks) k _ _
                (launch_origin (TaskScheduler_init capacity) (sorted tasks) start) Hturns)
    as [_ Horigin].
  assert (Hdone : stage_in ANALYSIS (completed_stages (sched r)) = true).
  { apply (Hdeps i task st Htask Hst Hinvoked).
    unfold tasks, coordinate_tasks in Htask. cbn in Htask.
    destruct i as [|[|[|i]]]; cbn in Htask; inversion Htask; subst; cbn in *.
    - destruct Hstage; discriminate.
    - left. reflexivity.
    - left. reflexivity.
    - destruct i; discriminate. }
  destruct (Horigin ANALYSIS Hdone) as [Habs|(j & t & ctx & res & Ht & Hstg & Hout)].
  - discriminate.
  - unfold tasks, coordinate_tasks in Ht. cbn in Ht.
    destruct j as [|[|[|j]]]; cbn in Ht; inversion Ht; subst; cbn in *;
      try discriminate.
    + unfold _wrap_agent in Hout. rewrite Hfail in Hout. discriminate.
    + destruct j; discriminate.
Qed.

(** *** The fixed graph when the analysis raises *)

Section AnalysisRaises.

Variables (analyst api_documenter readme_creator : Agent Payload Result).
Variables (input_data : Payload) (start : time) (msg : string).
Hypothesis analyst_raises :
  forall context, outcome (analyst input_data context) = Raise msg.

Ltac turn := cbn -[Z.add Z.sub Z.compare Z.ltb POLL TIMEOUT].

Ltac check := unfold check_dependencies, wait_poll; turn.

Lemma compare_lt a b : a < b -> (a ?= b) = Lt.
Proof. intros H. apply Z.compare_lt_iff. exact H. Qed.

Lemma compare_gt a b : b < a -> (a ?= b) = Gt.
Proof. intros H. apply Z.compare_gt_iff. exact H. Qed.

Lemma sorted_coordinate_tasks :
  sorted (coordinate_tasks analyst api_documenter readme_creator input_data)
  = coordinate_tasks analyst api_documenter readme_creator input_data.
Proof. reflexivity. Qed.

(** While the analysis runs, a round of the two sleepers takes three
    turns of the loop and moves their timers by one interval. *)
Lemma both_polling_turn capacity free finish wake t fuel :
  wake < finish -> finish - start <= TIMEOUT ->
  run_until_complete (coordinate_tasks analyst api_documenter readme_creator input_data)
    (3 + fuel) (both_polling capacity free finish (Raise msg) start wake t)
  = run_until_complete (coordinate_tasks analyst api_documenter readme_creator input_data)
      fuel (both_polling capacity free finish (Raise msg) start (wake + POLL) wake).
Proof.
  intros Hlt Hfast. unfold both_polling, blank, coordinate_tasks.
  turn. rewrite Z.compare_refl. rewrite (compare_gt _ _ Hlt). turn.
  assert (Hel : (TIMEOUT <? wake - start) = false) by (apply Z.ltb_ge; lia).
  check. rewrite Hel. turn. check. rewrite Hel. turn. reflexivity.
Qed.

(** Once the analysis has raised, both sleepers find it in
    [failed_stages] at their next check. *)
Lemma both_polling_end capacity free finish wake t fuel :
  finish <= wake ->
  exists r,
    run_until_complete (coordinate_tasks analyst api_documenter readme_creator input_data)
      (6 + fuel) (both_polling capacity free finish (Raise msg) start wake t) = Some r /\
    analysis_failed msg r.
Proof.
  intros Hle. unfold both_polling, blank, coordinate_tasks.
  destruct (Z.eq_dec finish wake) as [Heq|Hne].
  - turn. rewrite <- Heq. rewrite !Z.compare_refl. turn.
    eexists. split; [reflexivity|]. repeat split.
  - turn. rewrite Z.compare_refl. rewrite (compare_lt finish wake) by lia. turn.
    rewrite Z.compare_refl. turn.
    eexists. split; [reflexivity|]. repeat split.
Qed.

Lemma both_polling_run capacity free finish n : forall wake t,
  finish - start <= TIMEOUT ->
  finish <= wake + Z.of_nat n * POLL ->
  exists r,
    run_until_complete (coordinate_tasks analyst api_documenter readme_creator input_data)
      (3 * n + 6) (both_polling capacity free finish (Raise msg) start wake t) = Some r /\
    analysis_failed msg r.
Proof.
  induction n as [|n IH]; intros wake t Hfast Hreach.
  - apply (both_polling_end capacity free finish wake t 0). lia.
  - destruct (Z_lt_le_dec wake finish) as [Hlt|Hle].
    + replace (3 * S n + 6)%nat with (3 + (3 * n + 6))%nat by lia.
      rewrite (both_polling_turn capacity free finish wake t _ Hlt Hfast).
      apply IH; [exact Hfast|]. unfold POLL in *. lia.
    + replace (3 * S n + 6)%nat with (6 + (3 * n + 3))%nat by lia.
      apply (both_polling_end capacity free finish wake t _ Hle).
Qed.

(** The same at capacity 2, where README stays at the gate until the
    analysis releases its slot. *)
Lemma one_polling_turn finish wake t fuel :
  wake < finish -> finish - start <= TIMEOUT ->
  run_until_complete (coordinate_tasks analyst api_documenter readme_creator input_data)
    (2 + fuel) (one_polling finish (Raise msg) start wake t)
  = run_until_complete (coordinate_tasks analyst api_documenter readme_creator input_data)
      fuel (one_polling finish (Raise msg) start (wake + POLL) wake).
Proof.
  intros Hlt Hfast. unfold one_polling, blank, coordinate_tasks.
  turn. rewrite (compare_gt _ _ Hlt). turn.
  assert (Hel : (TIMEOUT <? wake - start) = false) by (apply Z.ltb_ge; lia).
  check. rewrite Hel. turn. reflexivity.
Qed.

Lemma one_polling_end finish wake t fuel :
  finish <= wake ->
  exists r,
    run_until_complete (coordinate_tasks analyst api_documenter readme_creator input_data)
      (6 + fuel) (one_polling finish (Raise msg) start wake t) = Some r /\
    analysis_failed msg r.
Proof.
  intros Hle. unfold one_polling, blank, coordinate_tasks.
  destruct (Z.eq_dec finish wake) as [Heq|Hne].
  - turn. rewrite <- Heq. rewrite !Z.compare_refl. turn.
    eexists. split; [reflexivity|]. repeat split.
  - turn. rewrite (compare_lt finish wake) by lia. turn.
    eexists. split; [reflexivity|]. repeat split.
Qed.

Lemma one_polling_run finish n : forall wake t,
  finish - start <= TIMEOUT ->
  finish <= wake + Z.of_nat n * POLL ->
  exists r,
    run_until_complete (coordinate_tasks analyst api_documenter readme_creator input_data)
      (2 * n + 6) (one_polling finish (Raise msg) start wake t) = Some r /\
    analysis_failed msg r.
Proof.
  induction n as [|n IH]; intros wake t Hfast Hreach.
  - apply (one_polling_end finish wake t 0). lia.
  - destruct (Z_lt_le_dec wake finish) as [Hlt|Hle].
    + replace (2 * S n + 6)%nat with (2 + (2 * n + 6))%nat by lia.
      rewrite (one_polling_turn finish wake t _ Hlt Hfast).
      apply IH; [exact Hfast|]. unfold POLL in *. lia.
    + replace (2 * S n + 6)%nat with (6 + (2 * n + 2))%nat by lia.
      apply (one_polling_end finish wake t _ Hle).
Qed.

(** The first three turns of the loop: each task runs to its first
    suspension, in launch order. *)
Lemma launch_three free fuel :
  run_until_complete (coordinate_tasks analyst api_documenter readme_creator input_data)
    (3 + fuel)
    (launch (TaskScheduler_init (S (S (S free))))
       (coordinate_tasks analyst api_documenter readme_creator input_data) start)
  = run_until_complete (coordinate_tasks analyst api_documenter readme_creator input_data)
      fuel
      (both_polling (S (S (S free))) free
         (start + Z.of_N (latency (analyst input_data []))) (Raise msg)
         start (start + POLL) start).
Proof.
  unfold both_polling, blank, coordinate_tasks, _wrap_agent.
  turn. rewrite !analyst_raises.
  assert (Hel : (TIMEOUT <? start - start) = false) by (rewrite Z.sub_diag; reflexivity).
  unfold enter_wait. turn. check. rewrite Hel. turn.
  unfold enter_wait. turn. check. rewrite Hel. turn.
  reflexivity.
Qed.

Lemma launch_two fuel :
  run_until_complete (coordinate_tasks analyst api_documenter readme_creator input_data)
    (3 + fuel)
    (launch (TaskScheduler_init 2)
       (coordinate_tasks analyst api_documenter readme_creator input_data) start)
  = run_until_complete (coordinate_tasks analyst api_documenter readme_creator input_data)
      fuel
      (one_polling (start + Z.of_N (latency (analyst input_data []))) (Raise msg)
         start (start + POLL) start).
Proof.
  unfold one_polling, blank, coordinate_tasks, _wrap_agent.
  turn. rewrite !analyst_raises.
  assert (Hel : (TIMEOUT <? start - start) = false) by (rewrite Z.sub_diag; reflexivity).
  unfold enter_wait. turn. check. rewrite Hel. turn.
  reflexivity.
Qed.

Lemma capacity_one_run :
  exists r,
    run_until_complete (coordinate_tasks analyst api_documenter readme_creator input_data)
      12
      (launch (TaskScheduler_init 1)
         (coordinate_tasks analyst api_documenter readme_creator input_data) start)
    = Some r /\
    analysis_failed msg r.
Proof.
  unfold coordinate_tasks, _wrap_agent.
  cbn. rewrite !analyst_raises. cbn.
  eexists. split; [reflexivity|]. repeat split.
Qed.

(** The run ends with the analysis failed and both dependents failed on
    it, at capacity 1 and, when the analysis raises within the 300 s, at
    every capacity. *)
Lemma analysis_failure_run (capacity : nat) :
  (1 <= capacity)%nat ->
  capacity = 1%nat \/ Z.of_N (latency (analyst input_data [])) <= TIMEOUT ->
  exists fuel r,
    run_until_complete (coordinate_tasks analyst api_documenter readme_creator input_data)
      fuel
      (launch (TaskScheduler_init capacity)
         (coordinate_tasks analyst api_documenter readme_creator input_data) start)
    = Some r /\
    analysis_failed msg r.
Proof.
  intros Hpos Hfast.
  destruct capacity as [|[|[|free]]].
  - lia.
  - exists 12%nat. apply capacity_one_run.
  - destruct Hfast as [Habs|Hfast]; [discriminate|].
    set (n := N.to_nat (latency (analyst input_data []))).
    destruct (one_polling_run (start + Z.of_N (latency (analyst input_data []))) n
                (start + POLL) start) as (r & Hrun & Hend).
    + lia.
    + unfold n, POLL. lia.
    + exists (3 + (2 * n + 6))%nat, r. split; [|exact Hend].
      rewrite launch_two. exact Hrun.
  - destruct Hfast as [Habs|Hfast]; [discriminate|].
    set (n := N.to_nat (latency (analyst input_data []))).
    destruct (both_polling_run (S (S (S free))) free
                (start + Z.of_N (latency (analyst input_data []))) n
                (start + POLL) start) as (r & Hrun & Hend).
    + lia.
    + unfold n, POLL. lia.
    + exists (3 + (3 * n + 6))%nat, r. split; [|exact Hend].
      rewrite launch_three. exact Hrun.
Qed.

End AnalysisRaises.

(** C2, as amended. When the operation of ANALYSIS raises the message
    [msg], the operations of API_DOCS and README are never called, at any
    capacity. The run then ends with ANALYSIS failed and with API_DOCS and
    README failed by the dependency failure that names ANALYSIS, provided
    the capacity is 1 or the analysis raises within the 300 s that the
    dependents wait; and [schedule_and_execute] raises the exception
    whose message is [Task execution failed: ] followed by [msg], the
    cause of the first failed task in launch order. That message carries
    the cause and names no stage. *)
Theorem C2_analysis_failure
    (analyst api_documenter readme_creator : Agent Payload Result)
    (input_data : Payload) (start : time) (msg : string) (capacity : nat) :
  (forall context, outcome (analyst input_data context) = Raise msg) ->
  (1 <= capacity)%nat ->
  capacity = 1%nat \/ Z.of_N (latency (analyst input_data [])) <= TIMEOUT ->
  let tasks := coordinate_tasks analyst api_documenter readme_creator input_data in
  (exists fuel r,
      run_until_complete (sorted tasks) fuel
        (launch (TaskScheduler_init capacity) (sorted tasks) start) = Some r /\
      analysis_failed msg r /\
      schedule_and_execute (TaskScheduler_init capacity) tasks start fuel
      = Some (Raise ("Task execution failed: " ++ msg)%string, sched r)) /\
  (forall k r i task st,
      turns (sorted tasks) k (launch (TaskScheduler_init capacity) (sorted tasks) start)
      = Some r ->
      nth_error (sorted tasks) i = Some task ->
      stage task = API_DOCS \/ stage task = README ->
      nth_error (states r) i = Some st ->
      invoked st = false).
Proof.
  intros Hfail Hpos Hfast tasks. split.
  - destruct (analysis_failure_run analyst api_documenter readme_creator input_data
                start msg Hfail capacity Hpos Hfast) as (fuel & r & Hrun & Hend).
    exists fuel, r. unfold tasks. rewrite sorted_coordinate_tasks.
    split; [exact Hrun|]. split; [exact Hend|].
    unfold schedule_and_execute. rewrite sorted_coordinate_tasks, Hrun.
    destruct Hend as (Hstates & _). rewrite Hstates. reflexivity.
  - apply (dependents_never_invoked analyst api_documenter readme_creator input_data
             start msg capacity Hfail).
Qed.

End WithData.

Lemma C1_fixed_graph_at_capacity_one_witness :
  let analyst := SchedulerExamples.agent_ok 2000 "overview" in
  let api_documenter := SchedulerExamples.agent_ok 1000 "api" in
  let readme_creator := SchedulerExamples.agent_ok 1500 "readme" in
  let tasks := coordinate_tasks analyst api_documenter readme_creator "project" in
  (exists ra rb rc self',
      schedule_and_execute (TaskScheduler_init 1) tasks 0 12
      = Some (Return [(ANALYSIS, ra); (API_DOCS, rb); (README, rc)], self') /\
      results self' = [(ANALYSIS, ra); (API_DOCS, rb); (README, rc)] /\
      completed_stages self' = [ANALYSIS; API_DOCS; README] /\
      failed_stages self' = []) /\
  (forall k r i task st,
      turns (sorted tasks) k (launch (TaskScheduler_init 1) (sorted tasks) 0) = Some r ->
      nth_error (sorted tasks) i = Some task ->
      stage task = API_DOCS \/ stage task = README ->
      nth_error (states r) i = Some st ->
      invoked st = true ->
      stage_in ANALYSIS (completed_stages (sched r)) = true).
Proof.
  intros analyst api_documenter readme_creator.
  apply (C1_fixed_graph_at_capacity_one analyst api_documenter readme_creator "project" 0).
  - intros context. exists "overview". reflexivity.
  - intros context. exists "api". reflexivity.
  - intros context. exists "readme". reflexivity.
Defined.

Lemma C2_analysis_failure_witness :
  let analyst := SchedulerExamples.agent_fail 2000 "boom" in
  let api_documenter := SchedulerExamples.agent_ok 1000 "api" in
  let readme_creator := SchedulerExamples.agent_ok 1500 "readme" in
  let tasks := coordinate_tasks analyst api_documenter readme_creator "project" in
  (forall context, outcome (analyst "project" context) = Raise "boom") /\
  (1 <= 3)%nat /\
  (3%nat = 1%nat \/ Z.of_N (latency (analyst "project" [])) <= TIMEOUT) /\
  (exists fuel r,
      run_until_complete (sorted tasks) fuel
        (launch (TaskScheduler_init 3) (sorted tasks) 0) = Some r /\
      analysis_failed "boom" r /\
      schedule_and_execute (TaskScheduler_init 3) tasks 0 fuel
      = Some (Raise ("Task execution failed: " ++ "boom")%string, sched r)) /\
  (forall k r i task st,
      turns (sorted tasks) k (launch (TaskScheduler_init 3) (sorted tasks) 0) = Some r ->
      nth_error (sorted tasks) i = Some task ->
      stage task = API_DOCS \/ stage task = README ->
      nth_error (states r) i = Some st ->
      invoked st = false).
Proof.
  intros analyst api_documenter readme_creator tasks.
  assert (H1 : forall context : Results string,
             outcome (analyst "project" context) = Raise "boom")
    by (intros context; reflexivity).
  assert (H2 : (1 <= 3)%nat) by (repeat constructor).
  assert (H3 : 3%nat = 1%nat \/ Z.of_N (latency (analyst "project" [])) <= TIMEOUT)
    by (right; discriminate).
  split; [exact H1|]. split; [exact H2|]. split; [exact H3|].
  exact (C2_analysis_failure analyst api_documenter readme_creator "project" 0 "boom" 3
           H1 H2 H3).
Defined.

(** C2 as the specification states it fails on two counts. The
    exception raised by the run carries the message of the analysis and
    names no stage. And when the analysis raises after the 300 s that
    API_DOCS and README wait, at capacity 3, both have failed by the
    timeout, not by a dependency failure. *)
Lemma C2_counterexample :
  (exists self',
      schedule_and_execute (TaskScheduler_init 3) SchedulerExamples.tasks_analysis_fails
        0 200
      = Some (Raise "Task execution failed: boom", self') /\
      forall stg, contains (stage_value stg) "Task execution failed: boom" = false) /\
  (exists r,
      run_until_complete (sorted SchedulerExamples.tasks_analysis_fails_late) (91 * 100)
        (launch (TaskScheduler_init 3) (sorted SchedulerExamples.tasks_analysis_fails_late) 0)
      = Some r /\
      states r = [Failed (OperationFailure "boom");
                  Failed (TimeoutFailed [ANALYSIS]);
                  Failed (TimeoutFailed [ANALYSIS])]).
Proof.
  split.
  - eexists. split; [vm_compute; reflexivity|]. intros []; reflexivity.
  - eexists. split; vm_compute; reflexivity.
Qed.

Lemma C7_wait_ends_by_the_deadline_witness :
  let view := fun _ : nat => @TaskScheduler_init string 3 in
  In ANALYSIS [ANALYSIS] /\
  (forall k, stage_in ANALYSIS (completed_stages (view k)) = false) /\
  exists k e,
    _wait_for_dependencies 3002 view [ANALYSIS] 0 = Some (k, Some e) /\
    Z.of_nat k * POLL <= TIMEOUT + POLL /\
    (forall j, (j < k)%nat ->
               forall d, In d [ANALYSIS] -> stage_in d (failed_stages (view j)) = false) /\
    (((exists d, In d [ANALYSIS] /\ stage_in d (failed_stages (view k)) = true) /\
      e = DependencyFailed
            (filter (fun d => stage_in d (failed_stages (view k))) [ANALYSIS])) \/
     ((forall d, In d [ANALYSIS] -> stage_in d (failed_stages (view k)) = false) /\
      TIMEOUT < Z.of_nat k * POLL /\
      In ANALYSIS
        (filter (fun d => negb (stage_in d (completed_stages (view k)))) [ANALYSIS]) /\
      e = TimeoutFailed
            (filter (fun d => negb (stage_in d (completed_stages (view k)))) [ANALYSIS]))).
Proof.
  intros view.
  assert (Hin : In ANALYSIS [ANALYSIS]) by (left; reflexivity).
  assert (Hnever : forall k, stage_in ANALYSIS (completed_stages (view k)) = false)
    by (intros k; reflexivity).
  split; [exact Hin|]. split; [exact Hnever|].
  exact (C7_wait_ends_by_the_deadline view [ANALYSIS] 0 ANALYSIS Hin Hnever).
Defined.

(** C7 as the specification states it fails: ANALYSIS never enters
    [completed_stages] nor [failed_stages], the wait lasts beyond the
    300 s, and the exception raised at the first check after the
    deadline is the dependency failure for API_DOCS, not the timeout. *)
Lemma C7_counterexample :
  let view := SchedulerExamples.view_late_failure in
  (forall k, stage_in ANALYSIS (completed_stages (view k)) = false /\
             stage_in ANALYSIS (failed_stages (view k)) = false) /\
  _wait_for_dependencies 3002 view [ANALYSIS; API_DOCS] 0
  = Some (3001%nat, Some (DependencyFailed [API_DOCS])) /\
  TIMEOUT < Z.of_nat 3001 * POLL /\
  forall k missing,
    _wait_for_dependencies 3002 view [ANALYSIS; API_DOCS] 0
    <> Some (k, Some (TimeoutFailed missing)).
Proof.
  intros view.
  assert (Hrun : _wait_for_dependencies 3002 view [ANALYSIS; API_DOCS] 0
                 = Some (3001%nat, Some (DependencyFailed [API_DOCS])))
    by (vm_compute; reflexivity).
  split; [|split; [exact Hrun | split; [reflexivity|]]].
  - intros k. unfold view, SchedulerExamples.view_late_failure. simpl.
    destruct (k <=? 3000)%nat; split; reflexivity.
  - intros k missing. rewrite Hrun. discriminate.
Qed.

(** C9 as the specification states it fails: after a run in which the
    analysis raised, a second run on the same scheduler, with three
    operations that succeed, raises because ANALYSIS is still in
    [failed_stages], while the same run on a new scheduler returns the
    three results. *)
Lemma C9_counterexample :
  schedule_and_execute (TaskScheduler_init 3) SchedulerExamples.tasks_analysis_fails 0 200
  = Some (Raise "Task execution failed: boom", SchedulerExamples.scheduler_after_failure) /\
  (exists self',
      schedule_and_execute SchedulerExamples.scheduler_after_failure
        SchedulerExamples.tasks_ok 0 200
      = Some (Raise "Task execution failed: Dependencies failed: ['analysis']", self')) /\
  (exists self',
      schedule_and_execute (TaskScheduler_init 3) SchedulerExamples.tasks_ok 0 200
      = Some (Return [(ANALYSIS, "overview"); (API_DOCS, "api"); (README, "readme")],
              self')).
Proof.
  split; [vm_compute; reflexivity|].
  split; eexists; vm_compute; reflexivity.
Qed.

Lemma C6_concurrency_bound_witness :
  exists r,
    turns SchedulerExamples.tasks_ok 4%nat
      (launch (TaskScheduler_init 3%nat) SchedulerExamples.tasks_ok 0) = Some r /\
    (running_count r <= 3)%nat /\ (slot_holders r <= 3)%nat.
Proof.
  eexists. split; [reflexivity|].
  apply (proj1 (C6_concurrency_bound 3%nat SchedulerExamples.tasks_ok 0) 4%nat).
  reflexivity.
Defined.

End SchedulerProofs.

(** ** More on the batch partitioner *)

Module ChunkerBatches.
Import Py Chunker ChunkerVocabulary ChunkerProofs.

Lemma chain_snoc {A} (R : A -> A -> Prop) l a b :
  chain R (l ++ [a]) -> R a b -> chain R ((l ++ [a]) ++ [b]).
Proof.
  induction l as [|x l IH]; simpl; intros Hc Hab.
  - auto.
  - destruct l as [|y l]; simpl in *.
    + destruct Hc as [Hxa _]. auto.
    + destruct Hc as [Hxy Hc]. split; [exact Hxy|]. apply IH; assumption.
Qed.

Lemma chain_last {A} (R : A -> A -> Prop) l a a' :
  chain R (l ++ [a]) -> (forall p, R p a -> R p a') -> chain R (l ++ [a']).
Proof.
  induction l as [|x l IH]; simpl; intros Hc Hsame.
  - exact I.
  - destruct l as [|y l]; simpl in *.
    + destruct Hc as [Hxa _]. auto.
    + destruct Hc as [Hxy Hc]. split; [exact Hxy|]. apply IH; assumption.
Qed.

Lemma chain_middle {A} (R : A -> A -> Prop) pre a b post :
  chain R (pre ++ a :: b :: post) -> R a b.
Proof.
  induction pre as [|x pre IH]; simpl.
  - intros [H _]. exact H.
  - destruct pre as [|y pre]; simpl in *; intros [_ Hc]; apply IH; exact Hc.
Qed.

(** The loop closes a batch only when the next summary does not fit. *)
Lemma create_chunks_loop_tight self files :
  forall chunks current_chunk current_tokens,
    current_tokens = batch_cost self current_chunk ->
    (current_chunk = [] -> chunks = []) ->
    chain (closes_before self) (chunks ++ [current_chunk]) ->
    forall chunks' current_chunk' current_tokens',
      create_chunks_loop self files chunks current_chunk current_tokens
      = (chunks', current_chunk', current_tokens') ->
      (current_chunk' = [] -> chunks' = []) /\
      chain (closes_before self) (chunks' ++ [current_chunk']).
Proof.
  induction files as [|file_meta rest IH];
    intros chunks cur tok Htok Hempty Hchain chunks' cur' tok' Hrun.
  - simpl in Hrun. inversion Hrun; subst. auto.
  - simpl in Hrun. destruct file_meta as [info|p n e].
    + destruct (max_tokens self <? tok + count_tokens self (_create_file_summary info))
        eqn:Hover.
      * apply Z.ltb_lt in Hover. apply IH in Hrun; try assumption.
        -- simpl. lia.
        -- discriminate.
        -- destruct cur as [|f cur].
           ++ rewrite (Hempty eq_refl). simpl. exact I.
           ++ apply chain_snoc; [exact Hchain|]. simpl. simpl in Htok. lia.
      * apply IH in Hrun; try assumption.
        -- rewrite batch_cost_app. simpl. lia.
        -- intros Habs. destruct cur; discriminate.
        -- destruct cur as [|f cur].
           ++ rewrite (Hempty eq_refl). simpl. exact I.
           ++ apply (chain_last _ chunks (f :: cur)); [exact Hchain|].
              intros p Hp. exact Hp.
    + apply IH in Hrun; assumption.
Qed.

Lemma create_chunks_chain self files :
  chain (closes_before self) (create_chunks self files).
Proof.
  unfold create_chunks.
  destruct (create_chunks_loop self files [] [] 0) as [[chunks cur] tok] eqn:Hrun.
  destruct (create_chunks_loop_tight self files [] [] 0 eq_refl (fun _ => eq_refl) I
              _ _ _ Hrun) as [Hempty Hchain].
  destruct cur as [|f cur].
  - rewrite (Hempty eq_refl). exact I.
  - exact Hchain.
Qed.

(** X1. A batch is closed only when it has to be: whenever a batch is
    followed by another one in the output, its cost plus the prompt cost
    of the first summary of the next batch exceeds the budget. *)
Theorem X1_batches_closed_only_when_full
    (self : SmartChunker) (files : list FileMeta)
    (before : list (list FileMeta)) (batch : list FileMeta) (file_meta : FileMeta)
    (others : list FileMeta) (after : list (list FileMeta)) :
  create_chunks self files = before ++ batch :: (file_meta :: others) :: after ->
  max_tokens self < batch_cost self batch + prompt_cost self file_meta.
Proof.
  intros Hsplit. pose proof (create_chunks_chain self files) as Hchain.
  rewrite Hsplit in Hchain. apply chain_middle in Hchain. exact Hchain.
Qed.

Lemma X1_batches_closed_only_when_full_witness :
  create_chunks ChunkerExamples.char_chunker
    [ChunkerExamples.s1; ChunkerExamples.s2; ChunkerExamples.s3]
  = [] ++ [ChunkerExamples.s1] :: (ChunkerExamples.s2 :: [ChunkerExamples.s3]) :: [] /\
  max_tokens ChunkerExamples.char_chunker
  < batch_cost ChunkerExamples.char_chunker [ChunkerExamples.s1]
    + prompt_cost ChunkerExamples.char_chunker ChunkerExamples.s2.
Proof.
  assert (H : create_chunks ChunkerExamples.char_chunker
                [ChunkerExamples.s1; ChunkerExamples.s2; ChunkerExamples.s3]
              = [] ++ [ChunkerExamples.s1]
                   :: (ChunkerExamples.s2 :: [ChunkerExamples.s3]) :: [])
    by (vm_compute; reflexivity).
  split; [exact H|].
  exact (X1_batches_closed_only_when_full ChunkerExamples.char_chunker _ _ _ _ _ _ H).
Defined.

Lemma chain_tail {A} (R : A -> A -> Prop) a l : chain R (a :: l) -> chain R l.
Proof. destruct l as [|b l]; simpl; [auto | intros [_ H]; exact H]. Qed.

Lemma batch_cost_concat_pairs self (batches : list (list FileMeta)) :
  chain (closes_before self) batches ->
  Forall (fun batch => batch <> []) batches ->
  Z.of_nat (Nat.div2 (List.length batches)) * (max_tokens self + 1)
  <= batch_cost self (List.concat batches).
Proof.
  assert (Hboth : forall n l, (List.length l <= n)%nat ->
                              chain (closes_before self) l ->
                              Forall (fun batch => batch <> []) l ->
                              Z.of_nat (Nat.div2 (List.length l)) * (max_tokens self + 1)
                              <= batch_cost self (List.concat l)).
  { induction n as [|n IH]; intros l Hlen Hc Hn.
    - destruct l; [simpl; lia | simpl in Hlen; lia].
    - destruct l as [|a [|b l]].
      + simpl. lia.
      + simpl. pose proof (batch_cost_nonneg self (a ++ [])). lia.
      + simpl List.length. simpl Nat.div2. simpl List.concat.
        rewrite !batch_cost_app.
        destruct Hc as [Hab Hc].
        inversion Hn as [|? ? _ Hn']; subst. inversion Hn' as [|? ? Hb Hn'']; subst.
        assert (Hrest : Z.of_nat (Nat.div2 (List.length l)) * (max_tokens self + 1)
                        <= batch_cost self (List.concat l)).
        { apply IH; [simpl in Hlen; lia | apply (chain_tail _ b l Hc) | exact Hn'']. }
        destruct b as [|f b]; [congruence|]. simpl in Hab.
        assert (prompt_cost self f <= batch_cost self (f :: b))
          by (apply prompt_cost_le_batch; left; reflexivity).
        rewrite Nat2Z.inj_succ. lia. }
  intros Hchain Hne. apply (Hboth (List.length batches)); auto.
Qed.

(** X2. The batches are not wasteful: any two consecutive batches
    together exceed the budget, so with n batches the prompt costs of
    the summaries add up to at least (n div 2) times (budget + 1). *)
Theorem X2_number_of_batches_bounded (self : SmartChunker) (files : list FileMeta) :
  Z.of_nat (Nat.div2 (List.length (create_chunks self files))) * (max_tokens self + 1)
  <= batch_cost self (without_errors files).
Proof.
  destruct (create_chunks_inv self files) as [Hok Hcat]. rewrite <- Hcat.
  apply batch_cost_concat_pairs.
  - apply create_chunks_chain.
  - apply Forall_forall. intros batch Hin. rewrite Forall_forall in Hok.
    apply (Hok batch Hin).
Qed.

Lemma create_chunks_loop_all_fit self files :
  forall current_chunk current_tokens,
    current_tokens = batch_cost self current_chunk ->
    current_tokens + batch_cost self (without_errors files) <= max_tokens self ->
    create_chunks_loop self files [] current_chunk current_tokens
    = ([], current_chunk ++ without_errors files,
       current_tokens + batch_cost self (without_errors files)).
Proof.
  induction files as [|file_meta rest IH]; intros cur tok Htok Hfit.
  - simpl. rewrite app_nil_r, Z.add_0_r. reflexivity.
  - destruct file_meta as [info|p n e]; simpl in *.
    + pose proof (batch_cost_nonneg self (without_errors rest)) as Hpos.
      replace (max_tokens self <? tok + count_tokens self (_create_file_summary info))
        with false by (symmetry; apply Z.ltb_ge; lia).
      rewrite IH.
      * rewrite <- app_assoc. simpl. f_equal. lia.
      * rewrite batch_cost_app. simpl. lia.
      * lia.
    + apply IH; assumption.
Qed.

(** X3. When the prompt costs of all the summaries without error fit in
    the budget together, the output is one batch holding them all, in
    input order (and no batch when there is none). *)
Theorem X3_single_batch_when_all_fit (self : SmartChunker) (files : list FileMeta) :
  batch_cost self (without_errors files) <= max_tokens self ->
  create_chunks self files
  = match without_errors files with
    | [] => []
    | batch => [batch]
    end.
Proof.
  intros Hfit. unfold create_chunks.
  rewrite (create_chunks_loop_all_fit self files [] 0 eq_refl) by (simpl; lia).
  simpl. destruct (without_errors files); reflexivity.
Qed.

Lemma X3_single_batch_when_all_fit_witness :
  let files := [ChunkerExamples.s2; ChunkerExamples.s_err; ChunkerExamples.s3] in
  batch_cost ChunkerExamples.char_chunker (without_errors files)
  <= max_tokens ChunkerExamples.char_chunker /\
  create_chunks ChunkerExamples.char_chunker files
  = match without_errors files with
    | [] => []
    | batch => [batch]
    end.
Proof.
  intros files.
  assert (H : batch_cost ChunkerExamples.char_chunker (without_errors files)
              <= max_tokens ChunkerExamples.char_chunker)
    by (vm_compute; discriminate).
  split; [exact H|].
  exact (X3_single_batch_when_all_fit ChunkerExamples.char_chunker files H).
Defined.

(** X4. The output has no batch exactly when no summary is without
    error: on the empty input, and on an input of error-flagged
    summaries only; and chunking the flattened output again gives the
    same batches. *)
Theorem X4_empty_output_and_rechunking (self : SmartChunker) (files : list FileMeta) :
  (create_chunks self files = [] <-> without_errors files = []) /\
  create_chunks self (List.concat (create_chunks self files)) = create_chunks self files.
Proof.
  destruct (create_chunks_inv self files) as [Hok Hcat]. split; [split|].
  - intros Hnone. rewrite Hnone in Hcat. simpl in Hcat. symmetry. exact Hcat.
  - intros Hnone. rewrite Hnone in Hcat.
    destruct (create_chunks self files) as [|batch batches]; [reflexivity|].
    inversion Hok as [|? ? [Hne _] _]; subst.
    destruct batch; [congruence | discriminate].
  - rewrite Hcat. unfold create_chunks. rewrite create_chunks_loop_skips_errors.
    reflexivity.
Qed.

(** X5. Only the first 15 functions and the first 10 classes of a file
    count: cutting the two lists there changes neither the rendered
    summary nor the prompt cost, whatever the tokenizer. *)
Theorem X5_declarations_beyond_the_cut_ignored (self : SmartChunker) (info : FileInfo) :
  let cut :=
    {| path := path info; name := name info;
       extension := extension info; size := size info;
       tokens := tokens info; lines := lines info;
       functions := firstn 15 (functions info);
       classes := firstn 10 (classes info);
       preview := preview info; full_content := full_content info |} in
  _create_file_summary cut = _create_file_summary info /\
  prompt_cost self (Meta cut) = prompt_cost self (Meta info).
Proof.
  intros cut.
  assert (H : _create_file_summary cut = _create_file_summary info)
    by apply create_file_summary_truncates_lists.
  split; [exact H|]. simpl. rewrite H. reflexivity.
Qed.

Lemma in_firstn {A} n : forall (l : list A) x, In x (firstn n l) -> In x l.
Proof.
  induction n as [|n IH]; intros [|y l] x H; simpl in *; try contradiction.
  destruct H as [H|H]; [left; exact H | right; apply IH; exact H].
Qed.

Lemma preview_loop_lines max_lines todo : forall rest important_lines line,
  In line (preview_loop max_lines todo rest important_lines) ->
  In line important_lines \/ In line rest.
Proof.
  induction todo as [|todo IH]; intros rest important line Hin;
    cbn [preview_loop] in Hin.
  - left. exact Hin.
  - destruct rest as [|l rest]; [left; exact Hin|].
    destruct (existsb (fun keyword => contains keyword l) priority_keywords).
    + assert (Hext : In line (important ++ firstn 3 (l :: rest)) ->
                     In line important \/ In line (l :: rest)).
      { intros H. apply in_app_or in H. destruct H as [H|H]; [left; exact H|].
        right. apply (in_firstn _ _ _ H). }
      destruct (max_lines <=? List.length (important ++ firstn 3 (l :: rest)))%nat.
      * apply Hext. exact Hin.
      * destruct (IH _ _ _ Hin) as [H|H]; [apply Hext; exact H|].
        right. right. exact H.
    + destruct (IH _ _ _ Hin) as [H|H]; [left; exact H | right; right; exact H].
Qed.

Lemma preview_loop_no_keyword max_lines todo : forall rest important_lines,
  (forall line, In line (firstn todo rest) ->
                existsb (fun keyword => contains keyword line) priority_keywords = false) ->
  preview_loop max_lines todo rest important_lines = important_lines.
Proof.
  induction todo as [|todo IH]; intros rest important Hnone; cbn [preview_loop];
    [reflexivity|].
  destruct rest as [|l rest]; [reflexivity|].
  rewrite (Hnone l) by (left; reflexivity).
  apply IH. intros line Hin. apply Hnone. right. exact Hin.
Qed.

(** X6. The preview is made of at most [max_lines] lines, each of them
    a line of the content, followed by the count of the remaining lines
    when the content has more than [max_lines] lines and by nothing
    otherwise. When none of the first 100 lines holds a keyword, no line
    is kept at all. *)
Theorem X6_preview_is_bounded (content extension : string) (max_lines : nat) :
  exists kept,
    (List.length kept <= max_lines)%nat /\
    (forall line, In line kept -> In line (split_nl content)) /\
    ((forall line, In line (firstn 100 (split_nl content)) ->
                   existsb (fun keyword => contains keyword line) priority_keywords = false) ->
     kept = []) /\
    _create_smart_preview content extension max_lines
    = (join nl kept
       ++ (if (max_lines <? List.length (split_nl content))%nat
           then nl ++ "... ("
                ++ str_int (Z.of_nat (List.length (split_nl content)) - Z.of_nat max_lines)
                ++ " more lines)"
           else EmptyString))%string.
Proof.
  exists (firstn max_lines (preview_loop max_lines 100 (split_nl content) [])).
  split; [apply firstn_le_length|]. split; [|split].
  - intros line Hin. apply in_firstn in Hin.
    destruct (preview_loop_lines _ _ _ _ _ Hin) as [[]|H]. exact H.
  - intros Hnone. rewrite preview_loop_no_keyword by exact Hnone.
    destruct max_lines; reflexivity.
  - unfold _create_smart_preview.
    destruct (max_lines <? List.length (split_nl content))%nat; [reflexivity|].
    symmetry. clear. induction (join nl _) as [|c s IH]; simpl; [reflexivity|].
    rewrite IH. reflexivity.
Qed.



(** The job on three paths: one file is chunked, the missing one and the
    one that spells a special token are left out. *)
Example session_chunks_three_paths :
  session_chunks ChunkerExamples.one_file ChunkerExamples.special_tokens
    ChunkerExamples.names_of_a_py ChunkerExamples.char_chunker
    [ChunkerExamples.gone_path; ChunkerExamples.a_path; ChunkerExamples.eot_path]
  = Return [[extract_metadata ChunkerExamples.one_file ChunkerExamples.special_tokens
               ChunkerExamples.names_of_a_py ChunkerExamples.char_chunker
               ChunkerExamples.a_path]].
Proof. reflexivity. Qed.

End ChunkerBatches.

(** ** More on the scheduler *)

Module SchedulerRuns.
Import Py Scheduler Coordinator SchedulerVocabulary SchedulerProofs.

Section WithData.

Context {Payload Result : Type}.

Implicit Types (r : Run Result) (st : TaskState Result).
Implicit Types (task : AgentTask Payload Result) (tasks : list (AgentTask Payload Result)).

(** *** The launch order *)

Lemma key_le_spec (a b : AgentTask Payload Result) :
  key_le a b = true <-> launches_before a b.
Proof.
  unfold key_le, launches_before.
  rewrite orb_true_iff, andb_true_iff, Nat.ltb_lt, Nat.eqb_eq, Z.leb_le.
  split; intros [H|[H1 H2]]; auto; right; split; auto; lia.
Qed.

Lemma key_le_total (a b : AgentTask Payload Result) :
  key_le a b = false -> launches_before b a /\ same_key a b = false.
Proof.
  intros H. unfold key_le in H. unfold launches_before, same_key.
  apply orb_false_iff in H. destruct H as [Hlt H].
  apply Nat.ltb_ge in Hlt. apply andb_false_iff in H.
  destruct (Nat.eq_dec (List.length (dependencies a)) (List.length (dependencies b)))
    as [Heq|Hne].
  - destruct H as [H|H]; [apply Nat.eqb_neq in H; congruence|].
    apply Z.leb_gt in H. split; [right; split; [auto | lia]|].
    apply andb_false_iff. right. apply Z.eqb_neq. lia.
  - split; [left; lia|]. apply andb_false_iff. left. apply Nat.eqb_neq. exact Hne.
Qed.

Lemma launches_before_trans (a b c : AgentTask Payload Result) :
  launches_before a b -> launches_before b c -> launches_before a c.
Proof. unfold launches_before. intros [H1|[H1 H1']] [H2|[H2 H2']]; lia. Qed.

Lemma insert_task_perm task tasks : Permutation (insert_task task tasks) (task :: tasks).
Proof.
  induction tasks as [|t tasks IH]; simpl; [reflexivity|].
  destruct (key_le task t); [reflexivity|].
  rewrite IH. apply perm_swap.
Qed.

Lemma insert_task_sorted task tasks :
  StronglySorted launches_before tasks ->
  StronglySorted launches_before (insert_task task tasks).
Proof.
  induction tasks as [|t tasks IH]; intros Hs; simpl.
  - repeat constructor.
  - inversion Hs as [|? ? Hs' Hall]; subst.
    destruct (key_le task t) eqn:Hle.
    + apply key_le_spec in Hle. constructor; [exact Hs|].
      constructor; [exact Hle|].
      rewrite Forall_forall in *. intros x Hx.
      apply (launches_before_trans _ t _ Hle). apply Hall. exact Hx.
    + apply key_le_total in Hle. destruct Hle as [Hle _].
      constructor; [apply IH; exact Hs'|].
      rewrite Forall_forall in *. intros x Hx.
      apply (Permutation_in _ (insert_task_perm task tasks)) in Hx.
      destruct Hx as [<-|Hx]; [exact Hle | apply Hall; exact Hx].
Qed.

Lemma same_key_sym (a b : AgentTask Payload Result) : same_key a b = same_key b a.
Proof.
  unfold same_key. rewrite (Nat.eqb_sym (List.length (dependencies a))).
  rewrite (Z.eqb_sym (priority a)). reflexivity.
Qed.

Lemma same_key_false_l (a b c : AgentTask Payload Result) :
  same_key a b = false -> same_key c a = true -> same_key c b = false.
Proof.
  unfold same_key. intros Hab Hca.
  apply andb_true_iff in Hca. destruct Hca as [H1 H2].
  apply Nat.eqb_eq in H1. apply Z.eqb_eq in H2. rewrite H1, H2. exact Hab.
Qed.

Lemma insert_task_stable task tasks t0 :
  filter (same_key t0) (insert_task task tasks) = filter (same_key t0) (task :: tasks).
Proof.
  induction tasks as [|t tasks IH]; simpl; [reflexivity|].
  destruct (key_le task t) eqn:Hle; [reflexivity|].
  apply key_le_total in Hle. destruct Hle as [_ Hdiff].
  simpl. rewrite IH. simpl.
  destruct (same_key t0 task) eqn:H1; [|reflexivity].
  rewrite (same_key_false_l task t t0 Hdiff H1). reflexivity.
Qed.

(** X8. The launch order is the list of tasks rearranged, with fewer
    prerequisites first and, among tasks with as many prerequisites,
    higher priority first; tasks with the same number of prerequisites
    and the same priority keep the order they were given in. *)
Theorem X8_launch_order tasks :
  Permutation (sorted tasks) tasks /\
  StronglySorted launches_before (sorted tasks) /\
  (forall t0, filter (same_key t0) (sorted tasks) = filter (same_key t0) tasks).
Proof.
  induction tasks as [|task tasks (Hperm & Hsorted & Hstable)]; simpl.
  - repeat split; constructor.
  - split; [|split].
    + rewrite insert_task_perm. constructor. exact Hperm.
    + apply insert_task_sorted. exact Hsorted.
    + intros t0. rewrite insert_task_stable. simpl. rewrite Hstable. reflexivity.
Qed.


Lemma sorted_perm tasks : Permutation (sorted tasks) tasks.
Proof.
  induction tasks as [|task tasks IH]; simpl; [constructor|].
  rewrite insert_task_perm. constructor. exact IH.
Qed.

Lemma sorted_length tasks : List.length (sorted tasks) = List.length tasks.
Proof. apply Permutation_length. apply sorted_perm. Qed.

(** *** A semaphore without slots *)

Lemma set_nth_length {A} i (x : A) l : List.length (set_nth i x l) = List.length l.
Proof.
  revert i. induction l as [|y l IH]; intros [|i]; simpl; auto.
Qed.

Lemma Forall_set_nth {A} (P : A -> Prop) i x l :
  Forall P l -> P x -> Forall P (set_nth i x l).
Proof.
  intros Hl Hx. revert i. induction Hl as [|y l Hy Hl IH]; intros [|i]; simpl;
    constructor; auto.
Qed.

Lemma resume_at_gate tasks r i :
  all_at_gate r ->
  all_at_gate (resume tasks i r) /\
  ready (resume tasks i r) = ready r /\
  now (resume tasks i r) = now r /\
  List.length (states (resume tasks i r)) = List.length (states r).
Proof.
  intros [Hv Hall]. unfold resume.
  destruct (nth_error tasks i) as [task|]; [|repeat split; assumption].
  destruct (nth_error (states r) i) as [st|] eqn:Hst; [|repeat split; assumption].
  pose proof (nth_error_In _ _ Hst) as Hin.
  rewrite Forall_forall in Hall. destruct (Hall st Hin) as [->| ->].
  - unfold acquire. rewrite Hv. simpl. unfold all_at_gate. simpl.
    repeat split; auto.
    + apply Forall_set_nth; [apply Forall_forall; exact Hall | right; reflexivity].
    + apply set_nth_length.
  - repeat split; [assumption | apply Forall_forall; exact Hall].
Qed.

Lemma earliest_at_gate (sts : list (TaskState Result)) : forall i,
  Forall (fun st => st = Pending \/ st = AtGate) sts -> earliest i sts = None.
Proof.
  induction sts as [|st sts IH]; intros i Hall; simpl; [reflexivity|].
  inversion Hall as [|? ? Hst Hall']; subst.
  rewrite (IH (S i) Hall'). destruct Hst as [->| ->]; reflexivity.
Qed.

Lemma step_at_gate tasks r :
  all_at_gate r ->
  match step tasks r with
  | Some r' => all_at_gate r' /\ ready r' = tl (ready r) /\ ready r <> [] /\
               List.length (states r') = List.length (states r)
  | None => ready r = []
  end.
Proof.
  intros Hinv. unfold step. destruct (ready r) as [|i rest] eqn:Hready.
  - destruct Hinv as [_ Hall]. rewrite (earliest_at_gate _ _ Hall). reflexivity.
  - match goal with |- context [resume tasks i ?r0] =>
      destruct (resume_at_gate tasks r0 i Hinv) as (H1 & H2 & _ & H4)
    end.
    split; [exact H1|]. split; [exact H2|]. split; [discriminate | exact H4].
Qed.

Lemma not_done_at_gate (sts : list (TaskState Result)) :
  sts <> [] -> Forall (fun st => st = Pending \/ st = AtGate) sts ->
  forallb is_done sts = false.
Proof.
  intros Hne Hall. destruct sts as [|st sts]; [congruence|].
  inversion Hall as [|? ? [->| ->] _]; reflexivity.
Qed.

Lemma run_at_gate tasks fuel : forall r,
  all_at_gate r -> states r <> [] -> run_until_complete tasks fuel r = None.
Proof.
  induction fuel as [|fuel IH]; intros r Hinv Hne; simpl;
    rewrite (not_done_at_gate _ Hne (proj2 Hinv)); [reflexivity|].
  pose proof (step_at_gate tasks r Hinv) as Hstep.
  destruct (step tasks r) as [r'|]; [|reflexivity].
  destruct Hstep as (Hinv' & _ & _ & Hlen). apply IH; [exact Hinv'|].
  intros Hnil. rewrite Hnil in Hlen. destruct (states r); [congruence | discriminate].
Qed.

Lemma resume_at_gate_queue tasks r i :
  all_at_gate r -> (i < List.length tasks)%nat ->
  forall j, nth_error (states (resume tasks i r)) j = Some Pending ->
            j <> i /\ nth_error (states r) j = Some Pending.
Proof.
  intros [Hv Hall] Hi j. unfold resume.
  destruct (nth_error tasks i) as [task|] eqn:Htask;
    [|apply nth_error_None in Htask; lia].
  destruct (nth_error (states r) i) as [st|] eqn:Hst.
  - pose proof (nth_error_In _ _ Hst) as Hin.
    rewrite Forall_forall in Hall. destruct (Hall st Hin) as [->| ->].
    + unfold acquire. rewrite Hv. simpl. intros Hj.
      destruct (Nat.eq_dec i j) as [->|Hne].
      * apply nth_error_set_nth_same in Hj. discriminate.
      * rewrite nth_error_set_nth_neq in Hj by exact Hne. split; [congruence | exact Hj].
    + intros Hj. split; [|exact Hj]. intros ->. congruence.
  - intros Hj. split; [|exact Hj]. intros ->. congruence.
Qed.

Lemma turns_at_gate tasks : forall queue r,
  all_at_gate r -> ready r = queue ->
  Forall (fun i => (i < List.length tasks)%nat) queue ->
  (forall j, nth_error (states r) j = Some Pending -> In j queue) ->
  exists r', turns tasks (List.length queue) r = Some r' /\
             all_at_gate r' /\ step tasks r' = None /\
             forall j, nth_error (states r') j <> Some Pending.
Proof.
  induction queue as [|i rest IH]; intros r Hinv Hready Hrange Hqueued.
  - exists r. simpl. split; [reflexivity|]. split; [exact Hinv|]. split.
    + pose proof (step_at_gate tasks r Hinv) as Hstep.
      destruct (step tasks r) as [r'|]; [|reflexivity].
      destruct Hstep as (_ & _ & Hne & _). congruence.
    + intros j Hj. apply (Hqueued j Hj).
  - inversion Hrange as [|? ? Hi Hrange']; subst. simpl.
    unfold step. rewrite Hready.
    match goal with |- context [resume tasks i ?r0] =>
      destruct (resume_at_gate tasks r0 i Hinv) as (H1 & H2 & _ & _);
      pose proof (resume_at_gate_queue tasks r0 i Hinv Hi) as H3
    end.
    apply IH; [exact H1 | exact H2 | exact Hrange' |].
    intros j Hj. destruct (H3 j Hj) as [Hne Hold].
    destruct (Hqueued j Hold) as [Heq|Hin]; [congruence | exact Hin].
Qed.

Lemma turns_all_at_gate tasks k : forall r r',
  all_at_gate r -> turns tasks k r = Some r' -> all_at_gate r'.
Proof.
  induction k as [|k IH]; intros r r' Hinv H; simpl in H.
  - inversion H; subst. exact Hinv.
  - pose proof (step_at_gate tasks r Hinv) as Hstep.
    destruct (step tasks r) as [r1|]; [|discriminate].
    apply (IH r1 r'); [apply Hstep | exact H].
Qed.

Lemma launch_at_gate (self : TaskScheduler Result) tasks start :
  sem_value (semaphore self) = O -> all_at_gate (launch self tasks start).
Proof.
  intros Hv. split; [exact Hv|]. simpl.
  apply Forall_forall. intros st Hin. apply in_map_iff in Hin.
  destruct Hin as (t & <- & _). left. reflexivity.
Qed.

(** X9. A scheduler built with [max_parallel = 0] never runs anything:
    whatever the tasks, no operation is ever called, after one turn of
    the event loop per task every task is suspended at the semaphore
    and the loop has nothing left to wake, and so the call of
    [schedule_and_execute] never returns. *)
Theorem X9_no_slot_no_progress tasks (start : time) :
  tasks <> [] ->
  let r0 := launch (TaskScheduler_init 0) (sorted tasks) start in
  (forall fuel, schedule_and_execute (TaskScheduler_init 0) tasks start fuel = None) /\
  (forall k r st,
      turns (sorted tasks) k r0 = Some r -> In st (states r) -> invoked st = false) /\
  (exists r,
      turns (sorted tasks) (List.length tasks) r0 = Some r /\
      step (sorted tasks) r = None /\
      forall st, In st (states r) -> st = AtGate).
Proof.
  intros Hne r0.
  assert (Hinv : all_at_gate r0) by (apply launch_at_gate; reflexivity).
  split; [|split].
  - intros fuel. unfold schedule_and_execute.
    fold r0. rewrite run_at_gate; [reflexivity | exact Hinv |].
    unfold r0. simpl. intros Hnil. apply map_eq_nil in Hnil.
    apply Hne. apply length_zero_iff_nil. rewrite <- sorted_length, Hnil. reflexivity.
  - intros k r st Hturns Hin.
    destruct (turns_all_at_gate _ _ _ _ Hinv Hturns) as [_ Hall].
    rewrite Forall_forall in Hall. destruct (Hall st Hin) as [->| ->]; reflexivity.
  - destruct (turns_at_gate (sorted tasks) (ready r0) r0 Hinv eq_refl)
      as (r & Hturns & [Hv Hall] & Hstep & Hnone).
    + unfold r0. simpl. apply Forall_forall. intros i Hi. apply in_seq in Hi. lia.
    + unfold r0. simpl. intros j Hj. apply in_seq.
      assert (Hlt : (j < List.length (map (fun _ : AgentTask Payload Result =>
                                            @Pending Result) (sorted tasks)))%nat)
        by (apply nth_error_Some; congruence).
      rewrite length_map in Hlt. lia.
    + exists r. unfold r0 in Hturns at 1. simpl in Hturns.
      rewrite length_seq, sorted_length in Hturns.
      split; [exact Hturns|]. split; [exact Hstep|].
      intros st Hin. rewrite Forall_forall in Hall.
      destruct (Hall st Hin) as [->|Hst]; [|exact Hst]. exfalso.
      apply In_nth_error in Hin. destruct Hin as [j Hj]. apply (Hnone j Hj).
Qed.

(** *** The slots after a run *)

Lemma count_if_done (sts : list (TaskState Result)) :
  forallb is_done sts = true -> count_if holds_slot sts = O.
Proof.
  unfold count_if. induction sts as [|st sts IH]; simpl; [reflexivity|].
  intros H. apply andb_true_iff in H. destruct H as [Hst Hsts].
  destruct st; try discriminate; simpl; apply IH; exact Hsts.
Qed.

Lemma gate_inv_done r capacity :
  gate_inv capacity r -> forallb is_done (states r) = true ->
  semaphore (sched r) = {| sem_value := capacity; sem_waiters := [] |}.
Proof.
  intros [Hslots [_ Hw]] Hdone. unfold slots, slot_holders in Hslots.
  rewrite (count_if_done _ Hdone), Nat.add_0_r in Hslots.
  destruct (semaphore (sched r)) as [v ws]. simpl in *. subst v.
  destruct ws as [|w ws]; [reflexivity|]. exfalso.
  specialize (Hw w (or_introl eq_refl)).
  rewrite forallb_forall in Hdone.
  specialize (Hdone _ (nth_error_In _ _ Hw)). discriminate.
Qed.

(** X10. Every slot taken during a run is given back, whether the
    tasks returned or raised: when [schedule_and_execute] ends on a
    scheduler whose semaphore had no task queued, the semaphore is as
    it was before the call, with the same number of free slots and an
    empty queue. *)
Theorem X10_slots_given_back (self : TaskScheduler Result) tasks (start : time)
    (fuel : nat) (answer : Exc (Results Result)) (self' : TaskScheduler Result) :
  sem_waiters (semaphore self) = [] ->
  schedule_and_execute self tasks start fuel = Some (answer, self') ->
  semaphore self' = semaphore self.
Proof.
  intros Hq Hrun. unfold schedule_and_execute in Hrun.
  destruct (run_until_complete (sorted tasks) fuel (launch self (sorted tasks) start))
    as [r|] eqn:Hloop; [|discriminate].
  destruct (run_until_complete_turns _ _ _ _ Hloop) as (k & Hturns & Hdone).
  pose proof (turns_gate _ _ _ _ _ (launch_gate self (sorted tasks) start Hq) Hturns)
    as Hgate.
  pose proof (gate_inv_done _ _ Hgate Hdone) as Hsem.
  assert (Hself : semaphore (sched r) = semaphore self).
  { rewrite Hsem. destruct (semaphore self) as [v ws]. simpl in *. subst ws. reflexivity. }
  destruct (failures_of (states r)); inversion Hrun; subst; exact Hself.
Qed.

(** *** The wait, whatever the other tasks do *)

Lemma wait_loop_ends (view : nat -> TaskScheduler Result) deps start_time :
  forall fuel k,
    (k <= 3001)%nat -> (3001 < k + fuel)%nat ->
    exists k' answer,
      wait_loop fuel view deps start_time k = Some (k', answer) /\
      (k <= k' <= 3001)%nat /\
      (answer = None <->
       forall dep, In dep deps -> stage_in dep (completed_stages (view k')) = true) /\
      (forall j, (k <= j < k')%nat ->
                 exists dep, In dep deps /\
                             stage_in dep (completed_stages (view j)) = false).
Proof.
  induction fuel as [|fuel IH]; intros k Hk Hfuel; [lia|].
  simpl. unfold wait_poll.
  destruct (forallb (fun d => stage_in d (completed_stages (view k))) deps) eqn:Hall.
  - exists k, None. split; [reflexivity|]. split; [lia|]. split; [|intros j Hj; lia].
    split; [|reflexivity]. intros _. rewrite forallb_forall in Hall. exact Hall.
  - assert (Hmissing : exists dep, In dep deps /\
                         stage_in dep (completed_stages (view k)) = false).
    { clear -Hall. induction deps as [|d deps IH]; simpl in Hall; [discriminate|].
      destruct (stage_in d (completed_stages (view k))) eqn:Hd.
      - destruct (IH Hall) as (dep & Hin & Hdep). exists dep. split; [right|]; assumption.
      - exists d. split; [left; reflexivity | exact Hd]. }
    assert (Hnot : forall e : Failure,
               Some e = None <->
               (forall dep, In dep deps ->
                            stage_in dep (completed_stages (view k)) = true)).
    { intros e. split; [discriminate|]. intros Hyes.
      destruct Hmissing as (dep & Hin & Hdep). rewrite (Hyes dep Hin) in Hdep.
      discriminate. }
    destruct (filter (fun d => stage_in d (failed_stages (view k))) deps) as [|d ds].
    + replace (start_time + Z.of_nat k * POLL - start_time) with (Z.of_nat k * POLL)
        by lia.
      destruct (TIMEOUT <? Z.of_nat k * POLL) eqn:Hlate.
      * eexists. eexists. split; [reflexivity|]. split; [lia|].
        split; [apply Hnot | intros j Hj; lia].
      * apply Z.ltb_ge in Hlate. unfold TIMEOUT, POLL in Hlate.
        destruct (IH (S k)) as (k' & answer & Hloop & Hrange & Hanswer & Hbefore);
          [lia | lia |].
        exists k', answer. split; [exact Hloop|]. split; [lia|]. split; [exact Hanswer|].
        intros j Hj. destruct (Nat.eq_dec j k) as [->|Hne]; [exact Hmissing|].
        apply Hbefore. lia.
    + eexists. eexists. split; [reflexivity|]. split; [lia|].
      split; [apply Hnot | intros j Hj; lia].
Qed.

(** X11. The wait for the prerequisites always ends, whatever the
    other tasks do to the scheduler meanwhile: no later than the check
    made 3001 sleeps of 0.1 s after the entry. It returns normally
    exactly when, at the check that ends it, every prerequisite is in
    [completed_stages], and it raises otherwise; at every earlier
    check some prerequisite was missing. *)
Theorem X11_wait_always_ends (view : nat -> TaskScheduler Result)
    (deps : list AgentStage) (start_time : time) :
  exists k answer,
    _wait_for_dependencies 3002 view deps start_time = Some (k, answer) /\
    Z.of_nat k * POLL <= TIMEOUT + POLL /\
    (answer = None <->
     forall dep, In dep deps -> stage_in dep (completed_stages (view k)) = true) /\
    (forall j, (j < k)%nat ->
               exists dep, In dep deps /\ stage_in dep (completed_stages (view j)) = false).
Proof.
  destruct deps as [|d deps].
  - exists O, None. split; [reflexivity|]. split; [unfold POLL, TIMEOUT; lia|].
    split; [|intros j Hj; lia]. split; [intros _ dep []|reflexivity].
  - destruct (wait_loop_ends view (d :: deps) start_time 3002 0)
      as (k & answer & Hloop & Hrange & Hanswer & Hbefore); [lia | lia |].
    exists k, answer. split; [exact Hloop|].
    split; [unfold POLL, TIMEOUT; lia|]. split; [exact Hanswer|].
    intros j Hj. apply Hbefore. lia.
Qed.

(** *** Prerequisites, on any graph *)

(** X12. On any list of tasks, at any capacity and at every turn of
    the event loop of a run started on a new scheduler: a task whose
    operation has been called has each of its prerequisites in
    [completed_stages], and each of them is the stage of a task of the
    list whose operation can return. So a task with a prerequisite
    that no task of the list produces never has its operation
    called. *)
Theorem X12_operation_called_after_prerequisites
    (capacity : nat) tasks (start : time) (k : nat) r (i : nat) task st :
  turns (sorted tasks) k (launch (TaskScheduler_init capacity) (sorted tasks) start)
  = Some r ->
  nth_error (sorted tasks) i = Some task ->
  nth_error (states r) i = Some st ->
  invoked st = true ->
  forall dep, In dep (dependencies task) ->
    stage_in dep (completed_stages (sched r)) = true /\
    exists producer context result,
      In producer tasks /\ stage producer = dep /\
      outcome (agent_func producer (input_data producer) context) = Return result.
Proof.
  intros Hturns Htask Hst Hinvoked dep Hdep.
  pose proof (turns_deps (sorted tasks) k _ _
                (launch_deps (TaskScheduler_init capacity) (sorted tasks) start) Hturns)
    as Hdeps.
  pose proof (turns_origin _ (sorted tasks) k _ _
                (launch_origin (TaskScheduler_init capacity) (sorted tasks) start) Hturns)
    as [_ Horigin].
  pose proof (Hdeps i task st Htask Hst Hinvoked dep Hdep) as Hdone.
  split; [exact Hdone|].
  destruct (Horigin dep Hdone) as [Habs|(j & producer & context & result & Hj & Hstg & Hout)].
  - discriminate.
  - exists producer, context, result. split; [|split; assumption].
    apply (Permutation_in _ (sorted_perm tasks)). apply (nth_error_In _ _ Hj).
Qed.

(** *** What the tasks leave in the shared state *)

Lemma map_set_nth {A B} (f : A -> B) i x l :
  map f (set_nth i x l) = set_nth i (f x) (map f l).
Proof.
  revert i. induction l as [|y l IH]; intros [|i]; simpl; auto. rewrite IH. reflexivity.
Qed.

Lemma set_nth_same {A} i (x : A) l : nth_error l i = Some x -> set_nth i x l = l.
Proof.
  revert i. induction l as [|y l IH]; intros [|i]; simpl; try discriminate.
  - congruence.
  - intros H. rewrite (IH i H). reflexivity.
Qed.

Lemma finals_set_state r i st st' :
  nth_error (states r) i = Some st -> final st = None -> final st' = None ->
  finals (set_state i st' r) = finals r.
Proof.
  intros Hst Hf Hf'. unfold finals. simpl. rewrite map_set_nth, Hf'.
  apply set_nth_same. rewrite nth_error_map, Hst. simpl. rewrite Hf. reflexivity.
Qed.

Lemma finals_nth r i st :
  nth_error (states r) i = Some st -> nth_error (finals r) i = Some (final st).
Proof. intros H. unfold finals. rewrite nth_error_map, H. reflexivity. Qed.

Lemma finals_completed r i result :
  nth_error (finals r) i = Some (Some (inl result)) <->
  nth_error (states r) i = Some (Completed result).
Proof.
  unfold finals. rewrite nth_error_map.
  destruct (nth_error (states r) i) as [[]|]; simpl; split; intros H;
    try discriminate; congruence.
Qed.

Lemma finals_failed r i e :
  nth_error (finals r) i = Some (Some (inr e)) <->
  nth_error (states r) i = Some (Failed e).
Proof.
  unfold finals. rewrite nth_error_map.
  destruct (nth_error (states r) i) as [[]|]; simpl; split; intros H;
    try discriminate; congruence.
Qed.

Lemma waiters_ok_set_state r i st st' (s : TaskScheduler Result) :
  waiters_ok r -> nth_error (states r) i = Some st -> st <> AtGate ->
  semaphore s = semaphore (sched r) ->
  waiters_ok (set_state i st' (set_sched s r)).
Proof.
  intros [Hnd Hw] Hst Hne Hsem. unfold waiters_ok. simpl. rewrite Hsem.
  split; [exact Hnd|]. intros w Hin.
  rewrite nth_error_set_nth_neq; [apply Hw; exact Hin|].
  intros ->. apply Hw in Hin. congruence.
Qed.

Lemma release_quiet r :
  waiters_ok r ->
  completed_stages (sched (release r)) = completed_stages (sched r) /\
  results (sched (release r)) = results (sched r) /\
  failed_stages (sched (release r)) = failed_stages (sched r) /\
  finals (release r) = finals r.
Proof.
  intros [_ Hw]. unfold release.
  destruct (sem_waiters (semaphore (sched r))) as [|w ws]; [repeat split|].
  simpl. repeat split.
  unfold finals. simpl. rewrite map_set_nth. apply set_nth_same.
  rewrite nth_error_map, (Hw w (or_introl eq_refl)). reflexivity.
Qed.

Lemma effect_from tasks r r1 r' :
  completed_stages (sched r1) = completed_stages (sched r) ->
  results (sched r1) = results (sched r) ->
  failed_stages (sched r1) = failed_stages (sched r) ->
  finals r1 = finals r ->
  effect tasks r1 r' -> effect tasks r r'.
Proof.
  intros Hc Hr Hf Hfin [Hc' Hr' Hf' Hfin'|i task o Htask Hopen Hfin' Hrec].
  - apply effect_none; congruence.
  - apply (effect_done tasks r r' i task o); [exact Htask | congruence | congruence |].
    destruct o; simpl in *; rewrite <- Hc, <- Hr, <- Hf; exact Hrec.
Qed.

Lemma invoke_effect tasks r i task st :
  nth_error (states r) i = Some st -> final st = None ->
  effect tasks r (invoke i task r).
Proof.
  intros Hst Hf. unfold invoke. apply effect_none; try reflexivity.
  apply (finals_set_state r i st _ Hst Hf). reflexivity.
Qed.

Lemma fail_task_effect tasks r i task e st :
  waiters_ok r -> nth_error tasks i = Some task ->
  nth_error (states r) i = Some st -> final st = None -> st <> AtGate ->
  effect tasks r (fail_task i task e r).
Proof.
  intros Hw Htask Hst Hf Hne. unfold fail_task.
  match goal with |- effect _ _ (release ?r1) =>
    assert (Hw1 : waiters_ok r1)
      by (apply (waiters_ok_set_state r i st); auto);
    destruct (release_quiet r1 Hw1) as (Hc & Hr & Hfl & Hfin)
  end.
  apply (effect_done tasks r _ i task (inr e)); [exact Htask | | |].
  - rewrite (finals_nth r i st Hst), Hf. reflexivity.
  - rewrite Hfin. exact (map_set_nth final i (Failed e) (states r)).
  - simpl. rewrite Hc, Hr, Hfl. simpl. repeat split.
Qed.

Lemma settle_effect tasks r i task settled st :
  waiters_ok r -> nth_error tasks i = Some task ->
  nth_error (states r) i = Some st -> final st = None -> st <> AtGate ->
  effect tasks r (settle i task settled r).
Proof.
  intros Hw Htask Hst Hf Hne. destruct settled as [result|msg]; simpl;
    [|apply (fail_task_effect tasks r i task _ st); assumption].
  match goal with |- effect _ _ (release ?r1) =>
    assert (Hw1 : waiters_ok r1)
      by (apply (waiters_ok_set_state r i st); auto);
    destruct (release_quiet r1 Hw1) as (Hc & Hr & Hfl & Hfin)
  end.
  apply (effect_done tasks r _ i task (inl result)); [exact Htask | | |].
  - rewrite (finals_nth r i st Hst), Hf. reflexivity.
  - rewrite Hfin. exact (map_set_nth final i (Completed result) (states r)).
  - simpl. rewrite Hc, Hr, Hfl. simpl. repeat split.
Qed.

Lemma check_dependencies_effect tasks r i task start_time st :
  waiters_ok r -> nth_error tasks i = Some task ->
  nth_error (states r) i = Some st -> final st = None -> st <> AtGate ->
  effect tasks r (check_dependencies i task start_time r).
Proof.
  intros Hw Htask Hst Hf Hne. unfold check_dependencies.
  destruct (wait_poll (sched r) (dependencies task) start_time (now r)).
  - apply (invoke_effect tasks r i task st Hst Hf).
  - apply effect_none; try reflexivity.
    apply (finals_set_state r i st _ Hst Hf). reflexivity.
  - apply (fail_task_effect tasks r i task _ st); assumption.
Qed.

Lemma enter_wait_effect tasks r i task st :
  waiters_ok r -> nth_error tasks i = Some task ->
  nth_error (states r) i = Some st -> final st = None -> st <> AtGate ->
  effect tasks r (enter_wait i task r).
Proof.
  intros Hw Htask Hst Hf Hne. unfold enter_wait. destruct (dependencies task).
  - apply (invoke_effect tasks r i task st Hst Hf).
  - apply (check_dependencies_effect tasks r i task _ st); assumption.
Qed.

Lemma acquire_effect tasks r i task :
  waiters_ok r -> nth_error tasks i = Some task ->
  nth_error (states r) i = Some Pending ->
  effect tasks r (acquire i task r).
Proof.
  intros Hw Htask Hst. unfold acquire.
  assert (Hqueue : forall sem,
             effect tasks r
               (set_state i AtGate (set_sched (set_semaphore sem (sched r)) r))).
  { intros sem. apply effect_none; try reflexivity.
    apply (finals_set_state (set_sched (set_semaphore sem (sched r)) r) i Pending);
      [exact Hst | reflexivity | reflexivity]. }
  destruct (sem_value (semaphore (sched r))) as [|v]; [apply Hqueue|].
  destruct (sem_waiters (semaphore (sched r))) as [|w ws]; [|apply Hqueue].
  match goal with |- effect _ _ (enter_wait _ _ ?r1) =>
    apply (effect_from tasks r r1); try reflexivity;
    apply (enter_wait_effect tasks r1 i task Pending)
  end; try assumption; try reflexivity; try discriminate.
  split; simpl; [constructor | intros w []].
Qed.

Lemma resume_effect tasks r i :
  waiters_ok r -> effect tasks r (resume tasks i r).
Proof.
  intros Hw. unfold resume.
  destruct (nth_error tasks i) as [task|] eqn:Htask; [|apply effect_none; reflexivity].
  destruct (nth_error (states r) i) as [st|] eqn:Hst; [|apply effect_none; reflexivity].
  destruct st; try (apply effect_none; reflexivity).
  - apply acquire_effect; assumption.
  - apply (enter_wait_effect tasks r i task Granted); auto. discriminate.
  - apply (check_dependencies_effect tasks r i task _ (Waiting start_time wake)); auto.
    discriminate.
  - apply (settle_effect tasks r i task _ (Running finish settled)); auto. discriminate.
Qed.

Lemma step_effect tasks r r' :
  waiters_ok r -> step tasks r = Some r' -> effect tasks r r'.
Proof.
  intros Hw. unfold step. destruct (ready r) as [|i rest].
  - destruct (earliest 0 (states r)) as [[t due]|]; [|discriminate].
    intros H. inversion H; subst. apply effect_none; reflexivity.
  - intros H. inversion H; subst.
    match goal with |- effect _ _ (resume _ _ ?r1) =>
      apply (effect_from tasks r r1); try reflexivity; apply resume_effect; exact Hw
    end.
Qed.

Lemma finals_after_done (l : list (option (Result + Failure))) i o j x :
  nth_error l i = Some None ->
  nth_error (set_nth i (Some o) l) j = Some (Some x) ->
  (j = i /\ x = o) \/ (j <> i /\ nth_error l j = Some (Some x)).
Proof.
  intros Hopen Hj. destruct (Nat.eq_dec i j) as [->|Hne].
  - left. apply nth_error_set_nth_same in Hj. split; congruence.
  - right. rewrite nth_error_set_nth_neq in Hj by exact Hne. split; congruence.
Qed.

Lemma finals_before_done (l : list (option (Result + Failure))) i o j x :
  nth_error l i = Some None ->
  nth_error l j = Some (Some x) ->
  nth_error (set_nth i (Some o) l) j = Some (Some x).
Proof.
  intros Hopen Hj. rewrite nth_error_set_nth_neq; [exact Hj|].
  intros ->. congruence.
Qed.

Lemma ledger_effect (self0 : TaskScheduler Result) tasks r r' :
  ledger self0 tasks r -> effect tasks r r' -> ledger self0 tasks r'.
Proof.
  intros (Hlen & Hok & Hko & Hfrom_ok & Hfrom_ko)
         [Hc Hr Hf Hfin|i task o Htask Hopen Hfin Hrec].
  - unfold ledger. rewrite Hc, Hr, Hf, Hfin.
    exact (conj Hlen (conj Hok (conj Hko (conj Hfrom_ok Hfrom_ko)))).
  - unfold ledger. rewrite Hfin. split; [rewrite set_nth_length; exact Hlen|].
    split; [|split; [|split]].
    + intros j task_j result Htask_j Hj.
      destruct (finals_after_done _ _ _ _ _ Hopen Hj) as [[-> <-]|[Hne Hold]].
      * rewrite Htask in Htask_j. inversion Htask_j; subst task_j.
        destruct Hrec as (-> & -> & _). split.
        -- apply stage_in_add. left. reflexivity.
        -- rewrite dict_get_set.
           destruct (AgentStage_eq_dec (stage task) (stage task)); congruence.
      * destruct (Hok j task_j result Htask_j Hold) as [H1 H2].
        destruct o as [res|e]; destruct Hrec as (-> & -> & _); [|split; assumption].
        split.
        -- apply stage_in_add. right. exact H1.
        -- rewrite dict_get_set.
           destruct (AgentStage_eq_dec (stage task) (stage task_j));
             [discriminate | exact H2].
    + intros j task_j e Htask_j Hj.
      destruct (finals_after_done _ _ _ _ _ Hopen Hj) as [[-> <-]|[Hne Hold]].
      * rewrite Htask in Htask_j. inversion Htask_j; subst task_j.
        destruct Hrec as (_ & _ & ->). apply stage_in_add. left. reflexivity.
      * pose proof (Hko j task_j e Htask_j Hold) as H1.
        destruct o as [res|e']; destruct Hrec as (_ & _ & ->); [exact H1|].
        apply stage_in_add. right. exact H1.
    + intros stg Hstg.
      assert (Hcases : (exists result, o = inl result /\ stg = stage task) \/
                       stage_in stg (completed_stages (sched r)) = true).
      { destruct o as [res|e]; destruct Hrec as (Hc & _ & _); rewrite Hc in Hstg.
        - apply stage_in_add in Hstg. destruct Hstg as [->|Hstg]; [left|right; exact Hstg].
          exists res. split; reflexivity.
        - right. exact Hstg. }
      destruct Hcases as [(result & -> & ->)|Hold].
      * right. exists i, task, result. split; [exact Htask|]. split; [reflexivity|].
        apply (nth_error_set_nth_eq i _ None). exact Hopen.
      * destruct (Hfrom_ok stg Hold) as [H0|(j & task_j & result & H1 & H2 & H3)];
          [left; exact H0|].
        right. exists j, task_j, result. split; [exact H1|]. split; [exact H2|].
        apply finals_before_done; assumption.
    + intros stg Hstg.
      assert (Hcases : (exists e, o = inr e /\ stg = stage task) \/
                       stage_in stg (failed_stages (sched r)) = true).
      { destruct o as [res|e]; destruct Hrec as (_ & _ & Hf); rewrite Hf in Hstg.
        - right. exact Hstg.
        - apply stage_in_add in Hstg. destruct Hstg as [->|Hstg]; [left|right; exact Hstg].
          exists e. split; reflexivity. }
      destruct Hcases as [(e & -> & ->)|Hold].
      * right. exists i, task, e. split; [exact Htask|]. split; [reflexivity|].
        apply (nth_error_set_nth_eq i _ None). exact Hopen.
      * destruct (Hfrom_ko stg Hold) as [H0|(j & task_j & e & H1 & H2 & H3)];
          [left; exact H0|].
        right. exists j, task_j, e. split; [exact H1|]. split; [exact H2|].
        apply finals_before_done; assumption.
Qed.

Lemma agree_effect tasks r r' :
  agree (sched r) -> effect tasks r r' -> agree (sched r').
Proof.
  intros Hagree [Hc Hr Hf Hfin|i task o Htask Hopen Hfin Hrec] stg.
  - rewrite Hc, Hr. apply Hagree.
  - destruct o as [res|e]; destruct Hrec as (-> & -> & _); [|apply Hagree].
    rewrite dict_get_set, stage_in_add.
    destruct (AgentStage_eq_dec (stage task) stg) as [<-|Hne].
    + split; [intros _; left; reflexivity | discriminate].
    + rewrite (Hagree stg). split; [intros H; right; exact H|].
      intros [->|H]; [congruence | exact H].
Qed.

Lemma one_task_per_stage tasks i j (a b : AgentTask Payload Result) :
  NoDup (map stage tasks) ->
  nth_error tasks i = Some a -> nth_error tasks j = Some b ->
  stage a = stage b -> i = j.
Proof.
  intros Hnd Ha Hb Hstage.
  apply (proj1 (NoDup_nth_error (map stage tasks)) Hnd).
  - rewrite length_map. apply nth_error_Some. congruence.
  - rewrite !nth_error_map, Ha, Hb. simpl. congruence.
Qed.

Lemma values_effect tasks r r' :
  NoDup (map stage tasks) ->
  values_kept tasks r -> effect tasks r r' -> values_kept tasks r'.
Proof.
  intros Hnd Hval [Hc Hr Hf Hfin|i task o Htask Hopen Hfin Hrec] j task_j result Htask_j Hj.
  - rewrite Hr. rewrite Hfin in Hj. apply (Hval j task_j result Htask_j Hj).
  - rewrite Hfin in Hj.
    destruct (finals_after_done _ _ _ _ _ Hopen Hj) as [[-> <-]|[Hne Hold]].
    + rewrite Htask in Htask_j. inversion Htask_j; subst task_j.
      destruct Hrec as (_ & -> & _). rewrite dict_get_set.
      destruct (AgentStage_eq_dec (stage task) (stage task)); congruence.
    + pose proof (Hval j task_j result Htask_j Hold) as H1.
      destruct o as [res|e]; destruct Hrec as (_ & -> & _); [|exact H1].
      rewrite dict_get_set.
      destruct (AgentStage_eq_dec (stage task) (stage task_j)) as [Heq|_]; [|exact H1].
      exfalso. apply Hne. symmetry.
      apply (one_task_per_stage tasks i j task task_j Hnd Htask Htask_j Heq).
Qed.

Lemma results_effect (self0 : TaskScheduler Result) tasks r r' :
  results_from self0 tasks r -> effect tasks r r' -> results_from self0 tasks r'.
Proof.
  intros Hfrom [Hc Hr Hf Hfin|i task o Htask Hopen Hfin Hrec] stg.
  - rewrite Hr, Hfin. apply Hfrom.
  - rewrite Hfin.
    assert (Hold : dict_get (results (sched r)) stg = dict_get (results self0) stg \/
                   exists j task_j result,
                     nth_error tasks j = Some task_j /\ stage task_j = stg /\
                     nth_error (set_nth i (Some o) (finals r)) j = Some (Some (inl result)) /\
                     dict_get (results (sched r)) stg = Some result).
    { destruct (Hfrom stg) as [H|(j & task_j & result & H1 & H2 & H3 & H4)];
        [left; exact H|].
      right. exists j, task_j, result. split; [exact H1|]. split; [exact H2|].
      split; [|exact H4]. apply finals_before_done; assumption. }
    destruct o as [res|e]; destruct Hrec as (_ & -> & _); [|exact Hold].
    rewrite dict_get_set. destruct (AgentStage_eq_dec (stage task) stg) as [Heq|Hne].
    + right. exists i, task, res. split; [exact Htask|]. split; [exact Heq|].
      split; [|reflexivity]. apply (nth_error_set_nth_eq i _ None). exact Hopen.
    + exact Hold.
Qed.

Lemma turns_effect tasks (P : Run Result -> Prop) :
  (forall r r', effect tasks r r' -> P r -> P r') ->
  forall k capacity r r',
    gate_inv capacity r -> P r -> turns tasks k r = Some r' -> P r'.
Proof.
  intros Hstep. induction k as [|k IH]; intros capacity r r' Hgate HP H; simpl in H.
  - inversion H; subst. exact HP.
  - destruct (step tasks r) as [r1|] eqn:Hr1; [|discriminate].
    apply (IH capacity r1 r'); [| |exact H].
    + apply (step_gate tasks r r1 capacity Hgate Hr1).
    + apply (Hstep r r1); [|exact HP]. apply step_effect; [apply Hgate | exact Hr1].
Qed.

Lemma launch_finals (self : TaskScheduler Result) tasks start i x :
  nth_error (finals (launch self tasks start)) i <> Some (Some x).
Proof.
  unfold finals. simpl. rewrite map_map, nth_error_map.
  destruct (nth_error tasks i); discriminate.
Qed.

Lemma launch_ledger (self : TaskScheduler Result) tasks start :
  ledger self tasks (launch self tasks start).
Proof.
  unfold ledger. split; [unfold finals; simpl; rewrite !length_map; reflexivity|].
  split; [|split; [|split]].
  - intros i task result _ H. exfalso. apply (launch_finals _ _ _ _ _ H).
  - intros i task e _ H. exfalso. apply (launch_finals _ _ _ _ _ H).
  - intros stg H. left. exact H.
  - intros stg H. left. exact H.
Qed.

Lemma launch_values (self : TaskScheduler Result) tasks start :
  values_kept tasks (launch self tasks start).
Proof. intros i task result _ H. exfalso. apply (launch_finals _ _ _ _ _ H). Qed.

Lemma launch_results (self : TaskScheduler Result) tasks start :
  results_from self tasks (launch self tasks start).
Proof. intros stg. left. reflexivity. Qed.

Lemma agree_init capacity : agree (@TaskScheduler_init Result capacity).
Proof. intros stg. simpl. split; [congruence | discriminate]. Qed.

(** The state a finished run leaves, with the accounts that hold of it. *)
Lemma finished_run (self : TaskScheduler Result) tasks start fuel r :
  sem_waiters (semaphore self) = [] ->
  run_until_complete (sorted tasks) fuel (launch self (sorted tasks) start) = Some r ->
  forallb is_done (states r) = true /\
  ledger self (sorted tasks) r /\
  (agree self -> agree (sched r)) /\
  (NoDup (map stage tasks) -> values_kept (sorted tasks) r).
Proof.
  intros Hq Hloop.
  destruct (run_until_complete_turns _ _ _ _ Hloop) as (k & Hturns & Hdone).
  pose proof (launch_gate self (sorted tasks) start Hq) as Hgate.
  split; [exact Hdone|]. split; [|split].
  - apply (turns_effect (sorted tasks) (ledger self (sorted tasks))
             (fun r1 r2 He Hl => ledger_effect self (sorted tasks) r1 r2 Hl He)
             k _ _ r Hgate (launch_ledger self (sorted tasks) start) Hturns).
  - intros Hagree.
    apply (turns_effect (sorted tasks) (fun r => agree (sched r))
             (fun r1 r2 He Hl => agree_effect (sorted tasks) r1 r2 Hl He)
             k _ _ r Hgate Hagree Hturns).
  - intros Hnd.
    assert (Hnd' : NoDup (map stage (sorted tasks))).
    { apply (Permutation_NoDup (l := map stage tasks)); [|exact Hnd].
      apply Permutation_map. symmetry. apply sorted_perm. }
    apply (turns_effect (sorted tasks) (values_kept (sorted tasks))
             (fun r1 r2 He Hl => values_effect (sorted tasks) r1 r2 Hnd' Hl He)
             k _ _ r Hgate (launch_values self (sorted tasks) start) Hturns).
Qed.

Lemma no_failure_all_completed (sts : list (TaskState Result)) :
  forallb is_done sts = true -> failures_of sts = [] ->
  forall i st, nth_error sts i = Some st -> exists result, st = Completed result.
Proof.
  induction sts as [|st0 sts IH]; intros Hdone Hnone [|i] st Hst; simpl in *;
    try discriminate.
  - inversion Hst; subst st0. destruct st; try discriminate. exists result. reflexivity.
  - apply andb_true_iff in Hdone. destruct Hdone as [H0 Hdone].
    apply (IH Hdone) with i; [|exact Hst].
    destruct st0; try discriminate; exact Hnone.
Qed.

Lemma first_failure (sts : list (TaskState Result)) e rest :
  forallb is_done sts = true -> failures_of sts = e :: rest ->
  exists i, nth_error sts i = Some (Failed e) /\
            forall j st, (j < i)%nat -> nth_error sts j = Some st ->
                         exists result, st = Completed result.
Proof.
  induction sts as [|st0 sts IH]; intros Hdone Hfail; simpl in *; [discriminate|].
  apply andb_true_iff in Hdone. destruct Hdone as [H0 Hdone].
  destruct st0; try discriminate; simpl in Hfail.
  - destruct (IH Hdone Hfail) as (i & Hi & Hbefore).
    exists (S i). split; [exact Hi|].
    intros [|j] st Hj Hst; simpl in Hst.
    + inversion Hst. exists result. reflexivity.
    + apply (Hbefore j st); [lia | exact Hst].
  - inversion Hfail; subst. exists O. split; [reflexivity|]. intros j st Hj. lia.
Qed.

(** The entries a finished run leaves in [results]. *)
Lemma finished_results (self : TaskScheduler Result) tasks start fuel r :
  sem_waiters (semaphore self) = [] ->
  run_until_complete (sorted tasks) fuel (launch self (sorted tasks) start) = Some r ->
  state_kept self (sched r) /\ results_from self (sorted tasks) r.
Proof.
  intros Hq Hloop.
  destruct (run_until_complete_turns _ _ _ _ Hloop) as (k & Hturns & _).
  split.
  - exact (turns_kept _ _ _ _ Hturns).
  - apply (turns_effect (sorted tasks) (results_from self (sorted tasks))
             (fun r1 r2 He Hl => results_effect self (sorted tasks) r1 r2 Hl He)
             k _ _ r (launch_gate self (sorted tasks) start Hq)
             (launch_results self (sorted tasks) start) Hturns).
Qed.

(** C9, as amended. The shared state belongs to the scheduler object
    and not to a run: the constructor creates it empty and the
    coordinator builds a scheduler of its own when it is constructed,
    which is why its first run starts from empty state. A call of
    [schedule_and_execute] on a scheduler at rest, with no task queued
    at its semaphore, starts from the state the scheduler is in and
    leaves the scheduler [self'] it ends with, from which the next call
    starts.
    Every stage that was completed or failed before the call still is
    after it, and every key of [results] is still a key. The value
    under a stage is the one from before the call, or one that a task
    of this run with that stage returned; with one task per stage it is
    what that task returned, so a run replaces the stored result of a
    stage it completes again. The stages of no task of the run are
    left as they were, in the two sets and in [results]. *)
Theorem C9_state_lives_with_the_scheduler
    (self : TaskScheduler Result) tasks (start : time) (fuel : nat)
    (answer : Exc (Results Result)) (self' : TaskScheduler Result)
    (analyst api_documenter readme_creator : Agent Payload Result) :
  sem_waiters (semaphore self) = [] ->
  schedule_and_execute self tasks start fuel = Some (answer, self') ->
  (exists r,
      run_until_complete (sorted tasks) fuel (launch self (sorted tasks) start) = Some r /\
      sched (launch self (sorted tasks) start) = self /\
      sched r = self' /\
      state_kept self self' /\
      (forall stg,
          dict_get (results self') stg = dict_get (results self) stg \/
          exists i task result,
            nth_error (sorted tasks) i = Some task /\ stage task = stg /\
            nth_error (states r) i = Some (Completed result) /\
            dict_get (results self') stg = Some result) /\
      (NoDup (map stage tasks) ->
       forall i task result,
         nth_error (sorted tasks) i = Some task ->
         nth_error (states r) i = Some (Completed result) ->
         dict_get (results self') (stage task) = Some result) /\
      (forall stg,
          (forall task, In task tasks -> stage task <> stg) ->
          stage_in stg (completed_stages self') = stage_in stg (completed_stages self) /\
          stage_in stg (failed_stages self') = stage_in stg (failed_stages self) /\
          dict_get (results self') stg = dict_get (results self) stg)) /\
  (forall capacity,
      completed_stages (@TaskScheduler_init Result capacity) = [] /\
      failed_stages (@TaskScheduler_init Result capacity) = [] /\
      results (@TaskScheduler_init Result capacity) = []) /\
  scheduler (AgentCoordinator_init analyst api_documenter readme_creator)
  = TaskScheduler_init 3.
Proof.
  intros Hq Hrun. split; [|split; [intros; repeat split | reflexivity]].
  unfold schedule_and_execute in Hrun.
  destruct (run_until_complete (sorted tasks) fuel (launch self (sorted tasks) start))
    as [r|] eqn:Hloop; [|discriminate].
  assert (Hself : sched r = self')
    by (destruct (failures_of (states r)); inversion Hrun; reflexivity).
  clear Hrun. subst self'.
  destruct (finished_run self tasks start fuel r Hq Hloop)
    as (_ & (_ & _ & _ & Hfrom_ok & Hfrom_ko) & _ & Hvalues).
  destruct (finished_results self tasks start fuel r Hq Hloop) as [Hkept Hres].
  assert (Hin : forall i task, nth_error (sorted tasks) i = Some task -> In task tasks).
  { intros i task Hi. apply (Permutation_in _ (sorted_perm tasks)).
    apply (nth_error_In _ _ Hi). }
  exists r. split; [reflexivity|]. split; [reflexivity|]. split; [reflexivity|].
  split; [exact Hkept|]. split; [|split].
  - intros stg.
    destruct (Hres stg) as [H|(i & task & result & H1 & H2 & H3 & H4)]; [left; exact H|].
    right. exists i, task, result. split; [exact H1|]. split; [exact H2|].
    split; [apply finals_completed; exact H3 | exact H4].
  - intros Hnd i task result Htask Hst.
    apply (Hvalues Hnd i task result Htask). apply finals_completed. exact Hst.
  - intros stg Hnone. destruct Hkept as (Hkc & Hkf & _). split; [|split].
    + destruct (stage_in stg (completed_stages (sched r))) eqn:Hc.
      * destruct (Hfrom_ok stg Hc) as [H|(i & task & result & H1 & H2 & _)];
          [symmetry; exact H|].
        exfalso. apply (Hnone task (Hin i task H1) H2).
      * destruct (stage_in stg (completed_stages self)) eqn:Hc0; [|reflexivity].
        rewrite (Hkc stg Hc0) in Hc. discriminate.
    + destruct (stage_in stg (failed_stages (sched r))) eqn:Hf.
      * destruct (Hfrom_ko stg Hf) as [H|(i & task & e & H1 & H2 & _)];
          [symmetry; exact H|].
        exfalso. apply (Hnone task (Hin i task H1) H2).
      * destruct (stage_in stg (failed_stages self)) eqn:Hf0; [|reflexivity].
        rewrite (Hkf stg Hf0) in Hf. discriminate.
    + destruct (Hres stg) as [H|(i & task & result & H1 & H2 & _)]; [exact H|].
      exfalso. apply (Hnone task (Hin i task H1) H2).
Qed.

(** X13. When [schedule_and_execute] returns on a new scheduler, it
    returns the scheduler's own [results], no stage has failed, and the
    stages in [completed_stages], like the keys of the dictionary
    returned, are exactly the stages of the tasks given. *)
Theorem X13_a_run_that_returns
    (capacity : nat) tasks (start : time) (fuel : nat)
    (answer : Results Result) (self' : TaskScheduler Result) :
  schedule_and_execute (TaskScheduler_init capacity) tasks start fuel
  = Some (Return answer, self') ->
  answer = results self' /\
  failed_stages self' = [] /\
  (forall stg, stage_in stg (completed_stages self') = true <->
               exists task, In task tasks /\ stage task = stg) /\
  (forall stg, dict_get answer stg <> None <->
               exists task, In task tasks /\ stage task = stg).
Proof.
  intros Hrun. unfold schedule_and_execute in Hrun.
  destruct (run_until_complete (sorted tasks) fuel
              (launch (TaskScheduler_init capacity) (sorted tasks) start))
    as [r|] eqn:Hloop; [|discriminate].
  destruct (finished_run (TaskScheduler_init capacity) tasks start fuel r eq_refl Hloop)
    as (Hdone & (Hlen & Hok & Hko & Hfrom_ok & Hfrom_ko) & Hagree & _).
  specialize (Hagree (agree_init capacity)).
  destruct (failures_of (states r)) as [|e rest] eqn:Hfail; [|discriminate].
  inversion Hrun; subst answer self'. clear Hrun.
  pose proof (no_failure_all_completed _ Hdone Hfail) as Hall.
  assert (Hstages : forall stg, stage_in stg (completed_stages (sched r)) = true <->
                                exists task, In task tasks /\ stage task = stg).
  { intros stg. split.
    - intros Hstg. destruct (Hfrom_ok stg Hstg) as [H0|(i & task & result & Hi & Hs & _)];
        [discriminate|].
      exists task. split; [|exact Hs].
      apply (Permutation_in _ (sorted_perm tasks)). apply (nth_error_In _ _ Hi).
    - intros (task & Hin & <-).
      apply (Permutation_in _ (Permutation_sym (sorted_perm tasks))) in Hin.
      apply In_nth_error in Hin. destruct Hin as [i Hi].
      assert (Hlt : (i < List.length (states r))%nat).
      { unfold finals in Hlen. rewrite length_map in Hlen. rewrite Hlen.
        apply nth_error_Some. congruence. }
      destruct (nth_error (states r) i) as [st|] eqn:Hst;
        [|apply nth_error_None in Hst; lia].
      destruct (Hall i st Hst) as [result ->].
      apply (Hok i task result Hi). apply finals_completed. exact Hst. }
  split; [reflexivity|]. split; [|split; [exact Hstages|]].
  - destruct (failed_stages (sched r)) as [|stg rest] eqn:Hf; [reflexivity|]. exfalso.
    assert (Hstg : stage_in stg (stg :: rest) = true)
      by (apply stage_in_iff; left; reflexivity).
    destruct (Hfrom_ko stg Hstg) as [H0|(i & task & e & _ & _ & Hi)]; [discriminate|].
    apply finals_failed in Hi. destruct (Hall i _ Hi) as [result Habs]. discriminate.
  - intros stg. rewrite (Hagree stg). apply Hstages.
Qed.

(** X14. When [schedule_and_execute] raises, it does so only once
    every task is done, and the exception it raises carries the
    message of the exception with which the first task in launch order
    that raised ended: that task ended its run in the state [Failed e],
    the message is made from [e], and every task launched before it
    ended by returning. The stage of that task is in [failed_stages];
    the stages of the tasks launched before it are in
    [completed_stages] and have an entry in [results], although the
    caller gets none of them. Every task given has its stage in
    [completed_stages] or in [failed_stages]. *)
Theorem X14_a_run_that_raises
    (self : TaskScheduler Result) tasks (start : time) (fuel : nat)
    (msg : string) (self' : TaskScheduler Result) :
  sem_waiters (semaphore self) = [] ->
  schedule_and_execute self tasks start fuel = Some (Raise msg, self') ->
  exists r i task e,
    run_until_complete (sorted tasks) fuel (launch self (sorted tasks) start) = Some r /\
    sched r = self' /\
    forallb is_done (states r) = true /\
    nth_error (sorted tasks) i = Some task /\
    nth_error (states r) i = Some (Failed e) /\
    msg = ("Task execution failed: " ++ failure_str e)%string /\
    stage_in (stage task) (failed_stages self') = true /\
    (forall j earlier, (j < i)%nat -> nth_error (sorted tasks) j = Some earlier ->
       exists result,
         nth_error (states r) j = Some (Completed result) /\
         stage_in (stage earlier) (completed_stages self') = true /\
         dict_get (results self') (stage earlier) <> None) /\
    (forall task, In task tasks ->
       stage_in (stage task) (completed_stages self') = true \/
       stage_in (stage task) (failed_stages self') = true).
Proof.
  intros Hq Hrun. unfold schedule_and_execute in Hrun.
  destruct (run_until_complete (sorted tasks) fuel (launch self (sorted tasks) start))
    as [r|] eqn:Hloop; [|discriminate].
  destruct (finished_run _ tasks start fuel r Hq Hloop)
    as (Hdone & (Hlen & Hok & Hko & _ & _) & _ & _).
  destruct (failures_of (states r)) as [|e rest] eqn:Hfail; [discriminate|].
  inversion Hrun; subst msg self'. clear Hrun.
  destruct (first_failure _ e rest Hdone Hfail) as (i & Hi & Hbefore).
  unfold finals in Hlen. rewrite length_map in Hlen.
  destruct (nth_error (sorted tasks) i) as [task|] eqn:Htask.
  - exists r, i, task, e. split; [reflexivity|]. split; [reflexivity|].
    split; [exact Hdone|]. split; [exact Htask|]. split; [exact Hi|].
    split; [reflexivity|]. split; [|split].
    + apply (Hko i task e Htask). apply finals_failed. exact Hi.
    + intros j earlier Hj Hearlier.
      assert (Hlt : (j < List.length (states r))%nat).
      { rewrite Hlen. apply nth_error_Some. congruence. }
      destruct (nth_error (states r) j) as [st|] eqn:Hst;
        [|apply nth_error_None in Hst; lia].
      destruct (Hbefore j st Hj Hst) as [result ->].
      exists result. split; [reflexivity|].
      apply (Hok j earlier result Hearlier). apply finals_completed. exact Hst.
    + intros task0 Hin.
      apply (Permutation_in _ (Permutation_sym (sorted_perm tasks))) in Hin.
      apply In_nth_error in Hin. destruct Hin as [j Hj].
      assert (Hlt : (j < List.length (states r))%nat).
      { rewrite Hlen. apply nth_error_Some. congruence. }
      destruct (nth_error (states r) j) as [st|] eqn:Hst;
        [|apply nth_error_None in Hst; lia].
      rewrite forallb_forall in Hdone.
      pose proof (Hdone st (nth_error_In _ _ Hst)) as Hst_done.
      destruct st; try discriminate.
      * left. apply (Hok j task0 result Hj). apply finals_completed. exact Hst.
      * right. apply (Hko j task0 e0 Hj). apply finals_failed. exact Hst.
  - exfalso. apply nth_error_None in Htask.
    assert (i < List.length (states r))%nat by (apply nth_error_Some; congruence). lia.
Qed.

(** X15. With one task per stage on a new scheduler, at every turn of
    the event loop: the keys of [results] are the stages of
    [completed_stages], no stage is both completed and failed, and for
    every task that has returned [results] holds, under its stage, the
    value it returned. *)
Theorem X15_one_task_per_stage
    (capacity : nat) tasks (start : time) (k : nat) r :
  NoDup (map stage tasks) ->
  turns (sorted tasks) k (launch (TaskScheduler_init capacity) (sorted tasks) start)
  = Some r ->
  agree (sched r) /\
  (forall stg, stage_in stg (completed_stages (sched r)) = true ->
               stage_in stg (failed_stages (sched r)) = false) /\
  (forall i task result,
      nth_error (sorted tasks) i = Some task ->
      nth_error (states r) i = Some (Completed result) ->
      dict_get (results (sched r)) (stage task) = Some result).
Proof.
  intros Hnd Hturns.
  assert (Hnd' : NoDup (map stage (sorted tasks))).
  { apply (Permutation_NoDup (l := map stage tasks)); [|exact Hnd].
    apply Permutation_map. symmetry. apply sorted_perm. }
  pose proof (launch_gate (TaskScheduler_init capacity) (sorted tasks) start eq_refl)
    as Hgate.
  pose proof (turns_effect (sorted tasks) (ledger (TaskScheduler_init capacity) (sorted tasks))
                (fun r1 r2 He Hl => ledger_effect _ (sorted tasks) r1 r2 Hl He)
                k _ _ r Hgate (launch_ledger _ (sorted tasks) start) Hturns)
    as (_ & _ & _ & Hfrom_ok & Hfrom_ko).
  split; [|split].
  - apply (turns_effect (sorted tasks) (fun r => agree (sched r))
             (fun r1 r2 He Hl => agree_effect (sorted tasks) r1 r2 Hl He)
             k _ _ r Hgate (agree_init capacity) Hturns).
  - intros stg Hc.
    destruct (stage_in stg (failed_stages (sched r))) eqn:Hf; [exfalso|reflexivity].
    destruct (Hfrom_ok stg Hc) as [H0|(i & a & result & Hi & Ha & Hfi)]; [discriminate|].
    destruct (Hfrom_ko stg Hf) as [H0|(j & b & e & Hj & Hb & Hfj)]; [discriminate|].
    assert (i = j)
      by (apply (one_task_per_stage (sorted tasks) i j a b Hnd' Hi Hj); congruence).
    subst j. congruence.
  - intros i task result Htask Hst.
    pose proof (turns_effect (sorted tasks) (values_kept (sorted tasks))
                  (fun r1 r2 He Hl => values_effect (sorted tasks) r1 r2 Hnd' Hl He)
                  k _ _ r Hgate (launch_values _ (sorted tasks) start) Hturns) as Hval.
    apply (Hval i task result Htask). apply finals_completed. exact Hst.
Qed.

(** *** A prerequisite that nothing produces *)

Ltac turn := cbn -[Z.add Z.sub Z.compare Z.ltb POLL TIMEOUT wait_poll repr_values].

Lemma wait_poll_blank (s : TaskScheduler Result) d ds start_time t :
  completed_stages s = [] -> failed_stages s = [] ->
  wait_poll s (d :: ds) start_time t
  = if TIMEOUT <? t - start_time then Raised (TimeoutFailed (d :: ds)) else Sleep.
Proof.
  intros Hc Hf. unfold wait_poll. rewrite Hc, Hf.
  assert (E : forall x, stage_in x [] = false) by reflexivity.
  assert (H1 : forall l, filter (fun dep => stage_in dep []) l = []).
  { induction l as [|x l IH]; [reflexivity|]. cbn [filter]. rewrite E. exact IH. }
  assert (H2 : forall l, filter (fun dep => negb (stage_in dep [])) l = l).
  { induction l as [|x l IH]; [reflexivity|]. cbn [filter]. rewrite E. cbn [negb].
    rewrite IH. reflexivity. }
  cbn [forallb]. rewrite E. cbn [andb].
  rewrite H1, H2. reflexivity.
Qed.

Section LoneTask.

Variables (stg : AgentStage) (operation : Payload -> Results Result -> Settled Result).
Variables (d : AgentStage) (ds : list AgentStage) (payload : Payload) (rank : Z).
Variables (free : nat) (start : time).

Lemma lone_polling_turn wake t fuel :
  wake - start <= TIMEOUT ->
  run_until_complete [lone_task stg operation (d :: ds) payload rank] (2 + fuel) (lone_polling (S free) free start wake t)
  = run_until_complete [lone_task stg operation (d :: ds) payload rank] fuel
      (lone_polling (S free) free start (wake + POLL) wake).
Proof.
  intros Hearly. unfold lone_polling, lone_task, blank. turn.
  unfold check_dependencies. turn. rewrite wait_poll_blank by reflexivity.
  assert (Hel : (TIMEOUT <? wake - start) = false) by (apply Z.ltb_ge; lia).
  rewrite Hel. turn. reflexivity.
Qed.

Lemma lone_polling_end wake t :
  TIMEOUT < wake - start ->
  run_until_complete [lone_task stg operation (d :: ds) payload rank] 2 (lone_polling (S free) free start wake t)
  = Some {| sched := at_rest (S free) [] [stg] [];
            states := [Failed (TimeoutFailed (d :: ds))];
            ready := [];
            now := wake |}.
Proof.
  intros Hlate. unfold lone_polling, lone_task, blank. turn.
  unfold check_dependencies. turn. rewrite wait_poll_blank by reflexivity.
  assert (Hel : (TIMEOUT <? wake - start) = true) by (apply Z.ltb_lt; lia).
  rewrite Hel. turn. reflexivity.
Qed.

Lemma lone_polling_run n : forall wake t,
  wake = start + TIMEOUT + POLL - Z.of_nat n * POLL ->
  (n <= 3000)%nat ->
  run_until_complete [lone_task stg operation (d :: ds) payload rank] (2 * n + 2) (lone_polling (S free) free start wake t)
  = Some {| sched := at_rest (S free) [] [stg] [];
            states := [Failed (TimeoutFailed (d :: ds))];
            ready := [];
            now := start + TIMEOUT + POLL |}.
Proof.
  induction n as [|n IH]; intros wake t Hwake Hn.
  - rewrite lone_polling_end by (unfold TIMEOUT, POLL in *; lia).
    rewrite Hwake. simpl. rewrite Z.sub_0_r. reflexivity.
  - replace (2 * S n + 2)%nat with (2 + (2 * n + 2))%nat by lia.
    rewrite lone_polling_turn by (unfold TIMEOUT, POLL in *; lia).
    apply IH; [|lia]. unfold POLL in *. lia.
Qed.

Lemma lone_launch fuel :
  run_until_complete [lone_task stg operation (d :: ds) payload rank] (1 + fuel) (launch (TaskScheduler_init (S free)) [lone_task stg operation (d :: ds) payload rank] start)
  = run_until_complete [lone_task stg operation (d :: ds) payload rank] fuel
      (lone_polling (S free) free start (start + POLL) start).
Proof.
  unfold lone_polling, lone_task, blank. turn.
  unfold enter_wait, check_dependencies. turn. rewrite wait_poll_blank by reflexivity.
  assert (Hel : (TIMEOUT <? start - start) = false) by (rewrite Z.sub_diag; reflexivity).
  rewrite Hel. turn. reflexivity.
Qed.

Lemma lone_task_run :
  run_until_complete [lone_task stg operation (d :: ds) payload rank] (2 * 3001 + 1)
    (launch (TaskScheduler_init (S free)) [lone_task stg operation (d :: ds) payload rank] start)
  = Some {| sched := at_rest (S free) [] [stg] [];
            states := [Failed (TimeoutFailed (d :: ds))];
            ready := [];
            now := start + TIMEOUT + POLL |}.
Proof.
  replace (2 * 3001 + 1)%nat with (1 + (2 * 3000 + 2))%nat by lia.
  rewrite lone_launch. apply lone_polling_run; [|lia].
  unfold TIMEOUT, POLL. lia.
Qed.

End LoneTask.

(** *** A graph without a root *)

Lemma release_nothing_started r : nothing_started r -> nothing_started (release r).
Proof.
  intros (Hc & Hr & Hall). unfold release.
  destruct (sem_waiters (semaphore (sched r))) as [|w ws];
    [split; [|split]; assumption|].
  split; [exact Hc|]. split; [exact Hr|]. simpl.
  apply Forall_set_nth; [exact Hall | reflexivity].
Qed.

Lemma set_state_nothing_started r i st (s : TaskScheduler Result) :
  nothing_started r -> invoked st = false ->
  completed_stages s = completed_stages (sched r) -> results s = results (sched r) ->
  nothing_started (set_state i st (set_sched s r)).
Proof.
  intros (Hc & Hr & Hall) Hst Hc' Hr'. unfold nothing_started. simpl.
  rewrite Hc', Hr'. split; [exact Hc|]. split; [exact Hr|].
  apply Forall_set_nth; assumption.
Qed.

Lemma check_dependencies_nothing_started r i task start_time :
  nothing_started r -> dependencies task <> [] ->
  nothing_started (check_dependencies i task start_time r).
Proof.
  intros Hinv Hdeps. unfold check_dependencies.
  destruct (wait_poll (sched r) (dependencies task) start_time (now r)) eqn:Hpoll.
  - exfalso. destruct (dependencies task) as [|d ds]; [congruence|].
    pose proof (wait_poll_satisfied _ _ _ _ Hpoll d (or_introl eq_refl)) as Hd.
    destruct Hinv as (Hc & _). rewrite Hc in Hd. discriminate.
  - apply (set_state_nothing_started r i _ (sched r) Hinv); reflexivity.
  - unfold fail_task. apply release_nothing_started.
    apply (set_state_nothing_started r i); [exact Hinv | | reflexivity | reflexivity].
    apply (wait_poll_raised _ _ _ _ _ Hpoll).
Qed.

Lemma enter_wait_nothing_started r i task :
  nothing_started r -> dependencies task <> [] ->
  nothing_started (enter_wait i task r).
Proof.
  intros Hinv Hdeps. unfold enter_wait.
  destruct (dependencies task) as [|d ds] eqn:Hd; [congruence|].
  apply check_dependencies_nothing_started; [exact Hinv | rewrite Hd; discriminate].
Qed.

Lemma resume_nothing_started tasks r i :
  Forall (fun task => dependencies task <> []) tasks ->
  nothing_started r -> nothing_started (resume tasks i r).
Proof.
  intros Hrootless Hinv. unfold resume.
  destruct (nth_error tasks i) as [task|] eqn:Htask; [|exact Hinv].
  destruct (nth_error (states r) i) as [st|] eqn:Hst; [|exact Hinv].
  assert (Hdeps : dependencies task <> []).
  { rewrite Forall_forall in Hrootless. apply Hrootless. apply (nth_error_In _ _ Htask). }
  assert (Hquiet : invoked st = false).
  { destruct Hinv as (_ & _ & Hall). rewrite Forall_forall in Hall.
    apply Hall. apply (nth_error_In _ _ Hst). }
  destruct st; try exact Hinv; try discriminate.
  - unfold acquire.
    assert (Hqueue : forall sem,
               nothing_started
                 (set_state i AtGate (set_sched (set_semaphore sem (sched r)) r))).
    { intros sem. apply set_state_nothing_started; [exact Hinv | | |]; reflexivity. }
    destruct (sem_value (semaphore (sched r))); [apply Hqueue|].
    destruct (sem_waiters (semaphore (sched r))); [|apply Hqueue].
    apply enter_wait_nothing_started; [|exact Hdeps]. exact Hinv.
  - apply enter_wait_nothing_started; assumption.
  - apply check_dependencies_nothing_started; assumption.
Qed.

Lemma turns_nothing_started tasks k : forall r r',
  Forall (fun task => dependencies task <> []) tasks ->
  nothing_started r -> turns tasks k r = Some r' -> nothing_started r'.
Proof.
  induction k as [|k IH]; intros r r' Hrootless Hinv H; simpl in H.
  - inversion H; subst. exact Hinv.
  - unfold step in H. destruct (ready r) as [|i rest].
    + destruct (earliest 0 (states r)) as [[t due]|]; [|discriminate].
      apply (IH _ r' Hrootless) in H; [exact H | exact Hinv].
    + apply (IH _ r' Hrootless) in H; [exact H|].
      apply resume_nothing_started; [exact Hrootless | exact Hinv].
Qed.

Lemma launch_nothing_started capacity tasks start :
  nothing_started (launch (@TaskScheduler_init Result capacity) tasks start).
Proof.
  split; [reflexivity|]. split; [reflexivity|]. simpl.
  apply Forall_forall. intros st Hin. apply in_map_iff in Hin.
  destruct Hin as (t & <- & _). reflexivity.
Qed.

(** X16. A task alone in its list, with at least one prerequisite, on
    a new scheduler with a free slot: its operation is never called;
    holding its slot, it checks every 0.1 s until the check made
    300.1 s after the start, and the call of [schedule_and_execute]
    then raises with the timeout message, which lists all the
    prerequisites. The stage of the task is the only one in
    [failed_stages] and nothing is stored. This holds whatever the
    prerequisites are, the stage of the task itself included. *)
Theorem X16_lone_task_times_out
    (stg : AgentStage) (operation : Payload -> Results Result -> Settled Result)
    (d : AgentStage) (ds : list AgentStage) (payload : Payload) (rank : Z)
    (free : nat) (start : time) :
  let task := {| stage := stg; agent_func := operation; dependencies := d :: ds;
                 input_data := payload; priority := rank |} in
  let self' := {| max_parallel := S free;
                  completed_stages := [];
                  failed_stages := [stg];
                  results := [];
                  semaphore := {| sem_value := S free; sem_waiters := [] |} |} in
  run_until_complete (sorted [task]) (2 * 3001 + 1)
    (launch (TaskScheduler_init (S free)) (sorted [task]) start)
  = Some {| sched := self';
            states := [Failed (TimeoutFailed (d :: ds))];
            ready := [];
            now := start + TIMEOUT + POLL |} /\
  schedule_and_execute (TaskScheduler_init (S free)) [task] start (2 * 3001 + 1)
  = Some (Raise ("Task execution failed: Timeout (300s) waiting for dependencies: "
                 ++ repr_values (d :: ds))%string, self') /\
  (forall k r st,
      turns [task] k (launch (TaskScheduler_init (S free)) [task] start) = Some r ->
      In st (states r) -> invoked st = false).
Proof.
  intros task self'.
  assert (Hrun := lone_task_run stg operation d ds payload rank free start).
  split; [exact Hrun|]. split.
  - unfold schedule_and_execute.
    change (sorted [task]) with [lone_task stg operation (d :: ds) payload rank].
    rewrite Hrun. reflexivity.
  - intros k r st Hturns Hin.
    assert (Hrootless : Forall (fun t : AgentTask Payload Result => dependencies t <> [])
                          [task])
      by (constructor; [discriminate | constructor]).
    destruct (turns_nothing_started [task] k _ r Hrootless
                (launch_nothing_started (S free) [task] start) Hturns) as (_ & _ & Hall).
    rewrite Forall_forall in Hall. apply (Hall st Hin).
Qed.

(** X17. When every task of the list has at least one prerequisite, a
    run on a new scheduler never calls any operation, at any capacity:
    at every turn of the event loop nothing has completed and nothing
    is stored, and if [schedule_and_execute] ends it raises, with
    every task failed in its wait. *)
Theorem X17_no_root_no_start (capacity : nat) tasks (start : time) :
  tasks <> [] ->
  Forall (fun task => dependencies task <> []) tasks ->
  (forall k r,
      turns (sorted tasks) k (launch (TaskScheduler_init capacity) (sorted tasks) start)
      = Some r ->
      completed_stages (sched r) = [] /\ results (sched r) = [] /\
      forall st, In st (states r) -> invoked st = false) /\
  (forall fuel answer self',
      schedule_and_execute (TaskScheduler_init capacity) tasks start fuel
      = Some (answer, self') ->
      (exists msg, answer = Raise msg) /\
      completed_stages self' = [] /\ results self' = [] /\
      forall task, In task tasks -> stage_in (stage task) (failed_stages self') = true).
Proof.
  intros Hne Hrootless.
  assert (Hrootless' : Forall (fun task => dependencies task <> []) (sorted tasks)).
  { rewrite Forall_forall in *. intros task Hin. apply Hrootless.
    apply (Permutation_in _ (sorted_perm tasks) Hin). }
  assert (Hturns : forall k r,
             turns (sorted tasks) k
               (launch (TaskScheduler_init capacity) (sorted tasks) start) = Some r ->
             nothing_started r).
  { intros k r H.
    apply (turns_nothing_started (sorted tasks) k _ r Hrootless'
             (launch_nothing_started capacity (sorted tasks) start) H). }
  split.
  - intros k r H. destruct (Hturns k r H) as (Hc & Hr & Hall).
    split; [exact Hc|]. split; [exact Hr|]. apply Forall_forall. exact Hall.
  - intros fuel answer self' Hrun. unfold schedule_and_execute in Hrun.
    destruct (run_until_complete (sorted tasks) fuel
                (launch (TaskScheduler_init capacity) (sorted tasks) start))
      as [r|] eqn:Hloop; [|discriminate].
    destruct (finished_run (TaskScheduler_init capacity) tasks start fuel r eq_refl Hloop)
      as (Hdone & (Hlen & _ & Hko & _ & _) & _ & _).
    destruct (run_until_complete_turns _ _ _ _ Hloop) as (k & Hk & _).
    destruct (Hturns k r Hk) as (Hc & Hr & Hall).
    unfold finals in Hlen. rewrite length_map in Hlen.
    assert (Hfailed : forall i task, nth_error (sorted tasks) i = Some task ->
                        exists e, nth_error (states r) i = Some (Failed e)).
    { intros i task Hi.
      assert (Hlt : (i < List.length (states r))%nat).
      { rewrite Hlen. apply nth_error_Some. congruence. }
      destruct (nth_error (states r) i) as [st|] eqn:Hst;
        [|apply nth_error_None in Hst; lia].
      rewrite forallb_forall in Hdone. rewrite Forall_forall in Hall.
      pose proof (Hdone st (nth_error_In _ _ Hst)) as H1.
      pose proof (Hall st (nth_error_In _ _ Hst)) as H2.
      destruct st; try discriminate. exists e. reflexivity. }
    assert (Hanswer : exists e rest, failures_of (states r) = e :: rest).
    { destruct (sorted tasks) as [|task0 others] eqn:Hsorted.
      - exfalso. apply Hne. apply length_zero_iff_nil.
        rewrite <- sorted_length, Hsorted. reflexivity.
      - destruct (Hfailed O task0 eq_refl) as [e He].
        destruct (states r) as [|st sts]; [discriminate|].
        simpl in He. inversion He; subst st. simpl. eauto. }
    destruct Hanswer as (e & rest & Hfail). rewrite Hfail in Hrun.
    inversion Hrun; subst answer self'.
    split; [eexists; reflexivity|]. split; [exact Hc|]. split; [exact Hr|].
    intros task Hin.
    apply (Permutation_in _ (Permutation_sym (sorted_perm tasks))) in Hin.
    apply In_nth_error in Hin. destruct Hin as [i Hi].
    destruct (Hfailed i task Hi) as [e' He'].
    apply (Hko i task e' Hi). apply finals_failed. exact He'.
Qed.

(** *** The coordinator's graph with three slots *)

Lemma run_done tasks fuel r :
  forallb is_done (states r) = true -> run_until_complete tasks fuel r = Some r.
Proof. intros H. destruct fuel; simpl; rewrite H; reflexivity. Qed.

Section AllReturn.

Variables (analyst api_documenter readme_creator : Agent Payload Result).
Variables (input_data : Payload) (start : time) (ra rb rc : Result).

Hypothesis analyst_returns : outcome (analyst input_data []) = Return ra.
Hypothesis api_documenter_returns :
  outcome (api_documenter input_data [(ANALYSIS, ra)]) = Return rb.
Hypothesis readme_creator_returns :
  outcome (readme_creator input_data [(ANALYSIS, ra)]) = Return rc.

Ltac check := unfold check_dependencies, wait_poll; turn.

Lemma returning_turn capacity free finish wake t fuel :
  wake < finish -> finish - start <= TIMEOUT ->
  run_until_complete (coordinate_tasks analyst api_documenter readme_creator input_data) (3 + fuel)
    (both_polling capacity free finish (Return ra) start wake t)
  = run_until_complete (coordinate_tasks analyst api_documenter readme_creator input_data) fuel
      (both_polling capacity free finish (Return ra) start (wake + POLL) wake).
Proof.
  intros Hlt Hfast. unfold both_polling, blank, coordinate_tasks.
  turn. rewrite Z.compare_refl. rewrite (compare_gt _ _ Hlt). turn.
  assert (Hel : (TIMEOUT <? wake - start) = false) by (apply Z.ltb_ge; lia).
  check. rewrite Hel. turn. check. rewrite Hel. turn. reflexivity.
Qed.

Lemma returning_launch free fuel :
  run_until_complete (coordinate_tasks analyst api_documenter readme_creator input_data) (3 + fuel)
    (launch (TaskScheduler_init (S (S (S free)))) (coordinate_tasks analyst api_documenter readme_creator input_data) start)
  = run_until_complete (coordinate_tasks analyst api_documenter readme_creator input_data) fuel
      (both_polling (S (S (S free))) free
         (start + Z.of_N (latency (analyst input_data []))) (Return ra)
         start (start + POLL) start).
Proof.
  unfold both_polling, blank, coordinate_tasks, _wrap_agent.
  turn. rewrite !analyst_returns.
  assert (Hel : (TIMEOUT <? start - start) = false) by (rewrite Z.sub_diag; reflexivity).
  unfold enter_wait. turn. check. rewrite Hel. turn.
  unfold enter_wait. turn. check. rewrite Hel. turn.
  reflexivity.
Qed.

Lemma dependents_order (wake : Z) (lb lc : N) :
  match wake + Z.of_N lb ?= wake + Z.of_N lc with
  | Gt => (lb <=? lc)%N = false
  | _ => (lb <=? lc)%N = true
  end.
Proof.
  destruct (Z.compare_spec (wake + Z.of_N lb) (wake + Z.of_N lc)).
  - apply N.leb_le. lia.
  - apply N.leb_le. lia.
  - apply N.leb_gt. lia.
Qed.

Lemma returning_end free finish wake t fuel :
  finish <= wake ->
  ends_with
    (at_rest (S (S (S free)))
       (ANALYSIS :: dependents (latency (api_documenter input_data [(ANALYSIS, ra)]))
                      (latency (readme_creator input_data [(ANALYSIS, ra)])))
       []
       ((ANALYSIS, ra)
        :: dependents_results (latency (api_documenter input_data [(ANALYSIS, ra)]))
             (latency (readme_creator input_data [(ANALYSIS, ra)])) rb rc))
    [Completed ra; Completed rb; Completed rc]
    (run_until_complete (coordinate_tasks analyst api_documenter readme_creator input_data) (10 + fuel)
       (both_polling (S (S (S free))) free finish (Return ra) start wake t)).
Proof.
  intros Hle. unfold both_polling, blank, coordinate_tasks, _wrap_agent.
  unfold dependents, dependents_results.
  destruct (Z.eq_dec finish wake) as [Heq|Hne].
  - turn. rewrite <- Heq. rewrite !Z.compare_refl. turn.
    check. check. rewrite api_documenter_returns, readme_creator_returns.
    pose proof (dependents_order finish
                  (latency (api_documenter input_data [(ANALYSIS, ra)]))
                  (latency (readme_creator input_data [(ANALYSIS, ra)]))) as Horder.
    destruct (finish + Z.of_N (latency (api_documenter input_data [(ANALYSIS, ra)]))
              ?= finish + Z.of_N (latency (readme_creator input_data [(ANALYSIS, ra)])))
      eqn:Hcmp; rewrite Horder; turn; rewrite ?Z.compare_refl; turn;
      split; reflexivity.
  - turn. rewrite Z.compare_refl. rewrite (compare_lt finish wake) by lia. turn.
    rewrite Z.compare_refl. turn.
    check. check. rewrite api_documenter_returns, readme_creator_returns.
    pose proof (dependents_order wake
                  (latency (api_documenter input_data [(ANALYSIS, ra)]))
                  (latency (readme_creator input_data [(ANALYSIS, ra)]))) as Horder.
    destruct (wake + Z.of_N (latency (api_documenter input_data [(ANALYSIS, ra)]))
              ?= wake + Z.of_N (latency (readme_creator input_data [(ANALYSIS, ra)])))
      eqn:Hcmp; rewrite Horder; turn; rewrite ?Z.compare_refl; turn;
      split; reflexivity.
Qed.

Lemma returning_run free finish n : forall wake t,
  finish - start <= TIMEOUT ->
  finish <= wake + Z.of_nat n * POLL ->
  ends_with
    (at_rest (S (S (S free)))
       (ANALYSIS :: dependents (latency (api_documenter input_data [(ANALYSIS, ra)]))
                      (latency (readme_creator input_data [(ANALYSIS, ra)])))
       []
       ((ANALYSIS, ra)
        :: dependents_results (latency (api_documenter input_data [(ANALYSIS, ra)]))
             (latency (readme_creator input_data [(ANALYSIS, ra)])) rb rc))
    [Completed ra; Completed rb; Completed rc]
    (run_until_complete (coordinate_tasks analyst api_documenter readme_creator input_data) (3 * n + 10)
       (both_polling (S (S (S free))) free finish (Return ra) start wake t)).
Proof.
  induction n as [|n IH]; intros wake t Hfast Hreach.
  - apply (returning_end free finish wake t 0). lia.
  - destruct (Z_lt_le_dec wake finish) as [Hlt|Hle].
    + replace (3 * S n + 10)%nat with (3 + (3 * n + 10))%nat by lia.
      rewrite (returning_turn (S (S (S free))) free finish wake t _ Hlt Hfast).
      apply IH; [exact Hfast|]. unfold POLL in *. lia.
    + replace (3 * S n + 10)%nat with (10 + (3 * n + 3))%nat by lia.
      apply (returning_end free finish wake t _ Hle).
Qed.

End AllReturn.

(** X18. The coordinator as it is built, with three slots. Assume that
    the analysis, called on the empty context, returns within the
    300 s, and that each dependent takes the same time and returns the
    same result on every context in which the entry of ANALYSIS is the
    analysis result, whatever else the context holds (the agents of the
    repository read that entry alone). Then [coordinate] returns the
    three results and leaves nothing failed and every slot free. The
    results of the dependents are stored after that of the analysis in
    the order in which they end, API_DOCS first when its operation
    takes no longer than that of README. *)
Theorem X18_coordinate_with_three_slots
    (analyst api_documenter readme_creator : Agent Payload Result)
    (input_data : Payload) (start : time) (ra rb rc : Result) (lb lc : N) :
  outcome (analyst input_data []) = Return ra ->
  Z.of_N (latency (analyst input_data [])) <= TIMEOUT ->
  (forall context,
      dict_get context ANALYSIS = Some ra ->
      api_documenter input_data context = {| latency := lb; outcome := Return rb |}) ->
  (forall context,
      dict_get context ANALYSIS = Some ra ->
      readme_creator input_data context = {| latency := lc; outcome := Return rc |}) ->
  let stored := (ANALYSIS, ra) :: dependents_results lb lc rb rc in
  exists fuel,
    coordinate (AgentCoordinator_init analyst api_documenter readme_creator)
      input_data start fuel
    = Some (Return stored, at_rest 3 (ANALYSIS :: dependents lb lc) [] stored).
Proof.
  intros HA Hfast HB HC stored.
  assert (Hb : api_documenter input_data [(ANALYSIS, ra)]
               = {| latency := lb; outcome := Return rb |}) by (apply HB; reflexivity).
  assert (Hc : readme_creator input_data [(ANALYSIS, ra)]
               = {| latency := lc; outcome := Return rc |}) by (apply HC; reflexivity).
  assert (HB' : outcome (api_documenter input_data [(ANALYSIS, ra)]) = Return rb)
    by (rewrite Hb; reflexivity).
  assert (HC' : outcome (readme_creator input_data [(ANALYSIS, ra)]) = Return rc)
    by (rewrite Hc; reflexivity).
  set (n := N.to_nat (latency (analyst input_data []))).
  exists (3 + (3 * n + 10))%nat.
  unfold coordinate, schedule_and_execute. cbn [scheduler Coordinator.analyst
    Coordinator.api_documenter Coordinator.readme_creator AgentCoordinator_init].
  rewrite sorted_coordinate_tasks.
  rewrite (returning_launch analyst api_documenter readme_creator input_data start ra HA).
  pose proof (returning_run analyst api_documenter readme_creator input_data start
                ra rb rc HB' HC' 0
                (start + Z.of_N (latency (analyst input_data []))) n
                (start + POLL) start) as Hrun.
  rewrite Hb, Hc in Hrun. cbn [latency] in Hrun.
  destruct (run_until_complete _ _ _) as [r|].
  - destruct Hrun as [Hs Hst]; [lia | unfold n, POLL; lia |].
    rewrite Hst, Hs. reflexivity.
  - exfalso. apply Hrun; [lia | unfold n, POLL; lia].
Qed.

End WithData.

Lemma X9_no_slot_no_progress_witness :
  let tasks := SchedulerExamples.tasks_ok in
  let r0 := launch (TaskScheduler_init 0) (sorted tasks) 0 in
  tasks <> [] /\
  (forall fuel, schedule_and_execute (TaskScheduler_init 0) tasks 0 fuel = None) /\
  (forall k r st,
      turns (sorted tasks) k r0 = Some r -> In st (states r) -> invoked st = false) /\
  (exists r,
      turns (sorted tasks) (List.length tasks) r0 = Some r /\
      step (sorted tasks) r = None /\
      forall st, In st (states r) -> st = AtGate).
Proof.
  intros tasks r0.
  assert (Hne : tasks <> []) by discriminate.
  split; [exact Hne|].
  exact (X9_no_slot_no_progress tasks 0 Hne).
Defined.

Lemma X10_slots_given_back_witness :
  let self := @TaskScheduler_init string 3 in
  sem_waiters (semaphore self) = [] /\
  schedule_and_execute self SchedulerExamples.tasks_analysis_fails 0 200
  = Some (Raise "Task execution failed: boom", SchedulerExamples.scheduler_after_failure) /\
  semaphore SchedulerExamples.scheduler_after_failure = semaphore self.
Proof.
  intros self.
  assert (Hq : sem_waiters (semaphore self) = []) by reflexivity.
  assert (Hrun : schedule_and_execute self SchedulerExamples.tasks_analysis_fails 0 200
                 = Some (Raise "Task execution failed: boom",
                         SchedulerExamples.scheduler_after_failure))
    by (vm_compute; reflexivity).
  split; [exact Hq|]. split; [exact Hrun|].
  exact (X10_slots_given_back self SchedulerExamples.tasks_analysis_fails 0 200 _ _
           Hq Hrun).
Defined.

Lemma X12_operation_called_after_prerequisites_witness :
  let tasks := SchedulerExamples.tasks_ok in
  exists r task,
    turns (sorted tasks) 6 (launch (TaskScheduler_init 1) (sorted tasks) 0) = Some r /\
    nth_error (sorted tasks) 1 = Some task /\
    nth_error (states r) 1 = Some (Running 3000 (Return "api")) /\
    forall dep, In dep (dependencies task) ->
      stage_in dep (completed_stages (sched r)) = true /\
      exists producer context result,
        In producer tasks /\ stage producer = dep /\
        outcome (agent_func producer (input_data producer) context) = Return result.
Proof.
  intros tasks. eexists. eexists.
  split; [reflexivity|]. split; [reflexivity|]. split; [reflexivity|].
  apply (X12_operation_called_after_prerequisites 1 tasks 0 6 _ 1 _
           (Running 3000 (Return "api"))); reflexivity.
Defined.

Lemma X13_a_run_that_returns_witness :
  let tasks := SchedulerExamples.tasks_ok in
  let answer := [(ANALYSIS, "overview"); (API_DOCS, "api"); (README, "readme")] in
  let self' := at_rest 3 [ANALYSIS; API_DOCS; README] [] answer in
  schedule_and_execute (TaskScheduler_init 3) tasks 0 200 = Some (Return answer, self') /\
  answer = results self' /\
  failed_stages self' = [] /\
  (forall stg, stage_in stg (completed_stages self') = true <->
               exists task, In task tasks /\ stage task = stg) /\
  (forall stg, dict_get answer stg <> None <->
               exists task, In task tasks /\ stage task = stg).
Proof.
  intros tasks answer self'.
  assert (Hrun : schedule_and_execute (TaskScheduler_init 3) tasks 0 200
                 = Some (Return answer, self'))
    by (vm_compute; reflexivity).
  split; [exact Hrun|].
  exact (X13_a_run_that_returns 3 tasks 0 200 answer self' Hrun).
Defined.

Lemma X14_a_run_that_raises_witness :
  let tasks := MoreExamples.tasks_dependents_fail in
  let self := @TaskScheduler_init string 3 in
  let msg := "Task execution failed: api down" in
  let self' := at_rest 3 [ANALYSIS] [README; API_DOCS] [(ANALYSIS, "overview")] in
  sem_waiters (semaphore self) = [] /\
  schedule_and_execute self tasks 0 200 = Some (Raise msg, self') /\
  exists r i task e,
    run_until_complete (sorted tasks) 200 (launch self (sorted tasks) 0) = Some r /\
    sched r = self' /\
    forallb is_done (states r) = true /\
    nth_error (sorted tasks) i = Some task /\
    nth_error (states r) i = Some (Failed e) /\
    msg = ("Task execution failed: " ++ failure_str e)%string /\
    stage_in (stage task) (failed_stages self') = true /\
    (forall j earlier, (j < i)%nat -> nth_error (sorted tasks) j = Some earlier ->
       exists result,
         nth_error (states r) j = Some (Completed result) /\
         stage_in (stage earlier) (completed_stages self') = true /\
         dict_get (results self') (stage earlier) <> None) /\
    (forall task, In task tasks ->
       stage_in (stage task) (completed_stages self') = true \/
       stage_in (stage task) (failed_stages self') = true).
Proof.
  intros tasks self msg self'.
  assert (Hq : sem_waiters (semaphore self) = []) by reflexivity.
  assert (Hrun : schedule_and_execute self tasks 0 200 = Some (Raise msg, self'))
    by (vm_compute; reflexivity).
  split; [exact Hq|]. split; [exact Hrun|].
  exact (X14_a_run_that_raises self tasks 0 200 msg self' Hq Hrun).
Defined.

Lemma C9_state_lives_with_the_scheduler_witness :
  let self := MoreExamples.scheduler_reused in
  let tasks := SchedulerExamples.tasks_ok in
  let stored := [(ANALYSIS, "overview"); (ARCHITECTURE, "diagram");
                 (API_DOCS, "api"); (README, "readme")] in
  let self' := at_rest 3 [ANALYSIS; ARCHITECTURE; API_DOCS; README] [] stored in
  sem_waiters (semaphore self) = [] /\
  schedule_and_execute self tasks 0 100 = Some (Return stored, self') /\
  state_kept self self' /\
  dict_get (results self) ANALYSIS = Some "old overview" /\
  dict_get (results self') ANALYSIS = Some "overview" /\
  dict_get (results self') ARCHITECTURE = dict_get (results self) ARCHITECTURE.
Proof.
  intros self tasks stored self'.
  assert (Hq : sem_waiters (semaphore self) = []) by reflexivity.
  assert (Hrun : schedule_and_execute self tasks 0 100 = Some (Return stored, self'))
    by (vm_compute; reflexivity).
  destruct (C9_state_lives_with_the_scheduler self tasks 0 100 (Return stored) self'
              (SchedulerExamples.agent_ok 2000 "overview")
              (SchedulerExamples.agent_ok 1000 "api")
              (SchedulerExamples.agent_ok 1500 "readme") Hq Hrun)
    as [(r & _ & _ & _ & Hkept & _ & _ & Hframe) _].
  split; [exact Hq|]. split; [exact Hrun|]. split; [exact Hkept|].
  split; [reflexivity|]. split; [reflexivity|].
  apply (Hframe ARCHITECTURE).
  intros task [<-|[<-|[<-|[]]]]; discriminate.
Defined.

Lemma X15_one_task_per_stage_witness :
  let tasks := SchedulerExamples.tasks_ok in
  NoDup (map stage tasks) /\
  exists r,
    turns (sorted tasks) 6 (launch (TaskScheduler_init 1) (sorted tasks) 0) = Some r /\
    agree (sched r) /\
    (forall stg, stage_in stg (completed_stages (sched r)) = true ->
                 stage_in stg (failed_stages (sched r)) = false) /\
    (forall i task result,
        nth_error (sorted tasks) i = Some task ->
        nth_error (states r) i = Some (Completed result) ->
        dict_get (results (sched r)) (stage task) = Some result).
Proof.
  intros tasks.
  assert (Hnd : NoDup (map stage tasks)).
  { repeat constructor; simpl; intuition discriminate. }
  split; [exact Hnd|]. eexists. split; [reflexivity|].
  apply (X15_one_task_per_stage 1 tasks 0 6 _ Hnd). reflexivity.
Defined.

Lemma X17_no_root_no_start_witness :
  let tasks := MoreExamples.tasks_cycle in
  tasks <> [] /\
  Forall (fun task => dependencies task <> []) tasks /\
  (forall k r,
      turns (sorted tasks) k (launch (TaskScheduler_init 3) (sorted tasks) 0) = Some r ->
      completed_stages (sched r) = [] /\ results (sched r) = [] /\
      forall st, In st (states r) -> invoked st = false) /\
  (forall fuel answer self',
      schedule_and_execute (TaskScheduler_init 3) tasks 0 fuel = Some (answer, self') ->
      (exists msg, answer = Raise msg) /\
      completed_stages self' = [] /\ results self' = [] /\
      forall task, In task tasks -> stage_in (stage task) (failed_stages self') = true).
Proof.
  intros tasks.
  assert (Hne : tasks <> []) by discriminate.
  assert (Hrootless : Forall (fun task : AgentTask string string =>
                                dependencies task <> []) tasks)
    by (repeat constructor; discriminate).
  split; [exact Hne|]. split; [exact Hrootless|].
  exact (X17_no_root_no_start 3 tasks 0 Hne Hrootless).
Defined.

Lemma X18_coordinate_with_three_slots_witness :
  let analyst := SchedulerExamples.agent_ok 2000 "overview" in
  let api_documenter := MoreExamples.agent_reading 1000 "api of " in
  let readme_creator := MoreExamples.agent_reading 1500 "readme of " in
  let stored := [(ANALYSIS, "overview"); (API_DOCS, "api of overview");
                 (README, "readme of overview")] in
  exists fuel,
    coordinate (AgentCoordinator_init analyst api_documenter readme_creator)
      "project" 0 fuel
    = Some (Return stored, at_rest 3 [ANALYSIS; API_DOCS; README] [] stored).
Proof.
  intros analyst api_documenter readme_creator stored.
  apply (X18_coordinate_with_three_slots analyst api_documenter readme_creator
           "project" 0 "overview" "api of overview" "readme of overview" 1000 1500).
  - reflexivity.
  - discriminate.
  - intros context Hget. unfold api_documenter, MoreExamples.agent_reading.
    rewrite Hget. reflexivity.
  - intros context Hget. unfold readme_creator, MoreExamples.agent_reading.
    rewrite Hget. reflexivity.
Defined.

End SchedulerRuns.

(** ** Every run ends *)

Module SchedulerLiveness.
Import Py Scheduler Coordinator SchedulerVocabulary SchedulerProofs SchedulerRuns.

Section WithData.

Context {Payload Result : Type}.

Implicit Types (r : Run Result) (st : TaskState Result).
Implicit Types (task : AgentTask Payload Result) (tasks : list (AgentTask Payload Result)).

Lemma weight_set_nth (i : nat) (x y : TaskState Result) (l : list (TaskState Result)) :
  nth_error l i = Some x ->
  (fold_right (fun st acc => weight st + acc) 0 (set_nth i y l) + weight x
   = fold_right (fun st acc => weight st + acc) 0 l + weight y)%nat.
Proof.
  revert i. induction l as [|z l IH]; intros [|i] Hi; simpl in *; try discriminate.
  - inversion Hi; subst. lia.
  - specialize (IH i Hi). lia.
Qed.

(** Task [i], being resumed from [st], reaches a state [st'] that is
    not for the loop to resume and weighs less. *)
Lemma live_set_state tasks r i st st' (s : TaskScheduler Result) :
  live tasks [i] r ->
  nth_error (states r) i = Some st ->
  unstarted st' = false -> st' <> AtGate ->
  (weight st' < weight st)%nat ->
  semaphore s = semaphore (sched r) ->
  live tasks [] (set_state i st' (set_sched s r)) /\
  (total_weight (set_state i st' (set_sched s r)) < total_weight r)%nat.
Proof.
  intros (Hlen & Hnd & Hrun & Hun & Hgate & Hfull) Hst Hstarted Hne Hless Hsem.
  split.
  - unfold live. simpl in *. rewrite Hsem.
    inversion Hnd as [|? ? Hnotin Hnd']; subst.
    split; [rewrite set_nth_length; exact Hlen|].
    split; [exact Hnd'|]. split; [|split; [|split; [|exact Hfull]]].
    + intros j Hj. assert (Hij : i <> j) by (intros ->; contradiction).
      rewrite nth_error_set_nth_neq by exact Hij. apply Hrun. right. exact Hj.
    + intros j stj Hj Hunj. destruct (Nat.eq_dec i j) as [->|Hij].
      * apply nth_error_set_nth_same in Hj. subst stj. congruence.
      * rewrite nth_error_set_nth_neq in Hj by exact Hij.
        destruct (Hun j stj Hj Hunj) as [Heq|Hin]; [congruence | exact Hin].
    + intros j Hj. destruct (Nat.eq_dec i j) as [->|Hij].
      * apply nth_error_set_nth_same in Hj. congruence.
      * rewrite nth_error_set_nth_neq in Hj by exact Hij. apply Hgate. exact Hj.
  - unfold total_weight. simpl.
    pose proof (weight_set_nth i st st' (states r) Hst). lia.
Qed.

(** [release] keeps the loop well formed, and no task gains weight. *)
Lemma live_release tasks r :
  live tasks [] r -> waiters_ok r ->
  live tasks [] (release r) /\ (total_weight (release r) <= total_weight r)%nat.
Proof.
  intros (Hlen & Hnd & Hrun & Hun & Hgate & Hfull) [Hwnd Hw]. unfold release.
  destruct (sem_waiters (semaphore (sched r))) as [|w ws] eqn:Hq.
  - split; [|unfold total_weight; simpl; lia].
    unfold live. simpl. repeat split; auto;
      try (intros j Hj; specialize (Hgate j Hj); contradiction); congruence.
  - assert (Hstate : nth_error (states r) w = Some AtGate)
      by (apply Hw; left; reflexivity).
    inversion Hwnd as [|? ? Hnotin Hwnd']; subst.
    split.
    + unfold live. simpl in *.
      split; [rewrite set_nth_length; exact Hlen|].
      split; [|split; [|split; [|split]]].
      * apply NoDup_app; [exact Hnd | repeat constructor; intros [] |].
        intros j Hj [Heq|[]]. subst j. destruct (Hrun w Hj) as (st & Hst & Hok).
        rewrite Hstate in Hst. inversion Hst; subst st. exact Hok.
      * intros j Hj. destruct (Nat.eq_dec w j) as [->|Hwj].
        -- exists Granted. split; [|exact I].
           apply (nth_error_set_nth_eq j Granted AtGate). exact Hstate.
        -- rewrite nth_error_set_nth_neq by exact Hwj.
           apply in_app_or in Hj. destruct Hj as [Hj|[Hj|[]]]; [|congruence].
           apply Hrun. exact Hj.
      * intros j stj Hj Hunj. apply in_or_app.
        destruct (Nat.eq_dec w j) as [->|Hwj]; [right; left; reflexivity|].
        rewrite nth_error_set_nth_neq in Hj by exact Hwj. left. apply (Hun j stj Hj Hunj).
      * intros j Hj. destruct (Nat.eq_dec w j) as [->|Hwj].
        -- apply nth_error_set_nth_same in Hj. discriminate.
        -- rewrite nth_error_set_nth_neq in Hj by exact Hwj.
           destruct (Hgate j Hj) as [Heq|Hin]; [congruence | exact Hin].
      * intros _. apply Hfull. discriminate.
    + unfold total_weight. simpl.
      pose proof (weight_set_nth w AtGate Granted (states r) Hstate). simpl in *. lia.
Qed.

Lemma invoke_live tasks r i task st :
  live tasks [i] r -> nth_error (states r) i = Some st -> (1 < weight st)%nat ->
  live tasks [] (invoke i task r) /\ (total_weight (invoke i task r) < total_weight r)%nat.
Proof.
  intros Hlive Hst Hw. unfold invoke.
  apply (live_set_state tasks r i st _ (sched r) Hlive Hst);
    [reflexivity | discriminate | simpl; lia | reflexivity].
Qed.

Lemma fail_task_live tasks r i task e st :
  live tasks [i] r -> waiters_ok r ->
  nth_error (states r) i = Some st -> st <> AtGate -> (0 < weight st)%nat ->
  live tasks [] (fail_task i task e r) /\
  (total_weight (fail_task i task e r) < total_weight r)%nat.
Proof.
  intros Hlive Hok Hst Hne Hw. unfold fail_task.
  match goal with |- context [release (set_state i (Failed e) (set_sched ?s r))] =>
    destruct (live_set_state tasks r i st (Failed e) s Hlive Hst)
      as [Hlive1 Hless1]; [reflexivity | discriminate | simpl; lia | reflexivity |];
    assert (Hok1 : waiters_ok (set_state i (Failed e) (set_sched s r)))
      by (apply (waiters_ok_set_state r i st); auto);
    destruct (live_release tasks _ Hlive1 Hok1) as [Hlive2 Hless2]
  end.
  split; [exact Hlive2 | lia].
Qed.

Lemma settle_live tasks r i task settled st :
  live tasks [i] r -> waiters_ok r ->
  nth_error (states r) i = Some st -> st <> AtGate -> (0 < weight st)%nat ->
  live tasks [] (settle i task settled r) /\
  (total_weight (settle i task settled r) < total_weight r)%nat.
Proof.
  intros Hlive Hok Hst Hne Hw. destruct settled as [result|msg]; simpl;
    [|apply (fail_task_live tasks r i task _ st); assumption].
  match goal with |- context [release (set_state i (Completed result) (set_sched ?s r))] =>
    destruct (live_set_state tasks r i st (Completed result) s Hlive Hst)
      as [Hlive1 Hless1]; [reflexivity | discriminate | simpl; lia | reflexivity |];
    assert (Hok1 : waiters_ok (set_state i (Completed result) (set_sched s r)))
      by (apply (waiters_ok_set_state r i st); auto);
    destruct (live_release tasks _ Hlive1 Hok1) as [Hlive2 Hless2]
  end.
  split; [exact Hlive2 | lia].
Qed.

Lemma wait_poll_sleep (s : TaskScheduler Result) deps start_time t :
  wait_poll s deps start_time t = Sleep -> t - start_time <= TIMEOUT.
Proof.
  unfold wait_poll.
  destruct (forallb _ deps); [discriminate|].
  destruct (filter _ deps); [|discriminate].
  destruct (Z.ltb_spec TIMEOUT (t - start_time)); [discriminate|]. intros _. assumption.
Qed.

Lemma polls_left_first (t : Z) : Z.to_nat ((t + TIMEOUT + POLL - (t + POLL)) / POLL) = 3000%nat.
Proof.
  replace (t + TIMEOUT + POLL - (t + POLL)) with TIMEOUT by lia. reflexivity.
Qed.

Lemma polls_left_next (start_time t : Z) :
  t - start_time <= TIMEOUT ->
  (Z.to_nat ((start_time + TIMEOUT + POLL - (t + POLL)) / POLL)
   < Z.to_nat ((start_time + TIMEOUT + POLL - t) / POLL))%nat.
Proof.
  intros H. unfold POLL in *.
  replace (start_time + TIMEOUT + 100 - t)
    with ((start_time + TIMEOUT + 100 - (t + 100)) + 1 * 100) by lia.
  rewrite Z.div_add by lia.
  assert (0 <= (start_time + TIMEOUT + 100 - (t + 100)) / 100)
    by (apply Z.div_pos; lia).
  lia.
Qed.

Lemma check_dependencies_live tasks r i task start_time st :
  live tasks [i] r -> waiters_ok r ->
  nth_error (states r) i = Some st ->
  st = Waiting start_time (now r) \/
  ((st = Pending \/ st = Granted) /\ start_time = now r) ->
  live tasks [] (check_dependencies i task start_time r) /\
  (total_weight (check_dependencies i task start_time r) < total_weight r)%nat.
Proof.
  intros Hlive Hok Hst Hcases.
  assert (Hne : st <> AtGate)
    by (destruct Hcases as [->|[[->| ->] _]]; discriminate).
  assert (Hheavy : (1 < weight st)%nat)
    by (destruct Hcases as [->|[[->| ->] _]]; simpl; lia).
  unfold check_dependencies.
  destruct (wait_poll (sched r) (dependencies task) start_time (now r)) eqn:Hpoll.
  - apply (invoke_live tasks r i task st Hlive Hst Hheavy).
  - apply wait_poll_sleep in Hpoll.
    apply (live_set_state tasks r i st _ (sched r) Hlive Hst);
      [reflexivity | discriminate | | reflexivity].
    destruct Hcases as [->|[[->| ->] ->]]; simpl.
    + pose proof (polls_left_next start_time (now r) Hpoll). lia.
    + rewrite polls_left_first. lia.
    + rewrite polls_left_first. lia.
  - apply (fail_task_live tasks r i task _ st); auto. lia.
Qed.

Lemma enter_wait_live tasks r i task st :
  live tasks [i] r -> waiters_ok r ->
  nth_error (states r) i = Some st -> st = Pending \/ st = Granted ->
  live tasks [] (enter_wait i task r) /\
  (total_weight (enter_wait i task r) < total_weight r)%nat.
Proof.
  intros Hlive Hok Hst Hcases. unfold enter_wait. destruct (dependencies task).
  - apply (invoke_live tasks r i task st Hlive Hst).
    destruct Hcases as [->| ->]; simpl; lia.
  - apply (check_dependencies_live tasks r i task _ st); auto.
Qed.

Lemma acquire_live tasks r i task :
  live tasks [i] r -> waiters_ok r ->
  nth_error (states r) i = Some Pending ->
  live tasks [] (acquire i task r) /\
  (total_weight (acquire i task r) < total_weight r)%nat.
Proof.
  intros Hlive Hok Hst. unfold acquire.
  assert (Hqueue :
            sem_value (semaphore (sched r)) = O ->
            live tasks []
              (set_state i AtGate
                 (set_sched
                    (set_semaphore
                       {| sem_value := sem_value (semaphore (sched r));
                          sem_waiters := sem_waiters (semaphore (sched r)) ++ [i] |}
                       (sched r)) r)) /\
            (total_weight
               (set_state i AtGate
                  (set_sched
                     (set_semaphore
                        {| sem_value := sem_value (semaphore (sched r));
                           sem_waiters := sem_waiters (semaphore (sched r)) ++ [i] |}
                        (sched r)) r)) < total_weight r)%nat).
  { intros Hfull'. destruct Hlive as (Hlen & Hnd & Hrun & Hun & Hgate & Hfull).
    split.
    - unfold live. simpl in *. inversion Hnd as [|? ? Hnotin Hnd']; subst.
      split; [rewrite set_nth_length; exact Hlen|].
      split; [exact Hnd'|]. split; [|split; [|split; [|intros _; exact Hfull']]].
      + intros j Hj. assert (Hij : i <> j) by (intros ->; contradiction).
        rewrite nth_error_set_nth_neq by exact Hij. apply Hrun. right. exact Hj.
      + intros j stj Hj Hunj. destruct (Nat.eq_dec i j) as [->|Hij].
        * apply nth_error_set_nth_same in Hj. subst stj. discriminate.
        * rewrite nth_error_set_nth_neq in Hj by exact Hij.
          destruct (Hun j stj Hj Hunj) as [Heq|Hin]; [congruence | exact Hin].
      + intros j Hj. apply in_or_app. destruct (Nat.eq_dec i j) as [->|Hij].
        * right. left. reflexivity.
        * rewrite nth_error_set_nth_neq in Hj by exact Hij. left. apply Hgate. exact Hj.
    - unfold total_weight. simpl.
      pose proof (weight_set_nth i Pending AtGate (states r) Hst). simpl in *. lia. }
  destruct (sem_value (semaphore (sched r))) as [|v] eqn:Hv; [apply Hqueue; reflexivity|].
  destruct (sem_waiters (semaphore (sched r))) as [|w ws] eqn:Hq.
  - match goal with |- context [enter_wait i task ?r1] =>
      assert (Hlive1 : live tasks [i] r1);
      [|assert (Hok1 : waiters_ok r1) by (split; simpl; [constructor | intros w []]);
        destruct (enter_wait_live tasks r1 i task Pending Hlive1 Hok1 Hst
                    (or_introl eq_refl)) as [H1 H2]; split; [exact H1 | exact H2]]
    end.
    destruct Hlive as (Hlen & Hnd & Hrun & Hun & Hgate & Hfull).
    unfold live. simpl in *. repeat split; auto.
    + intros j Hj. specialize (Hgate j Hj). rewrite Hq in Hgate. contradiction.
    + intros Habs. congruence.
  - exfalso. destruct Hlive as (_ & _ & _ & _ & _ & Hfull).
    rewrite Hq, Hv in Hfull. discriminate Hfull. discriminate.
Qed.

Lemma resume_live tasks r i :
  live tasks [i] r -> waiters_ok r ->
  live tasks [] (resume tasks i r) /\
  (total_weight (resume tasks i r) < total_weight r)%nat.
Proof.
  intros Hlive Hok.
  assert (Hstate : exists st, nth_error (states r) i = Some st /\ runnable (now r) st)
    by (apply Hlive; left; reflexivity).
  assert (Hlen : List.length (states r) = List.length tasks) by apply Hlive.
  destruct Hstate as (st & Hst & Hcan).
  unfold resume.
  destruct (nth_error tasks i) as [task|] eqn:Htask.
  - rewrite Hst. destruct st; simpl in Hcan; try contradiction.
    + apply acquire_live; assumption.
    + apply (enter_wait_live tasks r i task Granted); auto.
    + subst wake. apply (check_dependencies_live tasks r i task _ _ Hlive Hok Hst).
      left. reflexivity.
    + apply (settle_live tasks r i task _ _ Hlive Hok Hst); [discriminate | simpl; lia].
  - exfalso. apply nth_error_None in Htask.
    assert (i < List.length (states r))%nat by (apply nth_error_Some; congruence). lia.
Qed.

(** *** The timers *)

Lemma earliest_none (sts : list (TaskState Result)) : forall k,
  earliest k sts = None -> forall st, In st sts -> timer_of st = None.
Proof.
  induction sts as [|st0 sts IH]; intros k Hnone st Hin; [contradiction|].
  simpl in Hnone. destruct (timer_of st0) as [t|] eqn:Ht.
  - destruct (earliest (S k) sts) as [[t' due]|]; [|discriminate].
    destruct (t ?= t'); discriminate.
  - destruct Hin as [<-|Hin]; [exact Ht|]. apply (IH (S k) Hnone st Hin).
Qed.

Lemma earliest_due (sts : list (TaskState Result)) : forall k t due,
  earliest k sts = Some (t, due) ->
  due <> [] /\ NoDup due /\
  forall j, In j due ->
            (k <= j)%nat /\
            exists st, nth_error sts (j - k) = Some st /\ timer_of st = Some t.
Proof.
  induction sts as [|st0 sts IH]; intros k t due H; [discriminate|].
  simpl in H.
  assert (Hhead : timer_of st0 = Some t ->
                  (k <= k)%nat /\
                  exists st, nth_error (st0 :: sts) (k - k) = Some st /\
                             timer_of st = Some t).
  { intros Ht. split; [lia|]. exists st0. rewrite Nat.sub_diag. split; [reflexivity|].
    exact Ht. }
  assert (Htail : forall t' due',
             earliest (S k) sts = Some (t', due') ->
             due' <> [] /\ NoDup due' /\ ~ In k due' /\
             forall j, In j due' ->
                       (k <= j)%nat /\
                       exists st, nth_error (st0 :: sts) (j - k) = Some st /\
                                  timer_of st = Some t').
  { intros t' due' H'. destruct (IH (S k) t' due' H') as (Hne & Hnd & Hall).
    split; [exact Hne|]. split; [exact Hnd|]. split.
    - intros Hin. destruct (Hall k Hin) as [Hle _]. lia.
    - intros j Hj. destruct (Hall j Hj) as (Hle & st & Hst & Ht).
      split; [lia|]. exists st. split; [|exact Ht].
      replace (j - k)%nat with (S (j - S k)) by lia. exact Hst. }
  destruct (timer_of st0) as [t0|] eqn:Ht0.
  - destruct (earliest (S k) sts) as [[t' due']|] eqn:Hlater.
    + destruct (Htail t' due' eq_refl) as (Hne & Hnd & Hnotin & Hall).
      destruct (t0 ?= t') eqn:Hcmp; inversion H; subst.
      * apply Z.compare_eq in Hcmp. subst t'.
        split; [discriminate|]. split; [constructor; assumption|].
        intros j [<-|Hj]; [apply Hhead; reflexivity | apply Hall; exact Hj].
      * split; [discriminate|]. split; [repeat constructor; intros []|].
        intros j [<-|[]]. apply Hhead. reflexivity.
      * split; [exact Hne|]. split; [exact Hnd | exact Hall].
    + inversion H; subst. split; [discriminate|].
      split; [repeat constructor; intros []|].
      intros j [<-|[]]. apply Hhead. reflexivity.
  - destruct (Htail t due H) as (Hne & Hnd & _ & Hall).
    split; [exact Hne|]. split; [exact Hnd | exact Hall].
Qed.

Lemma timer_runnable (t : time) st : timer_of st = Some t -> runnable t st.
Proof. destruct st; simpl; intros H; inversion H; reflexivity. Qed.

(** With a slot in the semaphore, the loop always has a task to resume
    or a timer to wait for, as long as a task is not done. *)
Lemma never_stuck tasks r (free : nat) :
  live tasks [] r -> gate_inv (S free) r ->
  ready r = [] -> forallb is_done (states r) = false ->
  earliest 0 (states r) <> None.
Proof.
  intros (Hlen & Hnd & Hrun & Hun & Hgate & Hfull) [Hslots Hok] Hready Hnot Hnone.
  pose proof (earliest_none _ _ Hnone) as Htimers.
  assert (Hstates : forall i st, nth_error (states r) i = Some st ->
                                 st = AtGate \/ is_done st = true).
  { intros i st Hst. pose proof (Htimers st (nth_error_In _ _ Hst)) as Ht.
    destruct st; try discriminate; auto.
    - specialize (Hun i Pending Hst eq_refl). rewrite Hready in Hun. contradiction.
    - specialize (Hun i Granted Hst eq_refl). rewrite Hready in Hun. contradiction. }
  assert (Hholders : slot_holders r = O).
  { unfold slot_holders, count_if.
    assert (Hall : forall st, In st (states r) -> holds_slot st = false).
    { intros st Hin. apply In_nth_error in Hin. destruct Hin as [i Hi].
      destruct (Hstates i st Hi) as [->|Hdone]; [reflexivity|].
      destruct st; try discriminate; reflexivity. }
    clear -Hall. induction (states r) as [|st sts IH]; [reflexivity|].
    simpl. rewrite (Hall st (or_introl eq_refl)). apply IH.
    intros st' Hin. apply Hall. right. exact Hin. }
  unfold slots in Hslots. rewrite Hholders, Nat.add_0_r in Hslots.
  assert (Hqueue : sem_waiters (semaphore (sched r)) = []).
  { destruct (sem_waiters (semaphore (sched r))) as [|w ws] eqn:Hq; [reflexivity|].
    rewrite Hfull in Hslots by discriminate. discriminate. }
  assert (Hdone : forallb is_done (states r) = true).
  { apply forallb_forall. intros st Hin. apply In_nth_error in Hin.
    destruct Hin as [i Hi]. destruct (Hstates i st Hi) as [->|Hdone]; [|exact Hdone].
    specialize (Hgate i Hi). rewrite Hqueue in Hgate. contradiction. }
  congruence.
Qed.

(** A turn of the loop keeps it well formed and uses up one of the
    turns left. *)
Lemma step_live tasks r r' (capacity : nat) :
  live tasks [] r -> gate_inv capacity r -> step tasks r = Some r' ->
  live tasks [] r' /\ (turns_left r' < turns_left r)%nat.
Proof.
  intros Hlive [_ Hok] Hstep. unfold step in Hstep.
  destruct (ready r) as [|i rest] eqn:Hready.
  - destruct (earliest 0 (states r)) as [[t due]|] eqn:Hearliest; [|discriminate].
    inversion Hstep; subst r'. clear Hstep.
    destruct (earliest_due _ _ _ _ Hearliest) as (Hne & Hnd & Hall).
    destruct Hlive as (Hlen & _ & _ & Hun & Hgate & Hfull).
    split.
    + unfold live. simpl. split; [exact Hlen|]. split; [exact Hnd|].
      split; [|split; [|split; [exact Hgate | exact Hfull]]].
      * intros j Hj. destruct (Hall j Hj) as (_ & st & Hst & Ht).
        rewrite Nat.sub_0_r in Hst. exists st. split; [exact Hst|].
        apply timer_runnable. exact Ht.
      * intros j st Hst Hunst. specialize (Hun j st Hst Hunst).
        rewrite Hready in Hun. contradiction.
    + unfold turns_left, total_weight. simpl. rewrite Hready.
      destruct due; [congruence | lia].
  - inversion Hstep; subst r'. clear Hstep.
    match goal with |- context [resume tasks i ?r0] =>
      assert (Hlive0 : live tasks [i] r0)
        by (unfold live in *; simpl in *; rewrite Hready in Hlive; exact Hlive);
      assert (Hok0 : waiters_ok r0) by exact Hok;
      destruct (resume_live tasks r0 i Hlive0 Hok0) as [Hlive1 Hless]
    end.
    split; [exact Hlive1|].
    unfold turns_left. rewrite Hready.
    unfold total_weight in *. simpl in Hless.
    destruct (ready (resume tasks i _)); lia.
Qed.

Lemma weightless_done (sts : list (TaskState Result)) :
  fold_right (fun st acc => (weight st + acc)%nat) O sts = O ->
  forallb is_done sts = true.
Proof.
  induction sts as [|st sts IH]; cbn [fold_right forallb]; [reflexivity|]. intros H.
  assert (Hst : weight st = O) by lia.
  rewrite IH by lia. destruct st; cbn [weight] in Hst; try lia; reflexivity.
Qed.

Lemma run_ends tasks (free : nat) : forall fuel r,
  live tasks [] r -> gate_inv (S free) r -> (turns_left r <= fuel)%nat ->
  exists r', run_until_complete tasks fuel r = Some r'.
Proof.
  induction fuel as [|fuel IH]; intros r Hlive Hinv Hleft.
  - exists r. simpl. rewrite weightless_done; [reflexivity|].
    unfold turns_left, total_weight in Hleft. lia.
  - simpl. destruct (forallb is_done (states r)) eqn:Hdone; [exists r; reflexivity|].
    destruct (step tasks r) as [r1|] eqn:Hstep.
    + destruct (step_live tasks r r1 (S free) Hlive Hinv Hstep) as [Hlive1 Hless].
      apply IH; [exact Hlive1 | apply (step_gate tasks r r1 _ Hinv Hstep) | lia].
    + exfalso. unfold step in Hstep. destruct (ready r) eqn:Hready; [|discriminate].
      destruct (earliest 0 (states r)) as [[t due]|] eqn:Hearliest; [discriminate|].
      apply (never_stuck tasks r free Hlive Hinv Hready Hdone Hearliest).
Qed.

Lemma run_more tasks (more : nat) : forall fuel r r',
  run_until_complete tasks fuel r = Some r' ->
  run_until_complete tasks (fuel + more) r = Some r'.
Proof.
  induction fuel as [|fuel IH]; intros r r' H.
  - simpl in H. destruct (forallb is_done (states r)) eqn:Hdone; [|discriminate].
    inversion H; subst. apply run_done. exact Hdone.
  - simpl in *. destruct (forallb is_done (states r)); [exact H|].
    destruct (step tasks r) as [r1|]; [|discriminate]. apply IH. exact H.
Qed.

Lemma launch_live (self : TaskScheduler Result) tasks start :
  sem_waiters (semaphore self) = [] ->
  live tasks [] (launch self tasks start) /\
  (turns_left (launch self tasks start) <= 2 * 3005 * List.length tasks + 1)%nat.
Proof.
  intros Hq. split.
  - unfold live, launch. simpl. rewrite Hq.
    split; [apply length_map|]. split; [apply seq_NoDup|].
    split; [|split; [|split; [|congruence]]].
    + intros i Hi. apply in_seq in Hi. exists Pending. split; [|exact I].
      rewrite nth_error_map. destruct (nth_error tasks i) eqn:Hi'; [reflexivity|].
      apply nth_error_None in Hi'. lia.
    + intros i st Hst _. apply in_seq.
      assert (Hlt : (i < List.length (map (fun _ : AgentTask Payload Result =>
                                            @Pending Result) tasks))%nat)
        by (apply nth_error_Some; congruence).
      rewrite length_map in Hlt. lia.
    + intros i Hi. exfalso. apply nth_error_In in Hi. apply in_map_iff in Hi.
      destruct Hi as (t & Habs & _). discriminate.
  - unfold turns_left, total_weight, launch. cbn [states ready].
    assert (Hsum : fold_right (fun st acc => (weight st + acc)%nat) O
                     (map (fun _ : AgentTask Payload Result => @Pending Result) tasks)
                   = (3005 * List.length tasks)%nat).
    { induction tasks as [|t tasks IH]; [reflexivity|].
      cbn [map fold_right List.length]. rewrite IH. cbn [weight]. lia. }
    rewrite Hsum. destruct (seq 0 (List.length tasks)); lia.
Qed.

(** X28. With at least one slot in its semaphore, the scheduler ends
    every run, whatever the tasks, their prerequisites (missing ones
    and cycles included) and the time their operations take: the call
    of [schedule_and_execute] returns or raises within 6010 turns of
    the event loop per task and one more, and the turns counted beyond
    change nothing. At every turn of the run the loop has a task to
    resume or a timer to wait for. *)
Theorem X28_every_run_ends (self : TaskScheduler Result) tasks (start : time) :
  sem_waiters (semaphore self) = [] ->
  (0 < sem_value (semaphore self))%nat ->
  (exists answer self',
      forall more,
        schedule_and_execute self tasks start
          (2 * 3005 * List.length tasks + 1 + more) = Some (answer, self')) /\
  (forall k r,
      turns (sorted tasks) k (launch self (sorted tasks) start) = Some r ->
      forallb is_done (states r) = false ->
      step (sorted tasks) r <> None).
Proof.
  intros Hq Hfree.
  destruct (sem_value (semaphore self)) as [|free] eqn:Hv; [lia|].
  pose proof (launch_gate self (sorted tasks) start Hq) as Hgate. rewrite Hv in Hgate.
  destruct (launch_live self (sorted tasks) start Hq) as [Hlive Hleft].
  rewrite sorted_length in Hleft.
  split.
  - destruct (run_ends (sorted tasks) free _ _ Hlive Hgate Hleft) as [r Hrun].
    exists (match failures_of (states r) with
            | e :: _ => Raise ("Task execution failed: " ++ failure_str e)%string
            | [] => Return (results (sched r))
            end), (sched r).
    intros more. unfold schedule_and_execute.
    rewrite (run_more (sorted tasks) more _ _ _ Hrun).
    destruct (failures_of (states r)); reflexivity.
  - intros k. clear Hleft. generalize dependent (launch self (sorted tasks) start).
    induction k as [|k IH]; intros r0 Hgate Hlive r Hturns Hnot Hstuck; simpl in Hturns.
    + inversion Hturns; subst r0. unfold step in Hstuck.
      destruct (ready r) eqn:Hready; [|discriminate].
      destruct (earliest 0 (states r)) as [[t due]|] eqn:Hearliest; [discriminate|].
      apply (never_stuck (sorted tasks) r free Hlive Hgate Hready Hnot Hearliest).
    + destruct (step (sorted tasks) r0) as [r1|] eqn:Hstep; [|discriminate].
      destruct (step_live (sorted tasks) r0 r1 (S free) Hlive Hgate Hstep) as [Hlive1 _].
      apply (IH r1 (step_gate (sorted tasks) r0 r1 _ Hgate Hstep) Hlive1
               r Hturns Hnot Hstuck).
Qed.

End WithData.

Lemma X28_every_run_ends_witness :
  let self := @TaskScheduler_init string 3 in
  let tasks := MoreExamples.tasks_cycle in
  sem_waiters (semaphore self) = [] /\
  (0 < sem_value (semaphore self))%nat /\
  (exists answer self',
      forall more,
        schedule_and_execute self tasks 0
          (2 * 3005 * List.length tasks + 1 + more) = Some (answer, self')) /\
  (forall k r,
      turns (sorted tasks) k (launch self (sorted tasks) 0) = Some r ->
      forallb is_done (states r) = false ->
      step (sorted tasks) r <> None).
Proof.
  intros self tasks.
  assert (Hq : sem_waiters (semaphore self) = []) by reflexivity.
  assert (Hfree : (0 < sem_value (semaphore self))%nat) by (simpl; lia).
  split; [exact Hq|]. split; [exact Hfree|].
  exact (X28_every_run_ends self tasks 0 Hq Hfree).
Defined.

End SchedulerLiveness.

(** ** The LLM client *)

Module LLMProofs.
Import Py LLMClient.

Section WithModel.

Variable respond : nat -> list Message -> Exc string.
Variable took : nat -> Z.

Lemma invocations_app (tr1 tr2 : list Event) :
  invocations (tr1 ++ tr2) = (invocations tr1 ++ invocations tr2)%list.
Proof. unfold invocations. apply flat_map_app. Qed.

Lemma sleeps_app (tr1 tr2 : list Event) :
  sleeps (tr1 ++ tr2) = (sleeps tr1 ++ sleeps tr2)%list.
Proof. unfold sleeps. apply flat_map_app. Qed.

Lemma not_last_attempt (a n : nat) :
  (2 <= n)%nat -> (Z.of_nat a =? Z.of_nat (a + n) - 1) = false.
Proof. intros H. apply Z.eqb_neq. lia. Qed.

Lemma last_attempt (a : nat) : (Z.of_nat a =? Z.of_nat (a + 1) - 1) = true.
Proof. apply Z.eqb_eq. lia. Qed.

Lemma attempts_cons (attempt : Z) (todo : list Z) (max_retries : Z)
    (messages : list Message) (w : World) :
  attempts respond took (attempt :: todo) max_retries messages w
  = match respond (List.length (invocations (trace w))) messages with
    | Return content => (fst (invoke respond took messages w), Return content)
    | Raise e =>
        if attempt =? max_retries - 1
        then (fst (invoke respond took messages w),
              Raise ("LLM call failed after " ++ str_int max_retries
                     ++ " attempts: " ++ e)%string)
        else attempts respond took todo max_retries messages
               (sleep (1000 * 2 ^ attempt) (fst (invoke respond took messages w)))
    end.
Proof. reflexivity. Qed.

(** The loop from attempt [a] on, when the first [k] invocations raise
    and the next one returns. *)
Lemma attempts_return (messages : list Message) (c : string) (k : nat) :
  forall (a n : nat) (w : World),
    (k < n)%nat ->
    all_raise respond messages (List.length (invocations (trace w))) k ->
    respond (List.length (invocations (trace w)) + k) messages = Return c ->
    exists w',
      attempts respond took (map Z.of_nat (seq a n)) (Z.of_nat (a + n)) messages w
      = (w', Return c) /\
      client w' = client w /\
      trace w' = (trace w ++ backoff messages (map Z.of_nat (seq a k))
                  ++ [Invoked messages])%list.
Proof.
  induction k as [|k IH]; intros a n w Hk Hfail Hok.
  - destruct n as [|n]; [lia|]. cbn [seq map]. rewrite attempts_cons.
    rewrite Nat.add_0_r in Hok. rewrite Hok.
    eexists. split; [reflexivity|]. split; reflexivity.
  - destruct n as [|n]; [lia|]. cbn [seq map]. rewrite attempts_cons.
    destruct (Hfail O) as [e He]; [lia|]. rewrite Nat.add_0_r in He. rewrite He.
    rewrite not_last_attempt by lia.
    match goal with |- context [attempts _ _ _ _ _ ?w1] =>
      destruct (IH (S a) n w1) as (w' & Hrun & Hclient & Htrace)
    end.
    + lia.
    + intros j Hj. simpl. rewrite !invocations_app. simpl. rewrite !length_app. simpl.
      rewrite Nat.add_0_r.
      destruct (Hfail (S j)) as [e' He']; [lia|]. exists e'.
      rewrite <- He'. f_equal. lia.
    + simpl. rewrite !invocations_app. simpl. rewrite !length_app. simpl.
      rewrite Nat.add_0_r. rewrite <- Hok. f_equal. lia.
    + exists w'. replace (Z.of_nat (a + S n)) with (Z.of_nat (S a + n)) by lia.
      split; [exact Hrun|]. split; [exact Hclient|].
      rewrite Htrace. simpl. rewrite <- !app_assoc. reflexivity.
Qed.

(** The loop from attempt [a] on, when every invocation raises. *)
Lemma attempts_raise (messages : list Message) (n : nat) :
  forall (a : nat) (w : World) (e : string),
    all_raise respond messages (List.length (invocations (trace w))) n ->
    respond (List.length (invocations (trace w)) + n) messages = Raise e ->
    exists w',
      attempts respond took (map Z.of_nat (seq a (S n))) (Z.of_nat (a + S n)) messages w
      = (w', Raise ("LLM call failed after " ++ str_int (Z.of_nat (a + S n))
                    ++ " attempts: " ++ e)%string) /\
      client w' = client w /\
      trace w' = (trace w ++ backoff messages (map Z.of_nat (seq a n))
                  ++ [Invoked messages])%list.
Proof.
  induction n as [|n IH]; intros a w e Hfail Hlast.
  - cbn [seq map]. rewrite attempts_cons.
    rewrite Nat.add_0_r in Hlast. rewrite Hlast. rewrite last_attempt.
    eexists. split; [reflexivity|]. split; reflexivity.
  - change (seq a (S (S n))) with (a :: seq (S a) (S n)).
    cbn [map]. rewrite attempts_cons.
    destruct (Hfail O) as [e0 He0]; [lia|]. rewrite Nat.add_0_r in He0. rewrite He0.
    rewrite not_last_attempt by lia.
    match goal with |- context [attempts _ _ _ _ _ ?w1] =>
      destruct (IH (S a) w1 e) as (w' & Hrun & Hclient & Htrace)
    end.
    + intros j Hj. simpl. rewrite !invocations_app. simpl. rewrite !length_app. simpl.
      rewrite Nat.add_0_r.
      destruct (Hfail (S j)) as [e' He']; [lia|]. exists e'.
      rewrite <- He'. f_equal. lia.
    + simpl. rewrite !invocations_app. simpl. rewrite !length_app. simpl.
      rewrite Nat.add_0_r. rewrite <- Hlast. f_equal. lia.
    + exists w'. replace (Z.of_nat (a + S (S n))) with (Z.of_nat (S a + S n)) by lia.
      split; [exact Hrun|]. split; [exact Hclient|].
      rewrite Htrace. simpl. rewrite <- !app_assoc. reflexivity.
Qed.

Lemma range_of_nat (n : nat) : range (Z.of_nat n) = map Z.of_nat (seq 0 n).
Proof. unfold range. rewrite Nat2Z.id. reflexivity. Qed.

Lemma rate_limit_invocations (w : World) :
  invocations (trace (_rate_limit w)) = invocations (trace w).
Proof.
  unfold _rate_limit. simpl.
  destruct (clock w - last_request_time (client w) <? min_request_interval (client w));
    [|reflexivity].
  simpl. rewrite invocations_app. simpl. apply app_nil_r.
Qed.

Lemma sleeps_backoff (messages : list Message) (failed : list Z) :
  sleeps (backoff messages failed) = map (fun attempt => 1000 * 2 ^ attempt) failed.
Proof.
  induction failed as [|a failed IH]; simpl; [reflexivity|]. rewrite IH. reflexivity.
Qed.

Lemma invocations_backoff (messages : list Message) (failed : list Z) :
  invocations (backoff messages failed) = repeat messages (List.length failed).
Proof.
  induction failed as [|a failed IH]; simpl; [reflexivity|]. rewrite IH. reflexivity.
Qed.

Lemma sum_snoc (l : list Z) (x : Z) :
  fold_right Z.add 0 (l ++ [x]) = fold_right Z.add 0 l + x.
Proof. induction l as [|y l IH]; simpl; [lia|]. rewrite IH. lia. Qed.

Lemma total_backoff (k : nat) :
  fold_right Z.add 0 (map (fun attempt => 1000 * 2 ^ attempt) (map Z.of_nat (seq 0 k)))
  = 1000 * (2 ^ Z.of_nat k - 1).
Proof.
  induction k as [|k IH]; [reflexivity|].
  rewrite seq_S, !map_app. cbn [map]. rewrite sum_snoc, IH.
  replace (Z.of_nat (S k)) with (Z.of_nat k + 1) by lia.
  rewrite Z.pow_add_r by lia. cbn [Nat.add]. lia.
Qed.

(** X19. When the first [k] invocations of a call of [generate] raise
    and the next one returns, with [k] below [max_retries], the call
    returns the content of that response. After the rate limit it has
    made exactly [k + 1] invocations, all with the same messages, with
    a sleep of 1, 2, 4, ... seconds after each one that raised: 2 to
    the [k], minus 1, seconds of sleep in all. *)
Theorem X19_generate_returns_the_first_response
    (prompt : string) (system_message : option string) (max_retries : Z)
    (w : World) (k : nat) (c : string) :
  let messages := build_messages prompt system_message in
  let first := List.length (invocations (trace w)) in
  Z.of_nat k < max_retries ->
  all_raise respond messages first k ->
  respond (first + k) messages = Return c ->
  exists w',
    generate respond took prompt system_message max_retries w = (w', Return c) /\
    trace w' = (trace (_rate_limit w) ++ backoff messages (range (Z.of_nat k))
                ++ [Invoked messages])%list /\
    invocations (trace w') = (invocations (trace w) ++ repeat messages (S k))%list /\
    sleeps (trace w')
    = (sleeps (trace (_rate_limit w))
       ++ map (fun attempt => 1000 * 2 ^ attempt) (range (Z.of_nat k)))%list /\
    fold_right Z.add 0 (map (fun attempt => 1000 * 2 ^ attempt) (range (Z.of_nat k)))
    = 1000 * (2 ^ Z.of_nat k - 1).
Proof.
  intros messages first Hk Hfail Hok. unfold generate. fold messages.
  assert (Hn : max_retries = Z.of_nat (Z.to_nat max_retries)) by lia.
  rewrite Hn. rewrite range_of_nat.
  destruct (attempts_return messages c k 0 (Z.to_nat max_retries) (_rate_limit w))
    as (w' & Hrun & _ & Htrace).
  - lia.
  - rewrite rate_limit_invocations. exact Hfail.
  - rewrite rate_limit_invocations. exact Hok.
  - exists w'. split; [exact Hrun|]. rewrite range_of_nat.
    split; [exact Htrace|]. split; [|split].
    + rewrite Htrace, !invocations_app, rate_limit_invocations, invocations_backoff.
      rewrite length_map, length_seq. simpl. rewrite <- repeat_cons. reflexivity.
    + rewrite Htrace, !sleeps_app, sleeps_backoff. simpl. rewrite app_nil_r. reflexivity.
    + apply total_backoff.
Qed.

(** X20. When all the invocations of a call of [generate] raise, with
    [max_retries] at least 1, the call raises [LLM call failed after
    N attempts:] followed by the text of the last exception. It has
    made exactly [max_retries] invocations and has slept after each of
    them but the last. With [max_retries] at most 0 it raises [LLM
    generation failed] without any invocation, after the rate limit
    all the same. *)
Theorem X20_generate_gives_up
    (prompt : string) (system_message : option string) (w : World) :
  let messages := build_messages prompt system_message in
  let first := List.length (invocations (trace w)) in
  (forall (n : nat) (e : string),
      all_raise respond messages first n ->
      respond (first + n) messages = Raise e ->
      exists w',
        generate respond took prompt system_message (Z.of_nat (S n)) w
        = (w', Raise ("LLM call failed after " ++ str_int (Z.of_nat (S n))
                      ++ " attempts: " ++ e)%string) /\
        trace w' = (trace (_rate_limit w) ++ backoff messages (range (Z.of_nat n))
                    ++ [Invoked messages])%list /\
        invocations (trace w') = (invocations (trace w) ++ repeat messages (S n))%list /\
        sleeps (trace w')
        = (sleeps (trace (_rate_limit w))
           ++ map (fun attempt => 1000 * 2 ^ attempt) (range (Z.of_nat n)))%list) /\
  (forall max_retries,
      max_retries <= 0 ->
      generate respond took prompt system_message max_retries w
      = (_rate_limit w, Raise "LLM generation failed")).
Proof.
  intros messages first. split.
  - intros n e Hfail Hlast. unfold generate. fold messages.
    rewrite range_of_nat.
    destruct (attempts_raise messages n 0 (_rate_limit w) e)
      as (w' & Hrun & _ & Htrace).
    + rewrite rate_limit_invocations. exact Hfail.
    + rewrite rate_limit_invocations. exact Hlast.
    + exists w'. split; [exact Hrun|]. rewrite range_of_nat.
      split; [exact Htrace|]. split.
      * rewrite Htrace, !invocations_app, rate_limit_invocations, invocations_backoff.
        rewrite length_map, length_seq. simpl. rewrite <- repeat_cons. reflexivity.
      * rewrite Htrace, !sleeps_app, sleeps_backoff. simpl. rewrite app_nil_r.
        reflexivity.
  - intros max_retries Hle. unfold generate, range.
    replace (Z.to_nat max_retries) with O by lia. reflexivity.
Qed.

(** The loop, whatever the model answers. *)
Lemma attempts_any (messages : list Message) (max_retries : Z) (todo : list Z) :
  forall (w : World),
    let run := attempts respond took todo max_retries messages w in
    client (fst run) = client w /\
    exists m,
      (m <= List.length todo)%nat /\
      invocations (trace (fst run)) = (invocations (trace w) ++ repeat messages m)%list /\
      (forall c, snd run = Return c ->
                 exists j, (j < m)%nat /\
                           respond (List.length (invocations (trace w)) + j) messages
                           = Return c /\ S j = m).
Proof.
  induction todo as [|attempt todo IH]; intros w.
  - simpl. split; [reflexivity|]. exists O. split; [lia|].
    split; [rewrite app_nil_r; reflexivity | discriminate].
  - cbn zeta. rewrite attempts_cons.
    destruct (respond (List.length (invocations (trace w))) messages) as [c0|e] eqn:Hr.
    + split; [reflexivity|]. exists 1%nat. split; [simpl; lia|]. split.
      * simpl. rewrite invocations_app. reflexivity.
      * intros c Hc. simpl in Hc. inversion Hc; subst c0. exists O.
        rewrite Nat.add_0_r. split; [lia|]. split; [exact Hr | reflexivity].
    + destruct (attempt =? max_retries - 1).
      * split; [reflexivity|]. exists 1%nat. split; [simpl; lia|]. split.
        -- simpl. rewrite invocations_app. reflexivity.
        -- discriminate.
      * match goal with |- context [attempts _ _ _ _ _ ?w1] =>
          destruct (IH w1) as (Hclient & m & Hm & Hinv & Hret);
          assert (Hcount : invocations (trace w1)
                           = (invocations (trace w) ++ [messages])%list)
            by (simpl; rewrite !invocations_app; simpl; rewrite app_nil_r; reflexivity)
        end.
        split; [rewrite Hclient; reflexivity|].
        exists (S m). split; [simpl; lia|]. split.
        -- rewrite Hinv, Hcount, <- app_assoc. reflexivity.
        -- intros c Hc. destruct (Hret c Hc) as (j & Hj & Hrespond & Hlast).
           exists (S j). split; [lia|]. split; [|lia].
           rewrite <- Hrespond, Hcount, length_app. simpl. f_equal. lia.
Qed.

(** X21. Whatever the model answers, a call of [generate] makes at
    most [max_retries] invocations, all with the messages built from
    its prompt, and a content it returns is the content of the
    response to the last of them. The system message is left out when
    it is [None] or empty. *)
Theorem X21_generate_bounded
    (prompt : string) (system_message : option string) (max_retries : Z) (w : World) :
  let messages := build_messages prompt system_message in
  let run := generate respond took prompt system_message max_retries w in
  (exists m,
      Z.of_nat m <= Z.max 0 max_retries /\
      invocations (trace (fst run)) = (invocations (trace w) ++ repeat messages m)%list /\
      forall c, snd run = Return c ->
                (0 < m)%nat /\
                respond (List.length (invocations (trace w)) + (m - 1)) messages
                = Return c) /\
  (messages = [HumanMessage prompt] <->
   system_message = None \/ system_message = Some EmptyString) /\
  (forall content, system_message = Some content -> content <> EmptyString ->
                   messages = [SystemMessage content; HumanMessage prompt]).
Proof.
  intros messages run. split; [|split].
  - unfold run, generate. fold messages.
    destruct (attempts_any messages max_retries (range max_retries) (_rate_limit w))
      as (_ & m & Hm & Hinv & Hret).
    exists m. split; [|split].
    + unfold range in Hm. rewrite length_map, length_seq in Hm. lia.
    + rewrite Hinv, rate_limit_invocations. reflexivity.
    + intros c Hc. destruct (Hret c Hc) as (j & Hj & Hrespond & Hlast).
      split; [lia|]. rewrite rate_limit_invocations in Hrespond.
      replace (m - 1)%nat with j by lia. exact Hrespond.
  - unfold messages, build_messages.
    destruct system_message as [[|a content]|]; split; auto; try discriminate.
    intros [H|H]; discriminate.
  - intros content -> Hne. unfold messages, build_messages.
    destruct content; [congruence | reflexivity].
Qed.

(** X22. The rate limit stamps a call before its attempts: after
    [_rate_limit], and so after a call of [generate] however it ends
    and however many attempts it made, [last_request_time] is the later
    of the time of the call and of the previous stamp plus
    [min_request_interval]. The rate limit sleeps at most once, for
    what is missing to the interval, and not at all when the interval
    has passed. *)
Theorem X22_stamp_taken_before_the_attempts
    (prompt : string) (system_message : option string) (max_retries : Z) (w : World) :
  let previous := last_request_time (client w) in
  let interval := min_request_interval (client w) in
  let stamp := Z.max (clock w) (previous + interval) in
  last_request_time (client (_rate_limit w)) = stamp /\
  clock (_rate_limit w) = stamp /\
  min_request_interval (client (_rate_limit w)) = interval /\
  trace (_rate_limit w)
  = (trace w ++ if clock w - previous <? interval
                then [Slept (previous + interval - clock w)] else [])%list /\
  client (fst (generate respond took prompt system_message max_retries w))
  = client (_rate_limit w).
Proof.
  intros previous interval stamp.
  assert (Hclient : client (fst (generate respond took prompt system_message
                                   max_retries w)) = client (_rate_limit w)).
  { unfold generate.
    apply (proj1 (attempts_any (build_messages prompt system_message) max_retries
                    (range max_retries) (_rate_limit w))). }
  split; [|split; [|split; [|split; [|exact Hclient]]]];
    unfold stamp, previous, interval, _rate_limit;
    destruct (Z.ltb_spec (clock w - last_request_time (client w))
                (min_request_interval (client w))) as [Hsoon|Hlate]; simpl;
    rewrite ?app_nil_r; try reflexivity; try lia.
  do 3 f_equal. lia.
Qed.

(** X23. An agent always sends its system message: every invocation
    made by [_generate], and so by [llm_call], carries the system
    message built from the role, the goal and the backstory, followed
    by the prompt, and there are at most three of them. When all
    three raise, the call raises [LLM call failed after 3 attempts:]
    with the text of the third exception, having slept 1 s and 2 s
    between the attempts. *)
Theorem X23_agent_calls
    (self : BaseAgent) (prompt : string) (w : World) :
  let messages := [SystemMessage (_create_system_message self); HumanMessage prompt] in
  let first := List.length (invocations (trace w)) in
  llm_call respond took self prompt w = _generate respond took self prompt w /\
  (exists m,
      (m <= 3)%nat /\
      invocations (trace (fst (_generate respond took self prompt w)))
      = (invocations (trace w) ++ repeat messages m)%list) /\
  (forall e,
      all_raise respond messages first 2 ->
      respond (first + 2) messages = Raise e ->
      exists w',
        _generate respond took self prompt w
        = (w', Raise ("LLM call failed after 3 attempts: " ++ e)%string) /\
        trace w' = (trace (_rate_limit w)
                    ++ [Invoked messages; Slept 1000; Invoked messages; Slept 2000;
                        Invoked messages])%list).
Proof.
  intros messages first.
  assert (Hmsg : build_messages prompt (Some (_create_system_message self)) = messages)
    by reflexivity.
  split; [reflexivity|]. split.
  - unfold _generate, generate. rewrite Hmsg.
    destruct (attempts_any messages 3 (range 3) (_rate_limit w))
      as (_ & m & Hm & Hinv & _).
    exists m. split; [exact Hm|]. rewrite Hinv, rate_limit_invocations. reflexivity.
  - intros e Hfail Hlast. unfold _generate, generate. rewrite Hmsg.
    destruct (attempts_raise messages 2 0 (_rate_limit w) e)
      as (w' & Hrun & _ & Htrace).
    + rewrite rate_limit_invocations. exact Hfail.
    + rewrite rate_limit_invocations. exact Hlast.
    + exists w'. split; [exact Hrun | exact Htrace].
Qed.

End WithModel.

Lemma X19_generate_returns_the_first_response_witness :
  let respond := LLMExamples.busy_twice in
  let took := LLMExamples.half_second in
  let w := LLMExamples.new_world in
  let messages := [HumanMessage "hello"] in
  Z.of_nat 2 < 3 /\
  all_raise respond messages 0 2 /\
  respond 2%nat messages = Return "done" /\
  exists w',
    generate respond took "hello" None 3 w = (w', Return "done") /\
    trace w' = (trace (_rate_limit w) ++ backoff messages (range (Z.of_nat 2))
                ++ [Invoked messages])%list /\
    invocations (trace w') = (invocations (trace w) ++ repeat messages 3)%list /\
    sleeps (trace w')
    = (sleeps (trace (_rate_limit w))
       ++ map (fun attempt => 1000 * 2 ^ attempt) (range (Z.of_nat 2)))%list /\
    fold_right Z.add 0 (map (fun attempt => 1000 * 2 ^ attempt) (range (Z.of_nat 2)))
    = 1000 * (2 ^ Z.of_nat 2 - 1).
Proof.
  intros respond took w messages.
  assert (Hk : Z.of_nat 2 < 3) by reflexivity.
  assert (Hfail : all_raise respond messages 0 2).
  { intros j Hj. exists "busy". destruct j as [|[|j]]; [reflexivity | reflexivity | lia]. }
  assert (Hok : respond 2%nat messages = Return "done") by reflexivity.
  split; [exact Hk|]. split; [exact Hfail|]. split; [exact Hok|].
  exact (X19_generate_returns_the_first_response respond took "hello" None 3 w 2 "done"
           Hk Hfail Hok).
Defined.

Lemma X20_generate_gives_up_witness :
  let respond := LLMExamples.down in
  let took := LLMExamples.half_second in
  let w := LLMExamples.new_world in
  let messages := [HumanMessage "hello"] in
  all_raise respond messages 0 2 /\
  respond 2%nat messages = Raise "down" /\
  (exists w',
      generate respond took "hello" None 3 w
      = (w', Raise "LLM call failed after 3 attempts: down") /\
      trace w' = [Slept 100; Invoked messages; Slept 1000; Invoked messages;
                  Slept 2000; Invoked messages]) /\
  generate respond took "hello" None 0 w = (_rate_limit w, Raise "LLM generation failed").
Proof.
  intros respond took w messages.
  assert (Hfail : all_raise respond messages 0 2)
    by (intros j Hj; exists "down"; reflexivity).
  assert (Hlast : respond 2%nat messages = Raise "down") by reflexivity.
  split; [exact Hfail|]. split; [exact Hlast|].
  destruct (X20_generate_gives_up respond took "hello" None w) as [Hup Hnone].
  split.
  - destruct (Hup 2%nat "down" Hfail Hlast) as (w' & Hrun & Htrace & _).
    exists w'. split; [exact Hrun | exact Htrace].
  - apply Hnone. discriminate.
Defined.

Lemma X23_agent_calls_witness :
  let respond := LLMExamples.down in
  let took := LLMExamples.half_second in
  let w := LLMExamples.new_world in
  let self := LLMExamples.tester in
  let messages := [SystemMessage (_create_system_message self); HumanMessage "hello"] in
  all_raise respond messages 0 2 /\
  respond 2%nat messages = Raise "down" /\
  exists w',
    _generate respond took self "hello" w
    = (w', Raise "LLM call failed after 3 attempts: down") /\
    trace w' = (trace (_rate_limit w)
                ++ [Invoked messages; Slept 1000; Invoked messages; Slept 2000;
                    Invoked messages])%list.
Proof.
  intros respond took w self messages.
  assert (Hfail : all_raise respond messages 0 2)
    by (intros j Hj; exists "down"; reflexivity).
  assert (Hlast : respond 2%nat messages = Raise "down") by reflexivity.
  split; [exact Hfail|]. split; [exact Hlast|].
  exact (proj2 (proj2 (X23_agent_calls respond took self "hello" w)) "down" Hfail Hlast).
Defined.

End LLMProofs.

(** ** The code analyst *)

Module CodeAnalystProofs.
Import Py Chunker LLMClient CodeAnalyst LLMProofs.

(** *** What a prompt shows of the files *)

Lemma firstn_nil_iff {A} (n : nat) (l l' : list A) :
  firstn (S n) l = firstn (S n) l' -> (l = [] <-> l' = []).
Proof.
  destruct l, l'; simpl; intros H; split; intros H'; try reflexivity; discriminate.
Qed.

Lemma add_file_shown (summary : string) (a b : FileMeta) :
  shown a = shown b -> add_file summary a = add_file summary b.
Proof.
  intros H.
  pose proof (f_equal (fun t => fst (fst (fst (fst (fst t))))) H) as Hname.
  pose proof (f_equal (fun t => snd (fst (fst (fst (fst t))))) H) as Hpath.
  pose proof (f_equal (fun t => snd (fst (fst (fst t)))) H) as Hlines.
  pose proof (f_equal (fun t => snd (fst (fst t))) H) as Hfun.
  pose proof (f_equal (fun t => snd (fst t)) H) as Hcls.
  pose proof (f_equal (fun t => snd t) H) as Hprev.
  cbn [shown fst snd] in Hname, Hpath, Hlines, Hfun, Hcls, Hprev.
  unfold add_file. rewrite Hname, Hpath, Hlines, Hfun, Hcls.
  pose proof (firstn_nil_iff 9 _ _ Hfun) as Hf.
  pose proof (firstn_nil_iff 9 _ _ Hcls) as Hc.
  destruct (meta_functions a), (meta_functions b);
    try (exfalso; destruct Hf as [Hf1 Hf2];
         first [discriminate (Hf1 eq_refl) | discriminate (Hf2 eq_refl)]);
    destruct (meta_classes a), (meta_classes b);
    try (exfalso; destruct Hc as [Hc1 Hc2];
         first [discriminate (Hc1 eq_refl) | discriminate (Hc2 eq_refl)]);
    destruct (meta_preview a), (meta_preview b); try discriminate; reflexivity.
Qed.

Lemma chunk_summary_shown (chunk chunk' : list FileMeta) :
  map shown chunk = map shown chunk' ->
  forall summary, fold_left add_file chunk summary = fold_left add_file chunk' summary.
Proof.
  revert chunk'. induction chunk as [|a chunk IH]; intros [|b chunk'] H summary;
    try discriminate; [reflexivity|].
  cbn [map] in H. cbn [fold_left].
  pose proof (f_equal (@hd _ (shown a)) H) as Hab.
  pose proof (f_equal (@tl _) H) as Hrest.
  cbn [hd tl] in Hab, Hrest.
  rewrite (add_file_shown summary a b Hab). apply IH. exact Hrest.
Qed.

(** X24. The prompt the analyst builds for a chunk shows of each file
    its name, its path, its number of lines, its first 10 functions
    and its first 10 classes, and whether it has a preview: two chunks
    that agree on these get the same prompt. No text of a file, neither
    its preview nor its content, reaches the model. *)
Theorem X24_prompt_shows_no_text (chunk chunk' : list FileMeta) (chunk_idx : Z) :
  map shown chunk = map shown chunk' ->
  chunk_summary chunk chunk_idx = chunk_summary chunk' chunk_idx /\
  chunk_prompt chunk chunk_idx = chunk_prompt chunk' chunk_idx.
Proof.
  intros H.
  assert (Hs : chunk_summary chunk chunk_idx = chunk_summary chunk' chunk_idx)
    by (unfold chunk_summary; apply chunk_summary_shown; exact H).
  split; [exact Hs|]. unfold chunk_prompt. rewrite Hs. reflexivity.
Qed.

Section WithModel.

Variable respond : nat -> list Message -> Exc string.
Variable took : nat -> Z.
Variable upper : string -> string.
Variable strip : string -> string.

(** *** The section extracted *)

Lemma extract_loop_before header (before : list string) : forall rest,
  (forall line, In line before -> names_header upper header line = false) ->
  extract_loop upper header (before ++ rest) false []
  = extract_loop upper header rest false [].
Proof.
  induction before as [|line before IH]; intros rest Hnone; [reflexivity|].
  simpl. unfold names_header in Hnone.
  rewrite (Hnone line (or_introl eq_refl)). simpl.
  apply IH. intros l Hl. apply Hnone. right. exact Hl.
Qed.

Lemma extract_loop_body header (body : list string) : forall rest section_lines,
  (forall line, In line body ->
                names_header upper header line = true \/ startswith "##" line = false) ->
  extract_loop upper header (body ++ rest) true section_lines
  = extract_loop upper header rest true
      (section_lines ++ filter (fun line => negb (names_header upper header line)) body).
Proof.
  induction body as [|line body IH]; intros rest section_lines Hplain.
  - simpl. rewrite app_nil_r. reflexivity.
  - cbn [app extract_loop filter]. unfold names_header in *.
    assert (Hrest : forall l, In l body ->
              contains (upper header) (upper l) = true \/ startswith "##" l = false)
      by (intros l Hl; apply Hplain; right; exact Hl).
    destruct (contains (upper header) (upper line)) eqn:Hname; cbn [negb].
    + apply IH. exact Hrest.
    + destruct (Hplain line (or_introl eq_refl)) as [H|H]; [congruence|].
      rewrite H. cbn [andb]. rewrite IH by exact Hrest.
      rewrite <- app_assoc. reflexivity.
Qed.

(** Every list splits at the first element on which [p] holds. *)
Lemma first_hit {A} (p : A -> bool) (l : list A) :
  (forall x, In x l -> p x = false) \/
  exists before x after,
    l = (before ++ x :: after)%list /\
    (forall y, In y before -> p y = false) /\ p x = true.
Proof.
  induction l as [|a l IH].
  - left. intros x [].
  - destruct (p a) eqn:Ha.
    + right. exists [], a, l. split; [reflexivity|]. split; [intros y []|exact Ha].
    + destruct IH as [Hnone|(before & x & after & -> & Hbefore & Hx)].
      * left. intros x [<-|Hin]; [exact Ha|apply Hnone; exact Hin].
      * right. exists (a :: before), x, after. split; [reflexivity|]. split; [|exact Hx].
        intros y [<-|Hin]; [exact Ha|apply Hbefore; exact Hin].
Qed.

(** X25. [_extract_section] starts at the first line that names the
    header, in whatever case and wherever in the line, a heading or
    not, and stops at the end of the text or at the next line that
    starts with [##] and does not name the header. Of the lines in
    between it drops every one that names the header again, and
    returns the others, joined and stripped. When no line names the
    header it returns the empty text, stripped. Every text is in one
    of the two cases. *)
Theorem X25_section_extracted (text header : string) :
  (forall before hit body rest,
      split_nl text = (before ++ hit :: body ++ rest)%list ->
      (forall line, In line before -> names_header upper header line = false) ->
      names_header upper header hit = true ->
      (forall line, In line body ->
                    names_header upper header line = true \/
                    startswith "##" line = false) ->
      (rest = [] \/
       exists stop after, rest = stop :: after /\
                          names_header upper header stop = false /\
                          startswith "##" stop = true) ->
      _extract_section upper strip text header
      = strip (join nl (filter (fun line => negb (names_header upper header line)) body))) /\
  ((forall line, In line (split_nl text) -> names_header upper header line = false) ->
   _extract_section upper strip text header = strip EmptyString) /\
  ((forall line, In line (split_nl text) -> names_header upper header line = false) \/
   exists before hit body rest,
     split_nl text = (before ++ hit :: body ++ rest)%list /\
     (forall line, In line before -> names_header upper header line = false) /\
     names_header upper header hit = true /\
     (forall line, In line body ->
                   names_header upper header line = true \/
                   startswith "##" line = false) /\
     (rest = [] \/
      exists stop after, rest = stop :: after /\
                         names_header upper header stop = false /\
                         startswith "##" stop = true)).
Proof.
  split; [|split].
  - intros before hit body rest Hsplit Hbefore Hhit Hbody Hrest.
    unfold _extract_section. rewrite Hsplit.
    rewrite (extract_loop_before header before _ Hbefore).
    cbn [extract_loop]. unfold names_header in Hhit. rewrite Hhit.
    rewrite (extract_loop_body header body rest [] Hbody). simpl.
    destruct Hrest as [->|(stop & after & -> & Hstop & Hmark)]; [reflexivity|].
    cbn [extract_loop]. unfold names_header in Hstop. rewrite Hstop, Hmark. reflexivity.
  - intros Hnone. unfold _extract_section.
    rewrite <- (app_nil_r (split_nl text)).
    rewrite (extract_loop_before header (split_nl text) [] Hnone). reflexivity.
  - destruct (first_hit (names_header upper header) (split_nl text))
      as [Hnone|(before & hit & tail & Hsplit & Hbefore & Hhit)]; [left; exact Hnone|].
    right.
    destruct (first_hit (fun line => negb (names_header upper header line)
                                     && startswith "##" line) tail)
      as [Hbody|(body & stop & after & -> & Hbody & Hstop)].
    + exists before, hit, tail, []. rewrite app_nil_r.
      split; [exact Hsplit|]. split; [exact Hbefore|]. split; [exact Hhit|].
      split; [|left; reflexivity].
      intros line Hin. specialize (Hbody line Hin).
      destruct (names_header upper header line); [left; reflexivity|right; exact Hbody].
    + exists before, hit, body, (stop :: after).
      split; [exact Hsplit|]. split; [exact Hbefore|]. split; [exact Hhit|]. split.
      * intros line Hin. specialize (Hbody line Hin).
        destruct (names_header upper header line); [left; reflexivity|right; exact Hbody].
      * right. exists stop, after. split; [reflexivity|].
        apply andb_true_iff in Hstop. destruct Hstop as [Hname Hmark].
        apply negb_true_iff in Hname. split; assumption.
Qed.

(** *** The calls of [execute] *)

Lemma invocations_snoc (tr : list Event) (messages : list Message) :
  invocations (tr ++ [Invoked messages]) = (invocations tr ++ [messages])%list.
Proof. rewrite invocations_app. reflexivity. Qed.

Lemma invocations_slept (tr : list Event) (ms : Z) :
  invocations (tr ++ [Slept ms]) = invocations tr.
Proof. rewrite invocations_app. simpl. apply app_nil_r. Qed.

(** A call of [_generate] whose first invocation returns. *)
Lemma generate_at_once (self : BaseAgent) (prompt : string) (w : World) (c : string) :
  respond (List.length (invocations (trace w))) (agent_messages self prompt) = Return c ->
  _generate respond took self prompt w
  = (fst (invoke respond took (agent_messages self prompt) (_rate_limit w)), Return c).
Proof.
  intros H. unfold _generate, generate.
  change (build_messages prompt (Some (_create_system_message self)))
    with (agent_messages self prompt).
  change (range 3) with [0; 1; 2]. cbn zeta. rewrite attempts_cons.
  rewrite rate_limit_invocations, H. reflexivity.
Qed.

Ltac worlds := unfold invoke, sleep; cbn [fst snd trace].

Ltac counted :=
  worlds;
  rewrite ?invocations_snoc, ?invocations_slept, ?invocations_snoc, ?invocations_slept,
    ?invocations_snoc, ?rate_limit_invocations, <- ?app_assoc.

(** A call of [_generate], whatever the model answers. *)
Lemma generate_cases (self : BaseAgent) (prompt : string) (w : World) :
  let run := _generate respond took self prompt w in
  exists m,
    (1 <= m <= 3)%nat /\
    invocations (trace (fst run))
    = (invocations (trace w) ++ repeat (agent_messages self prompt) m)%list /\
    forall msg, snd run = Raise msg ->
                m = 3%nat /\
                exists e, msg = ("LLM call failed after 3 attempts: " ++ e)%string.
Proof.
  unfold _generate, generate.
  change (build_messages prompt (Some (_create_system_message self)))
    with (agent_messages self prompt).
  change (range 3) with [0; 1; 2]. cbn zeta.
  rewrite attempts_cons.
  destruct (respond _ _) as [c|e1].
  { exists 1%nat. split; [lia|]. split; [|discriminate]. counted. reflexivity. }
  change (0 =? 3 - 1) with false. cbv iota.
  rewrite attempts_cons.
  destruct (respond _ _) as [c|e2].
  { exists 2%nat. split; [lia|]. split; [|discriminate]. counted. reflexivity. }
  change (1 =? 3 - 1) with false. cbv iota.
  rewrite attempts_cons.
  destruct (respond _ _) as [c|e3].
  { exists 3%nat. split; [lia|]. split; [|discriminate]. counted. reflexivity. }
  change (2 =? 3 - 1) with true. cbv iota.
  exists 3%nat. split; [lia|]. split.
  - counted. reflexivity.
  - intros msg Hmsg. split; [reflexivity|]. exists e3. cbn [snd] in Hmsg.
    inversion Hmsg. reflexivity.
Qed.

Lemma analyze_chunks_reliable (self : BaseAgent) :
  reliable respond ->
  forall (todo : list (list FileMeta)) (i : Z) (chunk_analyses : list string) (w : World),
    let first := List.length (invocations (trace w)) in
    exists w',
      analyze_chunks respond took self todo i chunk_analyses w
      = (w', Return (chunk_analyses ++ answers respond self todo i first)%list) /\
      invocations (trace w')
      = (invocations (trace w) ++ map (agent_messages self) (chunk_prompts todo i))%list /\
      List.length (answers respond self todo i first) = List.length todo.
Proof.
  intros Hreliable. induction todo as [|chunk rest IH]; intros i chunk_analyses w first.
  - exists w. simpl. rewrite !app_nil_r. repeat split.
  - destruct (Hreliable first (agent_messages self (chunk_prompt chunk i)))
      as [analysis Hanswer].
    cbn [analyze_chunks answers chunk_prompts map]. rewrite Hanswer.
    unfold and_then, _analyze_chunk.
    rewrite (generate_at_once self _ w analysis Hanswer).
    match goal with |- context [analyze_chunks _ _ _ _ _ _ ?w1] =>
      destruct (IH (i + 1) (chunk_analyses ++ [analysis])%list w1)
        as (w' & Hrun & Hinv & Hlen);
      assert (Hcount : invocations (trace w1)
                       = (invocations (trace w)
                          ++ [agent_messages self (chunk_prompt chunk i)])%list)
        by (counted; reflexivity)
    end.
    rewrite Hcount in Hinv. rewrite Hcount, length_app in Hrun, Hlen.
    cbn [List.length] in Hrun, Hlen. fold first in Hrun, Hlen.
    replace (first + 1)%nat with (S first) in Hrun, Hlen by lia.
    exists w'. split; [|split].
    + rewrite Hrun, <- app_assoc. reflexivity.
    + rewrite Hinv, <- app_assoc. reflexivity.
    + simpl. rewrite Hlen. reflexivity.
Qed.

Lemma analyze_chunks_any (self : BaseAgent) :
  forall (todo : list (list FileMeta)) (i : Z) (chunk_analyses : list string) (w : World),
    let run := analyze_chunks respond took self todo i chunk_analyses w in
    (List.length (invocations (trace (fst run)))
     <= List.length (invocations (trace w)) + 3 * List.length todo)%nat /\
    forall msg, snd run = Raise msg ->
                exists e, msg = ("LLM call failed after 3 attempts: " ++ e)%string.
Proof.
  induction todo as [|chunk rest IH]; intros i chunk_analyses w.
  - simpl. split; [lia | discriminate].
  - cbn [analyze_chunks]. unfold and_then, _analyze_chunk. cbn zeta.
    destruct (generate_cases self (chunk_prompt chunk i) w) as (m & Hm & Hinv & Hraise).
    destruct (_generate respond took self (chunk_prompt chunk i) w) as [w1 [analysis|msg1]].
    + cbn [fst snd] in Hinv.
      destruct (IH (i + 1) (chunk_analyses ++ [analysis])%list w1) as [Hcount Hmsg].
      split; [|exact Hmsg].
      rewrite Hinv, length_app, repeat_length in Hcount. simpl. lia.
    + cbn [fst snd] in *. split.
      * rewrite Hinv, length_app, repeat_length. simpl. lia.
      * intros msg Hmsg. inversion Hmsg; subst msg1.
        destruct (Hraise msg eq_refl) as [_ He]. exact He.
Qed.

(** X26. With a model that never raises, [execute] returns after
    exactly one invocation per chunk, in order and each with the prompt
    of its chunk, followed by one invocation for the synthesis, whose
    prompt holds what the model answered on the chunks; the six fields
    of the result are the sections extracted from the answer to that
    last invocation. With no chunk at all, the synthesis is still
    asked for. *)
Theorem X26_execute_with_a_reliable_model
    {Context : Type} (self : BaseAgent) (input_data : Input) (context : Context)
    (w : World) :
  reliable respond ->
  let first := List.length (invocations (trace w)) in
  let chunk_analyses := answers respond self (chunks input_data) 0 first in
  let prompt := synthesis_prompt chunk_analyses (project_name input_data) in
  exists w' architecture_doc,
    respond (first + List.length (chunks input_data)) (agent_messages self prompt)
    = Return architecture_doc /\
    execute respond took upper strip self input_data context w
    = (w', Return
             {| architecture_overview :=
                  _extract_section upper strip architecture_doc "ARCHITECTURE OVERVIEW";
                component_analysis :=
                  _extract_section upper strip architecture_doc "COMPONENT BREAKDOWN";
                dependencies :=
                  _extract_section upper strip architecture_doc "DEPENDENCIES";
                tech_stack :=
                  _extract_section upper strip architecture_doc "TECHNOLOGY STACK";
                key_patterns :=
                  _extract_section upper strip architecture_doc "DESIGN PATTERNS";
                file_structure :=
                  _extract_section upper strip architecture_doc "FILE STRUCTURE" |}) /\
    invocations (trace w')
    = (invocations (trace w)
       ++ map (agent_messages self) (chunk_prompts (chunks input_data) 0 ++ [prompt]))%list /\
    List.length chunk_analyses = List.length (chunks input_data).
Proof.
  intros Hreliable first chunk_analyses prompt.
  destruct (analyze_chunks_reliable self Hreliable (chunks input_data) 0 [] w)
    as (w1 & Hrun & Hinv & Hlen).
  fold first in Hrun, Hlen. fold chunk_analyses in Hrun, Hlen. simpl in Hrun.
  assert (Hcount : List.length (invocations (trace w1))
                   = (first + List.length (chunks input_data))%nat).
  { rewrite Hinv, length_app, length_map. f_equal.
    clear. generalize 0. induction (chunks input_data) as [|c l IH]; intros i;
      simpl; [reflexivity|]. rewrite IH. reflexivity. }
  destruct (Hreliable (first + List.length (chunks input_data))%nat
              (agent_messages self prompt)) as [architecture_doc Hdoc].
  eexists. exists architecture_doc. split; [exact Hdoc|].
  unfold execute, and_then. rewrite Hrun.
  unfold _synthesize_architecture, and_then. fold prompt.
  rewrite (generate_at_once self prompt w1 architecture_doc)
    by (rewrite Hcount; exact Hdoc).
  split; [reflexivity|]. split; [|exact Hlen].
  counted. rewrite Hinv, map_app, <- app_assoc. reflexivity.
Qed.

(** X27. Whatever the model answers, [execute] makes at most three
    invocations per chunk and three for the synthesis, and when it
    raises, the exception is the one of a call of the client that gave
    up after its three attempts: its message is [LLM call failed after
    3 attempts:] followed by the text of an exception of the model.
    When the three invocations for the first chunk raise, [execute]
    raises after these three and none of the other chunks is sent. *)
Theorem X27_execute_whatever_the_model
    {Context : Type} (self : BaseAgent) (input_data : Input) (context : Context)
    (w : World) :
  let first := List.length (invocations (trace w)) in
  let run := execute respond took upper strip self input_data context w in
  (List.length (invocations (trace (fst run)))
   <= first + 3 * (List.length (chunks input_data) + 1))%nat /\
  (forall msg, snd run = Raise msg ->
               exists e, msg = ("LLM call failed after 3 attempts: " ++ e)%string) /\
  (forall chunk rest e,
      chunks input_data = chunk :: rest ->
      all_raise respond (agent_messages self (chunk_prompt chunk 0)) first 2 ->
      respond (first + 2) (agent_messages self (chunk_prompt chunk 0)) = Raise e ->
      snd run = Raise ("LLM call failed after 3 attempts: " ++ e)%string /\
      invocations (trace (fst run))
      = (invocations (trace w)
         ++ repeat (agent_messages self (chunk_prompt chunk 0)) 3)%list).
Proof.
  intros first run. unfold run, execute, and_then.
  split; [|split].
  - destruct (analyze_chunks_any self (chunks input_data) 0 [] w) as [Hcount _].
    destruct (analyze_chunks respond took self (chunks input_data) 0 [] w)
      as [w1 [chunk_analyses|msg]]; cbn [fst snd] in *; [|fold first in Hcount; lia].
    unfold _synthesize_architecture, and_then.
    destruct (generate_cases self
                (synthesis_prompt chunk_analyses (project_name input_data)) w1)
      as (m & Hm & Hinv & _).
    destruct (_generate respond took self
                (synthesis_prompt chunk_analyses (project_name input_data)) w1)
      as [w2 [doc|msg]]; cbn [fst snd returning] in *;
      rewrite Hinv, length_app, repeat_length; fold first in Hcount; lia.
  - destruct (analyze_chunks_any self (chunks input_data) 0 [] w) as [_ Hmsg].
    destruct (analyze_chunks respond took self (chunks input_data) 0 [] w)
      as [w1 [chunk_analyses|msg1]]; cbn [fst snd] in *;
      [|intros msg Hmsg'; inversion Hmsg'; subst msg1; apply (Hmsg msg eq_refl)].
    unfold _synthesize_architecture, and_then.
    destruct (generate_cases self
                (synthesis_prompt chunk_analyses (project_name input_data)) w1)
      as (m & _ & _ & Hraise).
    destruct (_generate respond took self
                (synthesis_prompt chunk_analyses (project_name input_data)) w1)
      as [w2 [doc|msg2]]; cbn [fst snd returning] in *; [discriminate|].
    intros msg Hmsg'. inversion Hmsg'; subst msg2.
    destruct (Hraise msg eq_refl) as [_ He]. exact He.
  - intros chunk rest e Hchunks Hfail Hlast. rewrite Hchunks.
    cbn [analyze_chunks]. unfold and_then, _analyze_chunk.
    destruct (attempts_raise respond took
                (agent_messages self (chunk_prompt chunk 0)) 2 0 (_rate_limit w) e)
      as (w' & Hrun & _ & Htrace).
    + rewrite rate_limit_invocations. exact Hfail.
    + rewrite rate_limit_invocations. exact Hlast.
    + assert (Hgen : _generate respond took self (chunk_prompt chunk 0) w
                     = (w', Raise ("LLM call failed after 3 attempts: " ++ e)%string))
        by exact Hrun.
      rewrite Hgen. cbn [fst snd]. split; [reflexivity|].
      rewrite Htrace, !invocations_app, rate_limit_invocations. reflexivity.
Qed.

End WithModel.

Lemma X24_prompt_shows_no_text_witness :
  let chunk := [Meta ChunkerExamples.a_py] in
  let chunk' := [Meta LLMExamples.a_py_other_text] in
  map shown chunk = map shown chunk' /\
  chunk_summary chunk 0 = chunk_summary chunk' 0 /\
  chunk_prompt chunk 0 = chunk_prompt chunk' 0.
Proof.
  intros chunk chunk'.
  assert (H : map shown chunk = map shown chunk') by reflexivity.
  split; [exact H|].
  exact (X24_prompt_shows_no_text chunk chunk' 0 H).
Defined.

Lemma X25_section_extracted_witness :
  let text := LLMExamples.architecture_doc in
  _extract_section LLMExamples.unchanged LLMExamples.unchanged text "ARCHITECTURE OVERVIEW"
  = "A web service." /\
  _extract_section LLMExamples.unchanged LLMExamples.unchanged text "DESIGN PATTERNS"
  = EmptyString /\
  _extract_section LLMExamples.unchanged LLMExamples.unchanged
    LLMExamples.dependencies_doc "DEPENDENCIES"
  = "fastapi".
Proof.
  intros text.
  destruct (X25_section_extracted LLMExamples.unchanged LLMExamples.unchanged text
              "ARCHITECTURE OVERVIEW") as [Hfound _].
  destruct (X25_section_extracted LLMExamples.unchanged LLMExamples.unchanged text
              "DESIGN PATTERNS") as [_ [Hmissing _]].
  destruct (X25_section_extracted LLMExamples.unchanged LLMExamples.unchanged
              LLMExamples.dependencies_doc "DEPENDENCIES") as [Hdropped _].
  split; [|split].
  - apply (Hfound [] "## 1. ARCHITECTURE OVERVIEW" ["A web service."]
             ["## 2. COMPONENT BREAKDOWN"; "Routes and agents."]).
    + reflexivity.
    + intros line [].
    + reflexivity.
    + intros line [<-|[]]. right. reflexivity.
    + right. exists "## 2. COMPONENT BREAKDOWN", ["Routes and agents."].
      repeat split.
  - apply Hmissing. intros line Hin. vm_compute in Hin.
    destruct Hin as [<-|[<-|[<-|[<-|[]]]]]; reflexivity.
  - apply (Hdropped ["# Notes"] "## 4. DEPENDENCIES"
             ["fastapi"; "External DEPENDENCIES: groq, tiktoken."]
             ["## 5. DESIGN PATTERNS"; "None."]).
    + reflexivity.
    + intros line [<-|[]]. reflexivity.
    + reflexivity.
    + intros line [<-|[<-|[]]]; [right|left]; reflexivity.
    + right. exists "## 5. DESIGN PATTERNS", ["None."]. repeat split.
Defined.

Lemma X26_execute_with_a_reliable_model_witness :
  let respond := LLMExamples.steady_model in
  let took := LLMExamples.half_second in
  let unchanged := LLMExamples.unchanged in
  let self := LLMExamples.tester in
  let input_data := LLMExamples.one_chunk in
  let w := LLMExamples.new_world in
  let chunk_analyses := [LLMExamples.architecture_doc] in
  let prompt := synthesis_prompt chunk_analyses "demo" in
  reliable respond /\
  exists w' architecture_doc,
    respond 1%nat (agent_messages self prompt) = Return architecture_doc /\
    execute respond took unchanged unchanged self input_data tt w
    = (w', Return
             {| architecture_overview :=
                  _extract_section unchanged unchanged architecture_doc
                    "ARCHITECTURE OVERVIEW";
                component_analysis :=
                  _extract_section unchanged unchanged architecture_doc
                    "COMPONENT BREAKDOWN";
                dependencies :=
                  _extract_section unchanged unchanged architecture_doc "DEPENDENCIES";
                tech_stack :=
                  _extract_section unchanged unchanged architecture_doc
                    "TECHNOLOGY STACK";
                key_patterns :=
                  _extract_section unchanged unchanged architecture_doc
                    "DESIGN PATTERNS";
                file_structure :=
                  _extract_section unchanged unchanged architecture_doc
                    "FILE STRUCTURE" |}) /\
    invocations (trace w')
    = map (agent_messages self)
        [chunk_prompt [Meta ChunkerExamples.a_py] 0; prompt] /\
    List.length chunk_analyses = 1%nat.
Proof.
  intros respond took unchanged self input_data w chunk_analyses prompt.
  assert (Hreliable : reliable respond)
    by (intros k messages; exists LLMExamples.architecture_doc; reflexivity).
  split; [exact Hreliable|].
  exact (X26_execute_with_a_reliable_model respond took unchanged unchanged self
           input_data tt w Hreliable).
Defined.

Lemma X27_execute_whatever_the_model_witness :
  let respond := LLMExamples.down in
  let took := LLMExamples.half_second in
  let unchanged := LLMExamples.unchanged in
  let self := LLMExamples.tester in
  let input_data := LLMExamples.one_chunk in
  let w := LLMExamples.new_world in
  let messages := agent_messages self (chunk_prompt [Meta ChunkerExamples.a_py] 0) in
  let run := execute respond took unchanged unchanged self input_data tt w in
  all_raise respond messages 0 2 /\
  respond 2%nat messages = Raise "down" /\
  snd run = Raise "LLM call failed after 3 attempts: down" /\
  invocations (trace (fst run)) = repeat messages 3.
Proof.
  intros respond took unchanged self input_data w messages run.
  assert (Hfail : all_raise respond messages 0 2)
    by (intros j Hj; exists "down"; reflexivity).
  assert (Hlast : respond 2%nat messages = Raise "down") by reflexivity.
  split; [exact Hfail|]. split; [exact Hlast|].
  exact (proj2 (proj2 (X27_execute_whatever_the_model respond took unchanged unchanged
                         self input_data tt w))
           [Meta ChunkerExamples.a_py] [] "down" eq_refl Hfail Hlast).
Defined.

End CodeAnalystProofs.
